(** * NILFS inode file (fs/nilfs2/ifile.c): entry life cycle and snapshot diff

    A shallow embedding of [nilfs_ifile_create_inode],
    [nilfs_ifile_delete_inode], [nilfs_ifile_get_inode_block],
    [nilfs_ifile_compare_block] and [nilfs_ifile_compare].

    The kernel state the functions touch is an explicit [world] that is
    passed through every call.  The collaborators that live outside
    ifile.c (persistent allocator, buffer cache, bmap differ) are small
    executable models; each of them is marked as such. *)

From Stdlib Require Import ZArith List Bool Lia Sorted.
Import ListNotations.
Open Scope Z_scope.

(** ** Machine integers *)

(** [size_t], [ino_t] and [__u64] are 64 bit wide unsigned integers
    (LP64 kernel); [to_ulong] is the conversion to any of them. *)
Definition ULONG_MODULUS : Z := 2 ^ 64.
Definition ULONG_MAX : Z := ULONG_MODULUS - 1.
Definition to_ulong (z : Z) : Z := z mod ULONG_MODULUS.

(** Error numbers of include/asm-generic/errno-base.h. *)
Inductive errno := ENOENT | EIO | ENOMEM | EINVAL | ENOSPC.

Definition errno_nr (e : errno) : Z :=
  match e with
  | ENOENT => 2 | EIO => 5 | ENOMEM => 12 | EINVAL => 22 | ENOSPC => 28
  end.

(** The C idiom [return -Exxx]. *)
Definition neg_errno (e : errno) : Z := - errno_nr e.

(** ** Data *)

(** An ifile ([struct inode *]) is named by a number. *)
Definition ifile_id := Z.

(** The fields of [struct nilfs_inode] that ifile.c reads or writes.  The
    values are the raw little-endian fields; [le16_to_cpu] is a bijection
    fixing zero, so a test for non-zero needs no conversion. *)
Record nilfs_inode := mk_inode {
  i_ctime : Z;
  i_ctime_nsec : Z;
  i_links_count : Z;
  i_flags : Z
}.

(** A [struct buffer_head] of an ifile block, identified by the ifile it
    belongs to and by its block offset in that ifile. *)
Record buffer_head := mk_bh {
  bh_ifile : ifile_id;
  bh_blkoff : Z
}.

Definition bh_eqb (a b : buffer_head) : bool :=
  (bh_ifile a =? bh_ifile b) && (bh_blkoff a =? bh_blkoff b).

(** [struct nilfs_ifile_change] of ifile.h; [None] is the NULL pointer. *)
Record nilfs_ifile_change := mk_change {
  ino : Z;
  bh1 : option buffer_head;
  bh2 : option buffer_head
}.

(** [struct nilfs_bmap_diff]: one differing block offset with the pointers
    of both sides. *)
Record nilfs_bmap_diff := mk_diff {
  key : Z;
  ptr1 : Z;
  ptr2 : Z
}.

(** [struct nilfs_palloc_req]. *)
Record nilfs_palloc_req := mk_req {
  pr_entry_nr : Z;
  pr_entry_bh : option buffer_head
}.

(** Result of [nilfs_palloc_block_type]. *)
Inductive palloc_block_type := NILFS_PALLOC_ENTRY_BLOCK | NILFS_PALLOC_OTHER_BLOCK.

(** What ifile.c takes from headers and from alloc.c that are not part of
    the two source files: constants, the validity macro and the layout
    functions of the persistent allocator. *)
Record nilfs_config := mk_config {
  NILFS_BMAP_INVALID_PTR : Z;
  (** PAGE_SIZE / sizeof(struct nilfs_bmap_diff) *)
  diffs_per_page : Z;
  NILFS_VALID_INODE : Z -> bool;
  mi_entries_per_block : ifile_id -> Z;
  (** block type of a block offset and the first entry number of the block *)
  nilfs_palloc_block_type : ifile_id -> Z -> palloc_block_type * Z;
  nilfs_palloc_entry_blkoff : ifile_id -> Z -> Z;
  (** number of slots the allocator of an ifile searches *)
  palloc_nslots : ifile_id -> nat
}.

(** Calls into the collaborators and stores into a mapped entry, in program
    order. *)
Inductive event :=
| Ev_prepare_alloc_entry (ifile : ifile_id) (ret : Z)
| Ev_abort_alloc_entry (ifile : ifile_id) (nr : Z)
| Ev_commit_alloc_entry (ifile : ifile_id) (nr : Z)
| Ev_prepare_free_entry (ifile : ifile_id) (nr : Z) (ret : Z)
| Ev_abort_free_entry (ifile : ifile_id) (nr : Z)
| Ev_commit_free_entry (ifile : ifile_id) (nr : Z)
| Ev_get_entry_block (ifile : ifile_id) (nr : Z) (create : bool) (ret : Z)
| Ev_store_i_flags (ifile : ifile_id) (nr : Z) (v : Z)
| Ev_mark_buffer_dirty (bh : buffer_head)
| Ev_mdt_mark_dirty (ifile : ifile_id)
| Ev_bmap_compare (ifile1 ifile2 : ifile_id) (blkoff : Z) (ret : Z)
| Ev_nilfs_error (ino : Z)
| Ev_nilfs_warning (ino : Z)
| Ev_WARN_ON.

(** The state of the file system as far as ifile.c observes it. *)
Record world := mk_world {
  (** content of the entry blocks: the raw inode of an entry number *)
  raw_inode : ifile_id -> Z -> nilfs_inode;
  (** failure that reading the block at a block offset runs into *)
  blk_fault : ifile_id -> Z -> option errno;
  (** reference count of a buffer head *)
  b_count : buffer_head -> Z;
  (** all block-level differences between the bmaps of two ifiles *)
  bmap_diffs : ifile_id -> ifile_id -> list nilfs_bmap_diff;
  (** failure that a bmap comparison starting at a block offset runs into *)
  bmap_fault : Z -> option errno;
  (** whether [__get_free_pages] finds a page *)
  free_pages_ok : bool;
  (** allocator bitmap: slots that are allocated *)
  pa_bitmap : ifile_id -> Z -> bool;
  (** slots reserved by a prepared, not yet committed allocation *)
  pa_reserved : ifile_id -> Z -> bool;
  trace : list event
}.

Definition set_raw_inode (w : world) (f : ifile_id -> Z -> nilfs_inode) : world :=
  mk_world f (blk_fault w) (b_count w) (bmap_diffs w) (bmap_fault w)
           (free_pages_ok w) (pa_bitmap w) (pa_reserved w) (trace w).

Definition set_b_count (w : world) (f : buffer_head -> Z) : world :=
  mk_world (raw_inode w) (blk_fault w) f (bmap_diffs w) (bmap_fault w)
           (free_pages_ok w) (pa_bitmap w) (pa_reserved w) (trace w).

Definition set_pa_bitmap (w : world) (f : ifile_id -> Z -> bool) : world :=
  mk_world (raw_inode w) (blk_fault w) (b_count w) (bmap_diffs w) (bmap_fault w)
           (free_pages_ok w) f (pa_reserved w) (trace w).

Definition set_pa_reserved (w : world) (f : ifile_id -> Z -> bool) : world :=
  mk_world (raw_inode w) (blk_fault w) (b_count w) (bmap_diffs w) (bmap_fault w)
           (free_pages_ok w) (pa_bitmap w) f (trace w).

Definition log (w : world) (e : event) : world :=
  mk_world (raw_inode w) (blk_fault w) (b_count w) (bmap_diffs w) (bmap_fault w)
           (free_pages_ok w) (pa_bitmap w) (pa_reserved w) (trace w ++ [e]).

(** Point update of a per-ifile table. *)
Definition upd {A : Type} (f : ifile_id -> Z -> A) (ifile : ifile_id) (nr : Z) (a : A)
  : ifile_id -> Z -> A :=
  fun i n => if (i =? ifile) && (n =? nr) then a else f i n.

(** ** Buffer cache *)

(** [get_bh]: take one more reference. *)
Definition get_bh (w : world) (bh : buffer_head) : world :=
  set_b_count w (fun b => if bh_eqb b bh then b_count w b + 1 else b_count w b).

(** [brelse]: drop one reference; [brelse(NULL)] is ignored. *)
Definition brelse (w : world) (bh : option buffer_head) : world :=
  match bh with
  | None => w
  | Some h => set_b_count w (fun b => if bh_eqb b h then b_count w b - 1 else b_count w b)
  end.

Definition mark_buffer_dirty (w : world) (bh : buffer_head) : world :=
  log w (Ev_mark_buffer_dirty bh).

Definition nilfs_mdt_mark_dirty (w : world) (ifile : ifile_id) : world :=
  log w (Ev_mdt_mark_dirty ifile).

Section WithConfig.

Variable cfg : nilfs_config.

(** Modelled from the spec: [nilfs_palloc_get_entry_block] of alloc.c, the
    Block Store's fetch(table, logical_offset, create) -> block_handle or
    I/O error.  On success the block that contains entry [nr] is returned
    with a reference of its own; on failure the caller's pointer is left as
    it was (NULL at every call site). *)
Definition nilfs_palloc_get_entry_block (w : world) (ifile : ifile_id) (nr : Z)
    (create : bool) : Z * option buffer_head * world :=
  let blkoff := nilfs_palloc_entry_blkoff cfg ifile nr in
  match blk_fault w ifile blkoff with
  | Some e =>
      (neg_errno e, None, log w (Ev_get_entry_block ifile nr create (neg_errno e)))
  | None =>
      let bh := mk_bh ifile blkoff in
      (0, Some bh, get_bh (log w (Ev_get_entry_block ifile nr create 0)) bh)
  end.

(** ** Persistent allocator *)

Fixpoint find_free (used : Z -> bool) (nr : Z) (n : nat) : option Z :=
  match n with
  | O => None
  | S k => if used nr then find_free used (nr + 1) k else Some nr
  end.

(** Modelled from the spec: [nilfs_palloc_prepare_alloc_entry] of alloc.c,
    prepare_alloc() -> slot, which reserves the lowest free slot at or
    after [pr_entry_nr] without making it visible, and reports exhaustion
    when no slot is free. *)
Definition nilfs_palloc_prepare_alloc_entry (w : world) (ifile : ifile_id)
    (req : nilfs_palloc_req) : Z * nilfs_palloc_req * world :=
  let used := fun n => pa_bitmap w ifile n || pa_reserved w ifile n in
  match find_free used (pr_entry_nr req) (palloc_nslots cfg ifile) with
  | None => (neg_errno ENOSPC, req, log w (Ev_prepare_alloc_entry ifile (neg_errno ENOSPC)))
  | Some nr =>
      (0, mk_req nr (pr_entry_bh req),
       set_pa_reserved (log w (Ev_prepare_alloc_entry ifile 0))
                       (upd (pa_reserved w) ifile nr true))
  end.

(** Modelled from the spec: abort_alloc(slot) gives the reservation up. *)
Definition nilfs_palloc_abort_alloc_entry (w : world) (ifile : ifile_id)
    (req : nilfs_palloc_req) : world :=
  set_pa_reserved (log w (Ev_abort_alloc_entry ifile (pr_entry_nr req)))
                  (upd (pa_reserved w) ifile (pr_entry_nr req) false).

(** Modelled from the spec: commit_alloc(slot) makes the slot observably
    allocated. *)
Definition nilfs_palloc_commit_alloc_entry (w : world) (ifile : ifile_id)
    (req : nilfs_palloc_req) : world :=
  let w1 := log w (Ev_commit_alloc_entry ifile (pr_entry_nr req)) in
  set_pa_bitmap
    (set_pa_reserved w1 (upd (pa_reserved w) ifile (pr_entry_nr req) false))
    (upd (pa_bitmap w) ifile (pr_entry_nr req) true).

(** Modelled from the spec: [nilfs_palloc_prepare_free_entry] of alloc.c,
    prepare_free(entry) -> ok / not-allocated, which validates that the
    entry is currently allocated and changes nothing. *)
Definition nilfs_palloc_prepare_free_entry (w : world) (ifile : ifile_id)
    (req : nilfs_palloc_req) : Z * world :=
  if pa_bitmap w ifile (pr_entry_nr req)
  then (0, log w (Ev_prepare_free_entry ifile (pr_entry_nr req) 0))
  else (neg_errno ENOENT,
        log w (Ev_prepare_free_entry ifile (pr_entry_nr req) (neg_errno ENOENT))).

(** Modelled from the spec: abort_free(entry). *)
Definition nilfs_palloc_abort_free_entry (w : world) (ifile : ifile_id)
    (req : nilfs_palloc_req) : world :=
  log w (Ev_abort_free_entry ifile (pr_entry_nr req)).

(** Modelled from the spec: commit_free(entry) makes the slot available for
    reuse. *)
Definition nilfs_palloc_commit_free_entry (w : world) (ifile : ifile_id)
    (req : nilfs_palloc_req) : world :=
  set_pa_bitmap (log w (Ev_commit_free_entry ifile (pr_entry_nr req)))
                (upd (pa_bitmap w) ifile (pr_entry_nr req) false).

(** ** Entry life cycle *)

(** [nilfs_ifile_create_inode]: the return value, [*out_ino], [*out_bh]
    (both [None] when they are not written) and the world afterwards. *)
Definition nilfs_ifile_create_inode (w : world) (ifile : ifile_id)
    : Z * option Z * option buffer_head * world :=
  let req := mk_req 0 None in
  let '(ret, req, w) := nilfs_palloc_prepare_alloc_entry w ifile req in
  let '(ret, req, w) :=
    if ret =? 0 then
      let '(ret, bh, w) :=
        nilfs_palloc_get_entry_block w ifile (pr_entry_nr req) true in
      let req := mk_req (pr_entry_nr req) bh in
      if ret <? 0
      then (ret, req, nilfs_palloc_abort_alloc_entry w ifile req)
      else (ret, req, w)
    else (ret, req, w) in
  if ret <? 0 then
    (ret, None, None, brelse w (pr_entry_bh req))
  else
    let w := nilfs_palloc_commit_alloc_entry w ifile req in
    match pr_entry_bh req with
    | Some bh =>
        let w := mark_buffer_dirty w bh in
        let w := nilfs_mdt_mark_dirty w ifile in
        (0, Some (to_ulong (pr_entry_nr req)), Some bh, w)
    | None =>
        (* mark_buffer_dirty(NULL); only reachable when prepare returned a
           positive value, which no allocator does *)
        (0, Some (to_ulong (pr_entry_nr req)), None, nilfs_mdt_mark_dirty w ifile)
    end.

(** [raw_inode->i_flags = 0] on the mapped entry. *)
Definition clear_i_flags (i : nilfs_inode) : nilfs_inode :=
  mk_inode (i_ctime i) (i_ctime_nsec i) (i_links_count i) 0.

(** The store [raw_inode->i_flags = 0] into entry [nr] of [ifile], between
    [kmap_atomic] and [kunmap_atomic]: the entry in the block changes, and
    the trace shows at which point of the program it did. *)
Definition store_i_flags (w : world) (ifile : ifile_id) (nr : Z) : world :=
  log (set_raw_inode w (upd (raw_inode w) ifile nr (clear_i_flags (raw_inode w ifile nr))))
      (Ev_store_i_flags ifile nr 0).

(** [nilfs_ifile_delete_inode]: return value and world afterwards. *)
Definition nilfs_ifile_delete_inode (w : world) (ifile : ifile_id) (ino : Z)
    : Z * world :=
  let req := mk_req ino None in
  let '(ret, w) := nilfs_palloc_prepare_free_entry w ifile req in
  let '(ret, req, w) :=
    if ret =? 0 then
      let '(ret, bh, w) :=
        nilfs_palloc_get_entry_block w ifile (pr_entry_nr req) false in
      let req := mk_req (pr_entry_nr req) bh in
      if ret <? 0
      then (ret, req, nilfs_palloc_abort_free_entry w ifile req)
      else (ret, req, w)
    else (ret, req, w) in
  if ret <? 0 then
    (ret, brelse w (pr_entry_bh req))
  else
    (* raw_inode = nilfs_palloc_block_get_entry(...); raw_inode->i_flags = 0 *)
    let w := store_i_flags w ifile (pr_entry_nr req) in
    let w := match pr_entry_bh req with
             | Some bh => mark_buffer_dirty w bh
             | None => w (* NULL only after a positive return of prepare,
                            which no allocator gives *)
             end in
    let w := brelse w (pr_entry_bh req) in
    let w := nilfs_palloc_commit_free_entry w ifile req in
    (0, w).

(** [nilfs_ifile_get_inode_block]: return value, [*out_bh] and world. *)
Definition nilfs_ifile_get_inode_block (w : world) (ifile : ifile_id) (ino : Z)
    : Z * option buffer_head * world :=
  if negb (NILFS_VALID_INODE cfg ino) then
    (neg_errno EINVAL, None, log w (Ev_nilfs_error ino))
  else
    let '(err, bh, w) := nilfs_palloc_get_entry_block w ifile ino false in
    if negb (err =? 0)
    then (err, bh, log w (Ev_nilfs_warning ino))
    else (err, bh, w).

(** ** Snapshot diff *)

(** Modelled from the spec: [nilfs_bmap_compare] of bmap.c, the Block-Map
    Differ's diff(map1, map2, start_offset, batch_capacity) -> ordered list
    of differing offsets, or error.  It hands out, in the order of
    [bmap_diffs], the first [maxdiffs] differences at or after [blkoff];
    the return value is their number. *)
Definition nilfs_bmap_compare (w : world) (ifile1 ifile2 : ifile_id)
    (blkoff maxdiffs : Z) : Z * list nilfs_bmap_diff * world :=
  match bmap_fault w blkoff with
  | Some e =>
      (neg_errno e, [], log w (Ev_bmap_compare ifile1 ifile2 blkoff (neg_errno e)))
  | None =>
      let diffs := firstn (Z.to_nat maxdiffs)
                     (filter (fun d => blkoff <=? key d) (bmap_diffs w ifile1 ifile2)) in
      let nd := Z.of_nat (length diffs) in
      (nd, diffs, log w (Ev_bmap_compare ifile1 ifile2 blkoff nd))
  end.

(** Body of the loop for a block that exists only in [ifile2]: a record for
    a live entry, with a reference on [ibh2]. *)
Definition created_entry (ifile2 : ifile_id) (ibh2 : buffer_head)
    (w : world) (ino : Z) : option (nilfs_ifile_change * world) :=
  if negb (i_links_count (raw_inode w ifile2 ino) =? 0)
  then Some (mk_change ino None (Some ibh2), get_bh w ibh2)
  else None.

(** Body of the loop for a block that exists only in [ifile1]. *)
Definition deleted_entry (ifile1 : ifile_id) (ibh1 : buffer_head)
    (w : world) (ino : Z) : option (nilfs_ifile_change * world) :=
  if negb (i_links_count (raw_inode w ifile1 ino) =? 0)
  then Some (mk_change ino (Some ibh1) None, get_bh w ibh1)
  else None.

(** Body of the loop for a block that exists on both sides: a record when
    the change time differs, each side's handle only if that side is live. *)
Definition modified_entry (ifile1 ifile2 : ifile_id) (ibh1 ibh2 : buffer_head)
    (w : world) (ino : Z) : option (nilfs_ifile_change * world) :=
  let raw_inode1 := raw_inode w ifile1 ino in
  let raw_inode2 := raw_inode w ifile2 ino in
  if negb (i_ctime_nsec raw_inode1 =? i_ctime_nsec raw_inode2)
     || negb (i_ctime raw_inode1 =? i_ctime raw_inode2)
  then
    let '(b1, w) :=
      if negb (i_links_count raw_inode1 =? 0)
      then (Some ibh1, get_bh w ibh1) else (None, w) in
    let '(b2, w) :=
      if negb (i_links_count raw_inode2 =? 0)
      then (Some ibh2, get_bh w ibh2) else (None, w) in
    Some (mk_change ino b1 b2, w)
  else None.

(** [for ( ; ino <= end; ino++)] with one of the three bodies.  [n] counts
    the records stored so far; the records stored from here on are
    returned in order.  The loop leaves by [break] as soon as [n] equals
    [maxchanges].  [fuel] bounds the number of iterations: [None] stands
    for a loop that does not come to its end. *)
Fixpoint scan_entries (fuel : nat)
    (body : world -> Z -> option (nilfs_ifile_change * world))
    (end_ maxchanges : Z) (w : world) (ino n : Z)
    : option (Z * list nilfs_ifile_change * world) :=
  if ino <=? end_ then
    match fuel with
    | O => None
    | S fuel =>
        match body w ino with
        | Some (c, w) =>
            let n := n + 1 in
            if to_ulong n =? maxchanges then Some (n, [c], w)
            else
              match scan_entries fuel body end_ maxchanges w (to_ulong (ino + 1)) n with
              | Some (n, cs, w) => Some (n, c :: cs, w)
              | None => None
              end
        | None => scan_entries fuel body end_ maxchanges w (to_ulong (ino + 1)) n
        end
    end
  else Some (n, [], w).

(** [WARN_ON(ret == -ENOENT)]. *)
Definition warn_on_enoent (w : world) (ret : Z) : world :=
  if ret =? neg_errno ENOENT then log w Ev_WARN_ON else w.

(** [nilfs_ifile_compare_block]: the return value [n], the records stored
    into [changes[0..]] and the world afterwards. *)
Definition nilfs_ifile_compare_block (w : world) (ifile1 ifile2 : ifile_id)
    (start : Z) (diff : nilfs_bmap_diff) (maxchanges : Z)
    : option (Z * list nilfs_ifile_change * world) :=
  let '(t, nr) := nilfs_palloc_block_type cfg ifile1 (key diff) in
  match t with
  | NILFS_PALLOC_OTHER_BLOCK => Some (0, [], w)
  | NILFS_PALLOC_ENTRY_BLOCK =>
      let ino := Z.max (to_ulong nr) (to_ulong start) in
      let end_ := to_ulong (nr + mi_entries_per_block cfg ifile1 - 1) in
      if end_ <? ino then Some (0, [], w)
      else
        let '(ret, ibh1, w) :=
          if negb (ptr1 diff =? NILFS_BMAP_INVALID_PTR cfg)
          then nilfs_palloc_get_entry_block w ifile1 nr false
          else (0, None, w) in
        if ret <? 0 then Some (ret, [], warn_on_enoent w ret)
        else
          let '(ret, ibh2, w) :=
            if negb (ptr2 diff =? NILFS_BMAP_INVALID_PTR cfg)
            then nilfs_palloc_get_entry_block w ifile2 nr false
            else (0, None, w) in
          if ret <? 0 then Some (ret, [], brelse (warn_on_enoent w ret) ibh1)
          else
            let fuel := Z.to_nat (end_ - ino + 1) in
            let scanned :=
              match ibh1, ibh2 with
              | None, None => Some (0, [], w)
              | None, Some b2 =>
                  scan_entries fuel (created_entry ifile2 b2) end_ maxchanges w ino 0
              | Some b1, None =>
                  scan_entries fuel (deleted_entry ifile1 b1) end_ maxchanges w ino 0
              | Some b1, Some b2 =>
                  scan_entries fuel (modified_entry ifile1 ifile2 b1 b2)
                               end_ maxchanges w ino 0
              end in
            match scanned with
            | Some (n, cs, w) => Some (n, cs, brelse (brelse w ibh1) ibh2)
            | None => None
            end
  end.

(** How the loops of [nilfs_ifile_compare] are left: through [goto out],
    through [goto failed], or by running to their end. *)
Inductive loop_exit := Exit_out | Exit_failed | Exit_next.

(** [for (i = 0; i < nd; i++)] over one batch of differences, entered with
    [nc] records stored.  Returns the new [nc] and the records stored by
    this loop, which are written behind the ones already there. *)
Fixpoint compare_diffs (w : world) (ifile1 ifile2 : ifile_id) (start maxchanges : Z)
    (diffs : list nilfs_bmap_diff) (nc : Z)
    : option (loop_exit * Z * list nilfs_ifile_change * world) :=
  match diffs with
  | [] => Some (Exit_next, nc, [], w)
  | d :: diffs =>
      match nilfs_ifile_compare_block w ifile1 ifile2 start d
                                      (to_ulong (maxchanges - nc)) with
      | None => None
      | Some (n, cs, w) =>
          if n <? 0 then Some (Exit_failed, n, cs, w)
          else
            let nc := nc + n in
            if to_ulong nc =? maxchanges then Some (Exit_out, nc, cs, w)
            else
              match compare_diffs w ifile1 ifile2 start maxchanges diffs nc with
              | Some (e, nc, cs', w) => Some (e, nc, cs ++ cs', w)
              | None => None
              end
      end
  end.

(** The [do { ... } while (nd == maxdiffs)] loop; one unit of [fuel] per
    call of the differ. *)
Fixpoint compare_batches (fuel : nat) (w : world) (ifile1 ifile2 : ifile_id)
    (start maxchanges maxdiffs blkoff nc : Z)
    : option (loop_exit * Z * list nilfs_ifile_change * world) :=
  match fuel with
  | O => None
  | S fuel =>
      let '(nd, diffs, w) := nilfs_bmap_compare w ifile1 ifile2 blkoff maxdiffs in
      if nd <? 0 then Some (Exit_out, nd, [], w)
      else if nd =? 0 then Some (Exit_out, nc, [], w)
      else
        match compare_diffs w ifile1 ifile2 start maxchanges diffs nc with
        | None => None
        | Some (Exit_next, nc, cs, w) =>
            let blkoff := to_ulong (key (last diffs (mk_diff 0 0 0)) + 1) in
            if to_ulong nd =? maxdiffs then
              match compare_batches fuel w ifile1 ifile2 start maxchanges
                                    maxdiffs blkoff nc with
              | Some (e, nc, cs', w) => Some (e, nc, cs ++ cs', w)
              | None => None
              end
            else Some (Exit_out, nc, cs, w)
        | Some r => Some r
        end
  end.

(** The loop behind the label [failed]:
    [for (i = 0; i < nc; i++) { brelse(changes[i].bh1); brelse(changes[i].bh2); }]. *)
Definition release_changes (w : world) (changes : list nilfs_ifile_change) (nc : Z)
    : world :=
  fold_left (fun w c => brelse (brelse w (bh1 c)) (bh2 c))
            (firstn (Z.to_nat nc) changes) w.

(** [nilfs_ifile_compare]: the return value, the records stored into
    [changes] from index 0 on, and the world afterwards. *)
Definition nilfs_ifile_compare (fuel : nat) (w : world) (ifile1 ifile2 : ifile_id)
    (start maxchanges : Z) : option (Z * list nilfs_ifile_change * world) :=
  if negb (free_pages_ok w) then Some (neg_errno ENOMEM, [], w)
  else
    let maxdiffs := diffs_per_page cfg in
    let blkoff := nilfs_palloc_entry_blkoff cfg ifile1 start in
    match compare_batches fuel w ifile1 ifile2 start maxchanges maxdiffs blkoff 0 with
    | None => None
    | Some (Exit_failed, nc, changes, w) =>
        Some (nc, changes, release_changes w changes nc)
    | Some (_, nc, changes, w) => Some (nc, changes, w)
    end.

End WithConfig.

(** ** What the diff engine expects of its collaborators *)

(** Layout of the allocator of an ifile, as far as the blocks that the
    differ reports go: an entry block holds at least one entry, its entry
    numbers fit the type [ino_t] with room to step past the last one, and
    an entry block at a larger block offset holds larger entry numbers. *)
Definition layout_ok (cfg : nilfs_config) (ifile : ifile_id)
    (diffs : list nilfs_bmap_diff) : Prop :=
  0 < mi_entries_per_block cfg ifile /\
  (forall d nr,
     In d diffs ->
     nilfs_palloc_block_type cfg ifile (key d) = (NILFS_PALLOC_ENTRY_BLOCK, nr) ->
     0 <= nr /\ nr + mi_entries_per_block cfg ifile <= ULONG_MAX) /\
  (forall d1 d2 nr1 nr2,
     In d1 diffs -> In d2 diffs -> key d1 < key d2 ->
     nilfs_palloc_block_type cfg ifile (key d1) = (NILFS_PALLOC_ENTRY_BLOCK, nr1) ->
     nilfs_palloc_block_type cfg ifile (key d2) = (NILFS_PALLOC_ENTRY_BLOCK, nr2) ->
     nr1 + mi_entries_per_block cfg ifile <= nr2).

(** The part of the world that a comparison only reads. *)
Definition same_disk (w w' : world) : Prop :=
  raw_inode w' = raw_inode w /\ blk_fault w' = blk_fault w /\
  bmap_diffs w' = bmap_diffs w /\ bmap_fault w' = bmap_fault w /\
  free_pages_ok w' = free_pages_ok w.

(** What holds of each of the three loop bodies: it stores the entry number they are at and write
    nothing but reference counts. *)
Definition body_ok (body : world -> Z -> option (nilfs_ifile_change * world)) : Prop :=
  forall w i c w', body w i = Some (c, w') -> ino c = i /\ same_disk w w'.

(** The differences are listed by strictly ascending block offset, all of
    them at or after [lo] and below the largest [__u64]. *)
Fixpoint ascending_keys (lo : Z) (diffs : list nilfs_bmap_diff) : bool :=
  match diffs with
  | [] => true
  | d :: diffs =>
      (lo <=? key d) && (key d <? ULONG_MAX) && ascending_keys (key d + 1) diffs
  end.

(** Records in strictly ascending order of entry number, none below [lo]. *)
Fixpoint ascending_from (lo : Z) (cs : list nilfs_ifile_change) : Prop :=
  match cs with
  | [] => True
  | c :: cs => lo <= ino c /\ ascending_from (ino c + 1) cs
  end.

Definition ino_lt (a b : nilfs_ifile_change) : Prop := ino a < ino b.

(** A record lies in the entry range of an entry block that the differ
    reported at a block offset in [lo, hi). *)
Definition in_reported_block (cfg : nilfs_config) (ifile : ifile_id)
    (diffs : list nilfs_bmap_diff) (lo hi : Z) (c : nilfs_ifile_change) : Prop :=
  exists d nr,
    In d diffs /\ lo <= key d < hi /\
    nilfs_palloc_block_type cfg ifile (key d) = (NILFS_PALLOC_ENTRY_BLOCK, nr) /\
    nr <= ino c <= nr + mi_entries_per_block cfg ifile - 1.

(** Records in strictly ascending order of entry number, none before
    [start], each from a reported entry block at an offset in [lo, hi). *)
Definition records_ok (cfg : nilfs_config) (ifile : ifile_id)
    (diffs : list nilfs_bmap_diff) (start lo hi : Z)
    (cs : list nilfs_ifile_change) : Prop :=
  StronglySorted ino_lt cs /\
  Forall (fun c => start <= ino c /\ in_reported_block cfg ifile diffs lo hi c) cs.

(** ** Reference accounting *)

(** 1 if the pointer [o] is a handle of the buffer head [b], else 0. *)
Definition holds (o : option buffer_head) (b : buffer_head) : Z :=
  match o with
  | Some h => if bh_eqb b h then 1 else 0
  | None => 0
  end.

(** Number of handles of [b] in a record and in a list of records. *)
Definition change_refs (c : nilfs_ifile_change) (b : buffer_head) : Z :=
  holds (bh1 c) b + holds (bh2 c) b.

Fixpoint changes_refs (cs : list nilfs_ifile_change) (b : buffer_head) : Z :=
  match cs with
  | [] => 0
  | c :: cs => change_refs c b + changes_refs cs b
  end.

(** Everything in the world but the reference counts and the trace. *)
Definition frame (w w' : world) : Prop :=
  raw_inode w' = raw_inode w /\ blk_fault w' = blk_fault w /\
  bmap_diffs w' = bmap_diffs w /\ bmap_fault w' = bmap_fault w /\
  free_pages_ok w' = free_pages_ok w /\
  pa_bitmap w' = pa_bitmap w /\ pa_reserved w' = pa_reserved w.

(** What a record says about the two raw inodes [R ifile1 ino] and
    [R ifile2 ino] it stands for: a handle belongs to the ifile of its
    side and is there only if the entry is in use on that side, and two
    handles come with a changed change time. *)
Definition record_sound (R : ifile_id -> Z -> nilfs_inode)
    (ifile1 ifile2 : ifile_id) (c : nilfs_ifile_change) : Prop :=
  (forall b, bh1 c = Some b ->
     bh_ifile b = ifile1 /\ i_links_count (R ifile1 (ino c)) <> 0) /\
  (forall b, bh2 c = Some b ->
     bh_ifile b = ifile2 /\ i_links_count (R ifile2 (ino c)) <> 0) /\
  (bh1 c <> None -> bh2 c <> None ->
     i_ctime_nsec (R ifile1 (ino c)) <> i_ctime_nsec (R ifile2 (ino c)) \/
     i_ctime (R ifile1 (ino c)) <> i_ctime (R ifile2 (ino c))).

(** The records [cs] report every entry of the differing block [d] that
    has to be reported: with the block on the target side only, every
    entry in use there; with the block on the source side only, every
    entry in use there; with the block on both sides, every entry whose
    change time differs, with a handle for each side on which it is in
    use.  The entries are those of the block from [start] on. *)
Definition entries_reported (cfg : nilfs_config) (w : world)
    (ifile1 ifile2 : ifile_id) (start : Z) (d : nilfs_bmap_diff)
    (cs : list nilfs_ifile_change) : Prop :=
  forall nr i,
    nilfs_palloc_block_type cfg ifile1 (key d) = (NILFS_PALLOC_ENTRY_BLOCK, nr) ->
    Z.max nr start <= i <= nr + mi_entries_per_block cfg ifile1 - 1 ->
    let b1 := mk_bh ifile1 (nilfs_palloc_entry_blkoff cfg ifile1 nr) in
    let b2 := mk_bh ifile2 (nilfs_palloc_entry_blkoff cfg ifile2 nr) in
    let r1 := raw_inode w ifile1 i in
    let r2 := raw_inode w ifile2 i in
    (ptr1 d = NILFS_BMAP_INVALID_PTR cfg -> ptr2 d <> NILFS_BMAP_INVALID_PTR cfg ->
     i_links_count r2 <> 0 ->
     In (mk_change i None (Some b2)) cs) /\
    (ptr1 d <> NILFS_BMAP_INVALID_PTR cfg -> ptr2 d = NILFS_BMAP_INVALID_PTR cfg ->
     i_links_count r1 <> 0 ->
     In (mk_change i (Some b1) None) cs) /\
    (ptr1 d <> NILFS_BMAP_INVALID_PTR cfg -> ptr2 d <> NILFS_BMAP_INVALID_PTR cfg ->
     i_ctime_nsec r1 <> i_ctime_nsec r2 \/ i_ctime r1 <> i_ctime r2 ->
     In (mk_change i
                   (if i_links_count r1 =? 0 then None else Some b1)
                   (if i_links_count r2 =? 0 then None else Some b2)) cs).

(** ** Differing blocks that hold no entries *)

(** Whether the allocator classifies the block of a difference as an entry
    block. *)
Definition entry_block (cfg : nilfs_config) (ifile : ifile_id) (d : nilfs_bmap_diff)
    : bool :=
  match fst (nilfs_palloc_block_type cfg ifile (key d)) with
  | NILFS_PALLOC_ENTRY_BLOCK => true
  | NILFS_PALLOC_OTHER_BLOCK => false
  end.

Definition set_bmap_diffs (w : world)
    (f : ifile_id -> ifile_id -> list nilfs_bmap_diff) : world :=
  mk_world (raw_inode w) (blk_fault w) (b_count w) f (bmap_fault w)
           (free_pages_ok w) (pa_bitmap w) (pa_reserved w) (trace w).

(** The world [w] with a differ that reports, of the differences of [w],
    only those that [keep] selects. *)
Definition report_only (keep : nilfs_bmap_diff -> bool) (w : world) : world :=
  set_bmap_diffs w (fun i1 i2 => filter keep (bmap_diffs w i1 i2)).

Definition is_bmap_compare (e : event) : bool :=
  match e with
  | Ev_bmap_compare _ _ _ _ => true
  | _ => false
  end.

(** The events of a trace other than the calls of the differ: the block
    fetches and the warnings of a comparison. *)
Definition other_calls (t : list event) : list event :=
  filter (fun e => negb (is_bmap_compare e)) t.

(** Two worlds with the same entries, the same blocks and reference counts
    and the same calls apart from those of the differ. *)
Definition agree (w1 w2 : world) : Prop :=
  raw_inode w1 = raw_inode w2 /\ blk_fault w1 = blk_fault w2 /\
  b_count w1 = b_count w2 /\ other_calls (trace w1) = other_calls (trace w2).

(** Two runs of a block scan with the same return value and records that
    end in worlds that agree, or two that both do not come to an end. *)
Definition same_scan (r1 r2 : option (Z * list nilfs_ifile_change * world)) : Prop :=
  match r1, r2 with
  | Some (n1, cs1, w1), Some (n2, cs2, w2) => n1 = n2 /\ cs1 = cs2 /\ agree w1 w2
  | None, None => True
  | _, _ => False
  end.

(** The same for a loop over differences, whose exits are related by
    [exits]. *)
Definition same_loop (exits : loop_exit -> loop_exit -> Prop)
    (r1 r2 : option (loop_exit * Z * list nilfs_ifile_change * world)) : Prop :=
  match r1, r2 with
  | Some (e1, n1, cs1, w1), Some (e2, n2, cs2, w2) =>
      exits e1 e2 /\ n1 = n2 /\ cs1 = cs2 /\ agree w1 w2
  | None, None => True
  | _, _ => False
  end.

(** Whether a loop was left through [goto failed]. *)
Definition failed (e : loop_exit) : bool :=
  match e with
  | Exit_failed => true
  | _ => false
  end.

Definition same_failed (e1 e2 : loop_exit) : Prop := failed e1 = failed e2.

(** ** Table initialisation *)

(** What [nilfs_iget_locked] hands back: NULL, or the ifile inode with
    [I_NEW] set or not. *)
Inductive iget_result := Iget_NULL | Iget_inode (i_new : bool).

(** The answers of the functions that [nilfs_ifile_read] calls outside
    ifile.c: the inode cache and the return values of [nilfs_mdt_init],
    [nilfs_palloc_init_blockgroup] (by inode size) and
    [nilfs_read_inode_common]. *)
Record ifile_read_env := mk_read_env {
  iget_locked : iget_result;
  mdt_init_ret : Z;
  init_blockgroup_ret : Z -> Z;
  read_inode_common_ret : Z
}.

Inductive read_event :=
| Rd_iget_locked
| Rd_mdt_init
| Rd_init_blockgroup (inode_size : Z)
| Rd_setup_cache
| Rd_read_inode_common
| Rd_unlock_new_inode
| Rd_iget_failed.

(** [nilfs_ifile_read]: the return value, whether [*inodep] has been
    written, and the calls made, in order. *)
Definition nilfs_ifile_read (env : ifile_read_env) (inode_size : Z)
    : Z * bool * list read_event :=
  match iget_locked env with
  | Iget_NULL => (neg_errno ENOMEM, false, [Rd_iget_locked])
  | Iget_inode false => (0, true, [Rd_iget_locked])
  | Iget_inode true =>
      let err := mdt_init_ret env in
      if negb (err =? 0)
      then (err, false, [Rd_iget_locked; Rd_mdt_init; Rd_iget_failed])
      else
        let err := init_blockgroup_ret env inode_size in
        if negb (err =? 0)
        then (err, false,
              [Rd_iget_locked; Rd_mdt_init; Rd_init_blockgroup inode_size;
               Rd_iget_failed])
        else
          let err := read_inode_common_ret env in
          if negb (err =? 0)
          then (err, false,
                [Rd_iget_locked; Rd_mdt_init; Rd_init_blockgroup inode_size;
                 Rd_setup_cache; Rd_read_inode_common; Rd_iget_failed])
          else (0, true,
                [Rd_iget_locked; Rd_mdt_init; Rd_init_blockgroup inode_size;
                 Rd_setup_cache; Rd_read_inode_common; Rd_unlock_new_inode])
  end.

(** ** A small file system for concrete runs

    Four entries per block and two entry blocks per group: block offset 0
    holds the group descriptors, block offsets 1, 4, 7, ... hold the bitmap
    of a group and the two block offsets behind a bitmap hold the entries
    of the group, so that entry block 2 starts at entry 0, 3 at 4, 5 at 8
    and so on.  Two differences fit into the scratch page.  The ifiles are
    1 (source) and 2 (target). *)

Definition ex_block_type (ifile : ifile_id) (k : Z) : palloc_block_type * Z :=
  if (k <? 1) || ((k - 1) mod 3 =? 0) then (NILFS_PALLOC_OTHER_BLOCK, 0)
  else (NILFS_PALLOC_ENTRY_BLOCK, 4 * (2 * ((k - 1) / 3) + (k - 1) mod 3 - 1)).

Definition ex_entry_blkoff (ifile : ifile_id) (nr : Z) : Z :=
  2 + 3 * (nr / 4 / 2) + (nr / 4) mod 2.

Definition ex_cfg : nilfs_config :=
  mk_config 0 2 (fun ino => (0 <=? ino) && (ino <? 32)) (fun _ => 4)
            ex_block_type ex_entry_blkoff (fun _ => 32%nat).

Definition ex_world (inodes : ifile_id -> Z -> nilfs_inode)
    (faults : ifile_id -> Z -> option errno) (diffs : list nilfs_bmap_diff)
    (bitmap : ifile_id -> Z -> bool) : world :=
  mk_world inodes faults (fun _ => 0) (fun _ _ => diffs) (fun _ => None) true
           bitmap (fun _ _ => false) [].

Definition no_faults : ifile_id -> Z -> option errno := fun _ _ => None.
Definition no_inodes : ifile_id -> Z -> nilfs_inode := fun _ _ => mk_inode 0 0 0 0.
Definition empty_bitmap : ifile_id -> Z -> bool := fun _ _ => false.

(** Entry 5 of ifile 1 is allocated and in use: one link, flags 3. *)
Definition world_one_inode : world :=
  ex_world (upd no_inodes 1 5 (mk_inode 10 0 1 3)) no_faults []
           (upd empty_bitmap 1 5 true).

(** The block of the first free slot of ifile 1 cannot be read. *)
Definition world_create_fault : world :=
  ex_world no_inodes (upd no_faults 1 2 (Some EIO)) [] empty_bitmap.

Definition world_empty : world :=
  ex_world no_inodes no_faults [] empty_bitmap.

(** Ifile 2 has gained the entries 1 and 2 (block 2), 6 (block 3) and 9
    (block 5) over ifile 1, whose blocks 2, 3 and 5 do not exist; the
    bitmap block 4 differs as well. *)
Definition four_new_inodes : ifile_id -> Z -> nilfs_inode :=
  upd (upd (upd (upd no_inodes 2 1 (mk_inode 7 0 1 0)) 2 2 (mk_inode 7 0 1 0))
           2 6 (mk_inode 8 0 1 0)) 2 9 (mk_inode 9 0 2 0).

Definition four_diffs : list nilfs_bmap_diff :=
  [mk_diff 2 0 70; mk_diff 3 0 71; mk_diff 4 40 72; mk_diff 5 0 73].

Definition world_four_new : world :=
  ex_world four_new_inodes no_faults four_diffs empty_bitmap.

(** Ifile 2 has gained entry 1 in block 2; its block 3 differs too but
    cannot be read. *)
Definition world_fetch_fault : world :=
  ex_world (upd no_inodes 2 1 (mk_inode 7 0 1 0)) (upd no_faults 2 3 (Some EIO))
           [mk_diff 2 0 70; mk_diff 3 0 71] empty_bitmap.

(** Ifile 2 has gained entry 1 in block 2 and entry 6 in block 3; the
    differ fails when it is asked for the differences from block 4 on. *)
Definition world_bmap_fault : world :=
  mk_world (upd (upd no_inodes 2 1 (mk_inode 7 0 1 0)) 2 6 (mk_inode 8 0 1 0))
           no_faults (fun _ => 0)
           (fun _ _ => [mk_diff 2 0 70; mk_diff 3 0 71])
           (fun blkoff => if blkoff =? 4 then Some EIO else None)
           true empty_bitmap (fun _ _ => false) [].

(** Block 2 exists on both sides.  Entry 1 is unused on both sides (link
    count 0), but the slot was used and deleted again in between, so the
    change times left behind in it differ. *)
Definition world_stale_ctime : world :=
  ex_world (upd (upd no_inodes 1 1 (mk_inode 6 0 0 0)) 2 1 (mk_inode 7 0 0 0))
           no_faults [mk_diff 2 60 70] empty_bitmap.

(** The bitmap block 4 and the entry block 5 differ; entry 9 is new. *)
Definition world_bitmap_first : world :=
  ex_world four_new_inodes no_faults [mk_diff 4 40 72; mk_diff 5 0 73] empty_bitmap.

(** The entry block 2, the bitmap block 4 and the entry block 5 differ: the
    bitmap block is the last of the first batch of two. *)
Definition world_bitmap_between : world :=
  ex_world four_new_inodes no_faults [mk_diff 2 0 70; mk_diff 4 40 72; mk_diff 5 0 73]
           empty_bitmap.

(** Only the entry block 5 differs; entry 9 is new. *)
Definition world_block_5 : world :=
  ex_world four_new_inodes no_faults [mk_diff 5 0 73] empty_bitmap.

(** * Properties *)

(** ** Return codes *)

Lemma neg_errno_negative : forall e, neg_errno e < 0.
Proof. destruct e; reflexivity. Qed.

Lemma neg_errno_ltb : forall e, (neg_errno e <? 0) = true.
Proof. destruct e; reflexivity. Qed.

Lemma neg_errno_eqb : forall e, (neg_errno e =? 0) = false.
Proof. destruct e; reflexivity. Qed.

Lemma upd_same : forall (A : Type) (f : ifile_id -> Z -> A) i n a, upd f i n a i n = a.
Proof. intros. unfold upd. now rewrite !Z.eqb_refl. Qed.

(** ** Entry life cycle *)

Section LifeCycle.

Variable cfg : nilfs_config.

(** C7.  Once the allocator has prepared slot [nr]: if the block of the slot
    cannot be fetched, the reservation is aborted, the failure of the fetch
    is the return value, nothing is committed or marked dirty and no handle
    is retained; if it can be fetched, the reservation is committed, then
    the block and the ifile are marked dirty, and the call returns 0 with
    the entry number and a handle that carries one more reference. *)
Theorem create_inode_abort_or_commit :
  forall (w w1 : world) (ifile : ifile_id) (req : nilfs_palloc_req),
    nilfs_palloc_prepare_alloc_entry cfg w ifile (mk_req 0 None) = (0, req, w1) ->
    let nr := pr_entry_nr req in
    let bh := mk_bh ifile (nilfs_palloc_entry_blkoff cfg ifile nr) in
    (forall e, blk_fault w ifile (bh_blkoff bh) = Some e ->
       exists w',
         nilfs_ifile_create_inode cfg w ifile = (neg_errno e, None, None, w') /\
         trace w' = trace w1 ++ [Ev_get_entry_block ifile nr true (neg_errno e);
                                 Ev_abort_alloc_entry ifile nr] /\
         pa_bitmap w' = pa_bitmap w /\
         pa_reserved w' ifile nr = false /\
         b_count w' = b_count w) /\
    (blk_fault w ifile (bh_blkoff bh) = None ->
       exists w',
         nilfs_ifile_create_inode cfg w ifile = (0, Some (to_ulong nr), Some bh, w') /\
         trace w' = trace w1 ++ [Ev_get_entry_block ifile nr true 0;
                                 Ev_commit_alloc_entry ifile nr;
                                 Ev_mark_buffer_dirty bh;
                                 Ev_mdt_mark_dirty ifile] /\
         pa_bitmap w' ifile nr = true /\
         pa_reserved w' ifile nr = false /\
         b_count w' bh = b_count w bh + 1).
Proof.
  intros w w1 ifile req Hprep nr bh.
  assert (Hfault : blk_fault w1 = blk_fault w).
  { unfold nilfs_palloc_prepare_alloc_entry in Hprep.
    destruct (find_free _ _ _); inversion Hprep; reflexivity. }
  assert (Hbitmap : pa_bitmap w1 = pa_bitmap w).
  { unfold nilfs_palloc_prepare_alloc_entry in Hprep.
    destruct (find_free _ _ _); inversion Hprep; reflexivity. }
  assert (Hcount : b_count w1 = b_count w).
  { unfold nilfs_palloc_prepare_alloc_entry in Hprep.
    destruct (find_free _ _ _); inversion Hprep; reflexivity. }
  split.
  - intros e He.
    unfold nilfs_ifile_create_inode. rewrite Hprep. cbn [Z.eqb].
    unfold nilfs_palloc_get_entry_block. rewrite Hfault.
    fold nr. cbn [bh_blkoff bh] in He. rewrite He.
    rewrite neg_errno_ltb. cbn iota beta. rewrite neg_errno_ltb.
    cbn [pr_entry_bh pr_entry_nr brelse].
    eexists; split; [reflexivity|].
    cbn. rewrite <- app_assoc. cbn.
    repeat split; try assumption.
    apply upd_same.
  - intros Hok.
    unfold nilfs_ifile_create_inode. rewrite Hprep. cbn [Z.eqb].
    unfold nilfs_palloc_get_entry_block. rewrite Hfault.
    fold nr. cbn [bh_blkoff bh] in Hok. rewrite Hok.
    cbn [Z.ltb Z.compare pr_entry_bh pr_entry_nr].
    fold bh.
    eexists; split; [reflexivity|].
    cbn. rewrite <- !app_assoc. cbn.
    repeat split.
    + apply upd_same.
    + apply upd_same.
    + rewrite Hcount. unfold bh_eqb. cbn. now rewrite !Z.eqb_refl.
Qed.

End LifeCycle.

Lemma create_inode_abort_or_commit_witness :
  (exists w',
     nilfs_ifile_create_inode ex_cfg world_create_fault 1
       = (neg_errno EIO, None, None, w') /\
     pa_reserved w' 1 0 = false) /\
  (exists w',
     nilfs_ifile_create_inode ex_cfg world_empty 1
       = (0, Some 0, Some (mk_bh 1 2), w') /\
     pa_bitmap w' 1 0 = true).
Proof.
  split.
  - destruct (create_inode_abort_or_commit ex_cfg world_create_fault _ 1 _ eq_refl)
      as [Hfail _].
    destruct (Hfail EIO eq_refl) as [w' [Hrun [_ [_ [Hres _]]]]].
    exists w'. split; [exact Hrun | exact Hres].
  - destruct (create_inode_abort_or_commit ex_cfg world_empty _ 1 _ eq_refl)
      as [_ Hok].
    destruct (Hok eq_refl) as [w' [Hrun [_ [Hbit _]]]].
    exists w'. split; [exact Hrun | exact Hbit].
Defined.

(** C8.  Deleting an entry that is not allocated returns -ENOENT and changes
    nothing: no raw inode is written, no reference count moves, the
    allocator's bitmap and reservations stay as they are, and the only call
    made is the refused prepare (so no block is fetched or marked dirty and
    no free is committed). *)
Theorem delete_inode_not_allocated :
  forall (cfg : nilfs_config) (w : world) (ifile : ifile_id) (ino : Z),
    pa_bitmap w ifile ino = false ->
    exists w',
      nilfs_ifile_delete_inode cfg w ifile ino = (neg_errno ENOENT, w') /\
      raw_inode w' = raw_inode w /\
      b_count w' = b_count w /\
      pa_bitmap w' = pa_bitmap w /\
      pa_reserved w' = pa_reserved w /\
      trace w' = trace w ++ [Ev_prepare_free_entry ifile ino (neg_errno ENOENT)].
Proof.
  intros cfg w ifile ino Hfree.
  unfold nilfs_ifile_delete_inode, nilfs_palloc_prepare_free_entry.
  cbn [pr_entry_nr]. rewrite Hfree. cbn.
  eexists; repeat split.
Qed.

Lemma delete_inode_not_allocated_witness :
  exists w',
    nilfs_ifile_delete_inode ex_cfg world_one_inode 1 6 = (neg_errno ENOENT, w') /\
    raw_inode w' = raw_inode world_one_inode /\
    trace w' = [Ev_prepare_free_entry 1 6 (neg_errno ENOENT)].
Proof.
  destruct (delete_inode_not_allocated ex_cfg world_one_inode 1 6 eq_refl)
    as [w' [Hrun [Hraw [_ [_ [_ Htrace]]]]]].
  exists w'. repeat split; assumption.
Defined.

(** C9.  An entry number that [NILFS_VALID_INODE] rejects is answered with
    -EINVAL after reporting the error, and no block is fetched: the handle
    is not set, no reference count moves and the report is the only call.
    A valid entry number is handed to [nilfs_palloc_get_entry_block] with
    [create] = 0, whose return value and handle are passed on. *)
Theorem get_inode_block_validates :
  forall (cfg : nilfs_config) (w : world) (ifile : ifile_id) (ino : Z),
    (NILFS_VALID_INODE cfg ino = false ->
       exists w',
         nilfs_ifile_get_inode_block cfg w ifile ino = (neg_errno EINVAL, None, w') /\
         b_count w' = b_count w /\
         trace w' = trace w ++ [Ev_nilfs_error ino]) /\
    (NILFS_VALID_INODE cfg ino = true ->
       exists ret bh w1 w',
         nilfs_palloc_get_entry_block cfg w ifile ino false = (ret, bh, w1) /\
         nilfs_ifile_get_inode_block cfg w ifile ino = (ret, bh, w') /\
         b_count w' = b_count w1 /\
         trace w' = trace w ++ Ev_get_entry_block ifile ino false ret
                               :: (if ret =? 0 then [] else [Ev_nilfs_warning ino])).
Proof.
  intros cfg w ifile ino. split; intros Hvalid.
  - unfold nilfs_ifile_get_inode_block. rewrite Hvalid. cbn.
    eexists; repeat split.
  - unfold nilfs_ifile_get_inode_block. rewrite Hvalid. cbn [negb].
    unfold nilfs_palloc_get_entry_block.
    destruct (blk_fault w ifile (nilfs_palloc_entry_blkoff cfg ifile ino)) as [e|].
    + rewrite neg_errno_eqb. cbn [negb].
      do 4 eexists. split; [reflexivity|]. split; [reflexivity|].
      cbn. rewrite <- app_assoc. rewrite neg_errno_eqb. split; reflexivity.
    + cbn [Z.eqb negb].
      do 4 eexists. split; [reflexivity|]. split; [reflexivity|].
      cbn. split; reflexivity.
Qed.

Lemma get_inode_block_validates_witness :
  (exists w',
     nilfs_ifile_get_inode_block ex_cfg world_empty 1 32 = (neg_errno EINVAL, None, w') /\
     trace w' = [Ev_nilfs_error 32]) /\
  (exists w',
     nilfs_ifile_get_inode_block ex_cfg world_empty 1 5 = (0, Some (mk_bh 1 3), w') /\
     trace w' = [Ev_get_entry_block 1 5 false 0]).
Proof.
  split.
  - destruct (get_inode_block_validates ex_cfg world_empty 1 32) as [Hbad _].
    destruct (Hbad eq_refl) as [w' [Hrun [_ Htrace]]].
    exists w'. split; assumption.
  - destruct (get_inode_block_validates ex_cfg world_empty 1 5) as [_ Hgood].
    destruct (Hgood eq_refl) as [ret [bh [w1 [w' [Hget [Hrun [_ Htrace]]]]]]].
    vm_compute in Hget. inversion Hget; subst ret bh.
    exists w'. split; assumption.
Defined.

(** C2, as the code has it.  A successful delete writes zero into the
    [i_flags] field of the entry and leaves every other field of the raw
    inode, the link count among them, as it was.  The store and the dirty
    mark come before the commit of the free: the trace of the delete is
    prepare, fetch, store, dirty mark, commit, in this order, and in the
    world [w3] that [nilfs_palloc_commit_free_entry] starts from the flags
    are already zero and the slot is still allocated. *)
Theorem delete_inode_clears_flags_before_commit :
  forall (cfg : nilfs_config) (w w' : world) (ifile : ifile_id) (ino : Z),
    nilfs_ifile_delete_inode cfg w ifile ino = (0, w') ->
    let bh := mk_bh ifile (nilfs_palloc_entry_blkoff cfg ifile ino) in
    exists w3,
      w' = nilfs_palloc_commit_free_entry w3 ifile (mk_req ino (Some bh)) /\
      i_flags (raw_inode w3 ifile ino) = 0 /\
      pa_bitmap w3 ifile ino = true /\
      trace w3 = trace w ++ [Ev_prepare_free_entry ifile ino 0;
                             Ev_get_entry_block ifile ino false 0;
                             Ev_store_i_flags ifile ino 0;
                             Ev_mark_buffer_dirty bh] /\
      trace w' = trace w ++ [Ev_prepare_free_entry ifile ino 0;
                             Ev_get_entry_block ifile ino false 0;
                             Ev_store_i_flags ifile ino 0;
                             Ev_mark_buffer_dirty bh;
                             Ev_commit_free_entry ifile ino] /\
      raw_inode w' ifile ino = clear_i_flags (raw_inode w ifile ino) /\
      i_links_count (raw_inode w' ifile ino) = i_links_count (raw_inode w ifile ino) /\
      pa_bitmap w' ifile ino = false.
Proof.
  intros cfg w w' ifile ino Hrun bh.
  unfold nilfs_ifile_delete_inode, nilfs_palloc_prepare_free_entry in Hrun.
  cbn [pr_entry_nr] in Hrun.
  destruct (pa_bitmap w ifile ino) eqn:Hbit.
  2:{ cbn in Hrun. inversion Hrun. }
  cbn [Z.eqb] in Hrun.
  unfold nilfs_palloc_get_entry_block in Hrun. cbn [blk_fault log] in Hrun.
  destruct (blk_fault w ifile (nilfs_palloc_entry_blkoff cfg ifile ino)) as [e|] eqn:Hfault.
  { rewrite neg_errno_ltb in Hrun. cbn iota beta in Hrun.
    rewrite neg_errno_ltb in Hrun. inversion Hrun as [[Hret Hw]].
    pose proof (neg_errno_negative e). lia. }
  cbn [Z.ltb Z.compare pr_entry_bh pr_entry_nr] in Hrun.
  inversion Hrun as [Hw]. clear Hrun.
  eexists. split; [reflexivity|].
  cbn. rewrite !upd_same, <- !app_assoc. cbn.
  repeat split. exact Hbit.
Qed.

Lemma delete_inode_clears_flags_before_commit_witness :
  exists w',
    nilfs_ifile_delete_inode ex_cfg world_one_inode 1 5 = (0, w') /\
    raw_inode w' 1 5 = mk_inode 10 0 1 0 /\
    pa_bitmap w' 1 5 = false.
Proof.
  exists (snd (nilfs_ifile_delete_inode ex_cfg world_one_inode 1 5)).
  destruct (delete_inode_clears_flags_before_commit ex_cfg world_one_inode
              (snd (nilfs_ifile_delete_inode ex_cfg world_one_inode 1 5)) 1 5 eq_refl)
    as [w3 [_ [_ [_ [_ [_ [Hraw [_ Hbit]]]]]]]].
  split; [reflexivity|]. split; [exact Hraw | exact Hbit].
Defined.

(** C2, as the claim states it, fails: entry 5 has link count 1 and flags 3;
    the delete succeeds and the link count, which the diff engine reads as
    liveness, is still 1 in the block afterwards. *)
Lemma delete_inode_keeps_links_count :
  fst (nilfs_ifile_delete_inode ex_cfg world_one_inode 1 5) = 0 /\
  i_links_count (raw_inode world_one_inode 1 5) = 1 /\
  i_links_count
    (raw_inode (snd (nilfs_ifile_delete_inode ex_cfg world_one_inode 1 5)) 1 5) <> 0 /\
  created_entry 1 (mk_bh 1 3)
    (snd (nilfs_ifile_delete_inode ex_cfg world_one_inode 1 5)) 5 <> None.
Proof.
  repeat split; try reflexivity; vm_compute; discriminate.
Qed.

(** ** Snapshot diff: what a comparison leaves alone *)

Lemma to_ulong_small : forall z, 0 <= z <= ULONG_MAX -> to_ulong z = z.
Proof.
  intros z Hz. unfold to_ulong. apply Z.mod_small.
  unfold ULONG_MAX in Hz. lia.
Qed.

Lemma same_disk_refl : forall w, same_disk w w.
Proof. intros w. repeat split. Qed.

Lemma same_disk_trans :
  forall w1 w2 w3, same_disk w1 w2 -> same_disk w2 w3 -> same_disk w1 w3.
Proof.
  unfold same_disk. intros w1 w2 w3 (A1 & A2 & A3 & A4 & A5) (B1 & B2 & B3 & B4 & B5).
  repeat split; congruence.
Qed.

Lemma same_disk_log : forall w e, same_disk w (log w e).
Proof. intros. repeat split. Qed.

Lemma same_disk_get_bh : forall w bh, same_disk w (get_bh w bh).
Proof. intros. repeat split. Qed.

Lemma same_disk_brelse : forall w bh, same_disk w (brelse w bh).
Proof. intros w [bh|]; repeat split. Qed.

Lemma same_disk_warn : forall w ret, same_disk w (warn_on_enoent w ret).
Proof. intros. unfold warn_on_enoent. destruct (ret =? _); repeat split. Qed.

Create HintDb disk.

#[local] Hint Resolve same_disk_refl same_disk_log same_disk_get_bh
  same_disk_brelse same_disk_warn : disk.

Lemma get_entry_block_disk :
  forall cfg w ifile nr create ret bh w',
    nilfs_palloc_get_entry_block cfg w ifile nr create = (ret, bh, w') ->
    same_disk w w' /\ ret <= 0.
Proof.
  intros cfg w ifile nr create ret bh w' H.
  unfold nilfs_palloc_get_entry_block in H.
  destruct (blk_fault w ifile _) as [e|]; inversion H; subst.
  - split; [repeat split|]. pose proof (neg_errno_negative e). lia.
  - split; [repeat split|]. lia.
Qed.

(** The three loop bodies store the entry number they are at and write
    nothing but reference counts. *)
Lemma created_entry_ok : forall ifile2 ibh2, body_ok (created_entry ifile2 ibh2).
Proof.
  intros ifile2 ibh2 w i c w' H. unfold created_entry in H.
  destruct (negb _); inversion H; subst. split; [reflexivity | repeat split].
Qed.

Lemma deleted_entry_ok : forall ifile1 ibh1, body_ok (deleted_entry ifile1 ibh1).
Proof.
  intros ifile1 ibh1 w i c w' H. unfold deleted_entry in H.
  destruct (negb _); inversion H; subst. split; [reflexivity | repeat split].
Qed.

Lemma modified_entry_ok :
  forall ifile1 ifile2 ibh1 ibh2, body_ok (modified_entry ifile1 ifile2 ibh1 ibh2).
Proof.
  intros ifile1 ifile2 ibh1 ibh2 w i c w' H. unfold modified_entry in H.
  destruct (_ || _); [|discriminate].
  destruct (negb (i_links_count (raw_inode w ifile1 i) =? 0));
    destruct (negb (i_links_count (raw_inode w ifile2 i) =? 0));
    inversion H; subst; split; try reflexivity; repeat split.
Qed.

(** ** Snapshot diff: one block *)

(** A scan over the entries [i .. end_] of a block comes to its end and
    stores records in ascending order of entry number, all of them inside
    the scanned range. *)
Lemma scan_entries_spec :
  forall body end_ mc,
    body_ok body -> 0 <= end_ < ULONG_MAX ->
    forall fuel w i n,
      0 <= i -> end_ - i + 1 <= Z.of_nat fuel ->
      exists n' cs w',
        scan_entries fuel body end_ mc w i n = Some (n', cs, w') /\
        same_disk w w' /\
        ascending_from i cs /\
        Forall (fun c => ino c <= end_) cs /\
        n' = n + Z.of_nat (length cs).
Proof.
  intros body end_ mc Hbody Hend.
  induction fuel as [|fuel IH]; intros w i n Hi Hfuel.
  - cbn [scan_entries].
    destruct (i <=? end_) eqn:Hle; [apply Z.leb_le in Hle; lia|].
    exists n, [], w. repeat split; auto. cbn. lia.
  - cbn [scan_entries].
    destruct (i <=? end_) eqn:Hle.
    2:{ exists n, [], w. repeat split; auto. cbn. lia. }
    apply Z.leb_le in Hle.
    assert (Hnext : to_ulong (i + 1) = i + 1) by (apply to_ulong_small; lia).
    rewrite Hnext.
    destruct (body w i) as [[c w1]|] eqn:Hb.
    + destruct (Hbody _ _ _ _ Hb) as [Hino Hdisk].
      destruct (to_ulong (n + 1) =? mc).
      * exists (n + 1), [c], w1. repeat split; auto; try apply Hdisk.
        -- cbn. lia.
        -- constructor; [lia | constructor].
      * destruct (IH w1 (i + 1) (n + 1)) as (n' & cs & w' & Hrun & Hd & Hasc & Hall & Hn);
          [lia | lia |].
        rewrite Hrun. exists n', (c :: cs), w'. split; [reflexivity|].
        split; [eapply same_disk_trans; eassumption|].
        split; [cbn; split; [lia | rewrite Hino; exact Hasc]|].
        split; [constructor; [lia | exact Hall]|].
        cbn [length]. lia.
    + destruct (IH w (i + 1) n) as (n' & cs & w' & Hrun & Hd & Hasc & Hall & Hn);
        [lia | lia |].
      rewrite Hrun. exists n', cs, w'. split; [reflexivity|].
      split; [exact Hd|]. split; [|split; assumption].
      clear - Hasc. destruct cs as [|c cs]; cbn in *; [exact I|].
      destruct Hasc; split; [lia | assumption].
Qed.

Lemma ascending_from_weaken :
  forall cs lo lo', lo' <= lo -> ascending_from lo cs -> ascending_from lo' cs.
Proof.
  intros [|c cs] lo lo' Hle H; cbn in *; [exact I|].
  destruct H; split; [lia | assumption].
Qed.

(** [nilfs_ifile_compare_block] on one difference: it returns; a negative
    return value comes with no record; otherwise the return value counts
    the records, which lie in the entry range of the block, clipped at
    [start], in ascending order.  A block that is not an entry block
    yields nothing. *)
Lemma compare_block_spec :
  forall cfg w ifile1 ifile2 start d mc,
    0 <= start <= ULONG_MAX ->
    0 < mi_entries_per_block cfg ifile1 ->
    (forall nr,
       nilfs_palloc_block_type cfg ifile1 (key d) = (NILFS_PALLOC_ENTRY_BLOCK, nr) ->
       0 <= nr /\ nr + mi_entries_per_block cfg ifile1 <= ULONG_MAX) ->
    exists n cs w',
      nilfs_ifile_compare_block cfg w ifile1 ifile2 start d mc = Some (n, cs, w') /\
      same_disk w w' /\
      (n < 0 -> cs = []) /\
      (0 <= n -> n = Z.of_nat (length cs)) /\
      (cs <> [] ->
       exists nr,
         nilfs_palloc_block_type cfg ifile1 (key d) = (NILFS_PALLOC_ENTRY_BLOCK, nr) /\
         ascending_from (Z.max nr start) cs /\
         Forall (fun c => ino c <= nr + mi_entries_per_block cfg ifile1 - 1) cs).
Proof.
  intros cfg w ifile1 ifile2 start d mc Hstart Hepb Hrange.
  unfold nilfs_ifile_compare_block.
  destruct (nilfs_palloc_block_type cfg ifile1 (key d)) as [t nr] eqn:Htype.
  destruct t.
  2:{ exists 0, [], w. repeat split; auto with disk; congruence. }
  destruct (Hrange nr eq_refl) as [Hnr Hlast].
  rewrite (to_ulong_small nr), (to_ulong_small start),
    (to_ulong_small (nr + mi_entries_per_block cfg ifile1 - 1)) by lia.
  set (end_ := nr + mi_entries_per_block cfg ifile1 - 1).
  set (i0 := Z.max nr start).
  destruct (end_ <? i0) eqn:Hclip.
  { exists 0, [], w. repeat split; auto with disk; congruence. }
  apply Z.ltb_ge in Hclip.
  assert (Hget1 : exists ret1 ibh1 w1,
            (if negb (ptr1 d =? NILFS_BMAP_INVALID_PTR cfg)
             then nilfs_palloc_get_entry_block cfg w ifile1 nr false
             else (0, None, w)) = (ret1, ibh1, w1) /\ same_disk w w1 /\ ret1 <= 0).
  { destruct (negb _).
    - destruct (nilfs_palloc_get_entry_block cfg w ifile1 nr false) as [[r b] w1] eqn:E.
      exists r, b, w1. split; [reflexivity|]. eapply get_entry_block_disk; eassumption.
    - exists 0, None, w. repeat split; lia. }
  destruct Hget1 as (ret1 & ibh1 & w1 & -> & Hd1 & Hret1).
  destruct (ret1 <? 0) eqn:Hneg1.
  { exists ret1, [], (warn_on_enoent w1 ret1).
    split; [reflexivity|].
    split; [eapply same_disk_trans; [exact Hd1 | auto with disk]|].
    apply Z.ltb_lt in Hneg1. repeat split; try congruence; lia. }
  assert (Hget2 : exists ret2 ibh2 w2,
            (if negb (ptr2 d =? NILFS_BMAP_INVALID_PTR cfg)
             then nilfs_palloc_get_entry_block cfg w1 ifile2 nr false
             else (0, None, w1)) = (ret2, ibh2, w2) /\ same_disk w1 w2 /\ ret2 <= 0).
  { destruct (negb _).
    - destruct (nilfs_palloc_get_entry_block cfg w1 ifile2 nr false) as [[r b] w2] eqn:E.
      exists r, b, w2. split; [reflexivity|]. eapply get_entry_block_disk; eassumption.
    - exists 0, None, w1. repeat split; lia. }
  destruct Hget2 as (ret2 & ibh2 & w2 & -> & Hd2 & Hret2).
  assert (Hd12 : same_disk w w2) by (eapply same_disk_trans; eassumption).
  destruct (ret2 <? 0) eqn:Hneg2.
  { exists ret2, [], (brelse (warn_on_enoent w2 ret2) ibh1).
    split; [reflexivity|].
    split; [eapply same_disk_trans; [exact Hd12|];
            eapply same_disk_trans; [apply same_disk_warn | apply same_disk_brelse]|].
    apply Z.ltb_lt in Hneg2. repeat split; try congruence; lia. }
  assert (Hscan : forall body, body_ok body ->
            exists n cs w3,
              scan_entries (Z.to_nat (end_ - i0 + 1)) body end_ mc w2 i0 0
                = Some (n, cs, w3) /\
              same_disk w2 w3 /\ ascending_from i0 cs /\
              Forall (fun c => ino c <= end_) cs /\ n = 0 + Z.of_nat (length cs)).
  { intros body Hbody. apply scan_entries_spec; auto; unfold end_, i0; lia. }
  assert (Hdone : forall n cs w3,
            same_disk w2 w3 -> ascending_from i0 cs ->
            Forall (fun c => ino c <= end_) cs -> n = 0 + Z.of_nat (length cs) ->
            exists n' cs' w',
              Some (n, cs, brelse (brelse w3 ibh1) ibh2) = Some (n', cs', w') /\
              same_disk w w' /\ (n' < 0 -> cs' = []) /\
              (0 <= n' -> n' = Z.of_nat (length cs')) /\
              (cs' <> [] ->
               exists nr0, (NILFS_PALLOC_ENTRY_BLOCK, nr) = (NILFS_PALLOC_ENTRY_BLOCK, nr0) /\
                 ascending_from (Z.max nr0 start) cs' /\
                 Forall (fun c => ino c <= nr0 + mi_entries_per_block cfg ifile1 - 1) cs')).
  { intros n cs w3 Hd3 Hasc Hall Hn. exists n, cs, (brelse (brelse w3 ibh1) ibh2).
    split; [reflexivity|].
    split; [eapply same_disk_trans; [exact Hd12|];
            eapply same_disk_trans; [exact Hd3|];
            eapply same_disk_trans; apply same_disk_brelse|].
    split; [intros; exfalso; lia|]. split; [intros; lia|].
    intros _. exists nr. repeat split; assumption. }
  destruct ibh1 as [b1|], ibh2 as [b2|].
  - destruct (Hscan _ (modified_entry_ok ifile1 ifile2 b1 b2))
      as (n & cs & w3 & -> & Hd3 & Hasc & Hall & Hn). now apply Hdone.
  - destruct (Hscan _ (deleted_entry_ok ifile1 b1))
      as (n & cs & w3 & -> & Hd3 & Hasc & Hall & Hn). now apply Hdone.
  - destruct (Hscan _ (created_entry_ok ifile2 b2))
      as (n & cs & w3 & -> & Hd3 & Hasc & Hall & Hn). now apply Hdone.
  - apply (Hdone 0 [] w2); auto with disk. cbn. lia.
Qed.

(** ** Snapshot diff: ordered records *)

Lemma ascending_from_sorted :
  forall cs lo,
    ascending_from lo cs ->
    StronglySorted ino_lt cs /\ Forall (fun c => lo <= ino c) cs.
Proof.
  induction cs as [|c cs IH]; intros lo H; cbn in H.
  - split; constructor.
  - destruct H as [Hlo Hrest]. destruct (IH _ Hrest) as [Hs Hall].
    split.
    + constructor; [exact Hs|].
      eapply Forall_impl; [|exact Hall]. intros a Ha. unfold ino_lt. cbn beta in Ha. lia.
    + constructor; [exact Hlo|].
      eapply Forall_impl; [|exact Hall]. intros a Ha. cbn in Ha. lia.
Qed.

Lemma strongly_sorted_app :
  forall (cs1 cs2 : list nilfs_ifile_change),
    StronglySorted ino_lt cs1 -> StronglySorted ino_lt cs2 ->
    (forall a b, In a cs1 -> In b cs2 -> ino_lt a b) ->
    StronglySorted ino_lt (cs1 ++ cs2).
Proof.
  induction cs1 as [|c cs1 IH]; intros cs2 H1 H2 Hcross; cbn; [exact H2|].
  inversion H1 as [|? ? Hs Hall]; subst.
  constructor.
  - apply IH; auto. intros a b Ha Hb. apply Hcross; [right|]; assumption.
  - apply Forall_app. split; [exact Hall|].
    apply Forall_forall. intros b Hb. apply Hcross; [left; reflexivity | exact Hb].
Qed.

Section Records.

Variables (cfg : nilfs_config) (ifile : ifile_id) (D : list nilfs_bmap_diff).
Variable start : Z.

Lemma records_ok_nil : forall lo hi, records_ok cfg ifile D start lo hi [].
Proof. intros. split; constructor. Qed.

Lemma records_ok_weaken :
  forall lo hi lo' hi' cs,
    lo' <= lo -> hi <= hi' ->
    records_ok cfg ifile D start lo hi cs -> records_ok cfg ifile D start lo' hi' cs.
Proof.
  intros lo hi lo' hi' cs Hlo Hhi [Hs Hall]. split; [exact Hs|].
  eapply Forall_impl; [|exact Hall].
  intros c [Hc (d & nr & Hin & Hk & Ht & Hr)]. split; [exact Hc|].
  exists d, nr. repeat split; try assumption; lia.
Qed.

Lemma records_ok_app :
  forall lo mid mid' hi cs1 cs2,
    layout_ok cfg ifile D -> mid <= mid' ->
    records_ok cfg ifile D start lo mid cs1 ->
    records_ok cfg ifile D start mid' hi cs2 ->
    lo <= mid -> mid' <= hi ->
    records_ok cfg ifile D start lo hi (cs1 ++ cs2).
Proof.
  intros lo mid mid' hi cs1 cs2 (Hepb & Hrange & Hmono) Hmid [Hs1 Ha1] [Hs2 Ha2] Hlo Hhi.
  split.
  - apply strongly_sorted_app; auto.
    intros a b Ha Hb.
    rewrite Forall_forall in Ha1, Ha2.
    destruct (Ha1 _ Ha) as [_ (d1 & nr1 & Hin1 & Hk1 & Ht1 & Hr1)].
    destruct (Ha2 _ Hb) as [_ (d2 & nr2 & Hin2 & Hk2 & Ht2 & Hr2)].
    assert (key d1 < key d2) by lia.
    pose proof (Hmono d1 d2 nr1 nr2 Hin1 Hin2 H Ht1 Ht2).
    unfold ino_lt. lia.
  - apply Forall_app. split.
    + eapply Forall_impl; [|exact Ha1].
      intros c [Hc (d & nr & Hin & Hk & Ht & Hr)]. split; [exact Hc|].
      exists d, nr. repeat split; try assumption; lia.
    + eapply Forall_impl; [|exact Ha2].
      intros c [Hc (d & nr & Hin & Hk & Ht & Hr)]. split; [exact Hc|].
      exists d, nr. repeat split; try assumption; lia.
Qed.

End Records.

(** ** Snapshot diff: batches of the differ *)

Lemma ascending_keys_cons :
  forall lo d ds,
    ascending_keys lo (d :: ds) = true <->
    lo <= key d /\ key d < ULONG_MAX /\ ascending_keys (key d + 1) ds = true.
Proof.
  intros. cbn [ascending_keys]. rewrite !andb_true_iff, Z.leb_le, Z.ltb_lt. tauto.
Qed.

Lemma ascending_keys_weaken :
  forall ds lo lo', lo' <= lo -> ascending_keys lo ds = true -> ascending_keys lo' ds = true.
Proof.
  intros [|d ds] lo lo' Hle H; [reflexivity|].
  apply ascending_keys_cons in H. apply ascending_keys_cons. intuition lia.
Qed.

Lemma ascending_keys_filter :
  forall ds lo b lo',
    lo' <= Z.max lo b ->
    ascending_keys lo ds = true ->
    ascending_keys lo' (filter (fun d => b <=? key d) ds) = true.
Proof.
  induction ds as [|d ds IH]; intros lo b lo' Hlo H; [reflexivity|].
  apply ascending_keys_cons in H. destruct H as (H1 & H2 & H3).
  cbn [filter]. destruct (b <=? key d) eqn:Hb.
  - apply Z.leb_le in Hb. apply ascending_keys_cons.
    repeat split; [lia | lia |]. eapply IH; [|exact H3]. lia.
  - apply Z.leb_gt in Hb. eapply IH; [|exact H3]. lia.
Qed.

Lemma ascending_keys_firstn :
  forall n ds lo, ascending_keys lo ds = true -> ascending_keys lo (firstn n ds) = true.
Proof.
  induction n as [|n IH]; intros [|d ds] lo H; try reflexivity.
  apply ascending_keys_cons in H. destruct H as (H1 & H2 & H3).
  cbn [firstn]. apply ascending_keys_cons. repeat split; auto.
Qed.

Lemma ascending_keys_last :
  forall ds lo d0,
    ascending_keys lo ds = true ->
    Forall (fun d => key d < key (last ds d0) + 1) ds.
Proof.
  induction ds as [|d ds IH]; intros lo d0 H; [constructor|].
  apply ascending_keys_cons in H. destruct H as (H1 & H2 & H3).
  destruct ds as [|d' ds].
  - cbn. constructor; [lia | constructor].
  - change (last (d :: d' :: ds) d0) with (last (d' :: ds) d0).
    pose proof (IH _ d0 H3) as Hall.
    constructor; [|exact Hall].
    inversion Hall as [|? ? Hd' _]; subst.
    apply ascending_keys_cons in H3. lia.
Qed.

Lemma ascending_keys_in :
  forall ds lo d, ascending_keys lo ds = true -> In d ds -> lo <= key d < ULONG_MAX.
Proof.
  induction ds as [|x ds IH]; intros lo d Hasc Hin; [contradiction|].
  apply ascending_keys_cons in Hasc. destruct Hasc as (H1 & H2 & H3).
  destruct Hin as [->|Hin]; [lia|].
  specialize (IH _ _ H3 Hin). lia.
Qed.

Lemma last_in : forall (ds : list nilfs_bmap_diff) d0, ds <> [] -> In (last ds d0) ds.
Proof.
  induction ds as [|d ds IH]; intros d0 Hne; [congruence|].
  destruct ds as [|d' ds]; [left; reflexivity|].
  right. apply IH. discriminate.
Qed.

Lemma in_firstn : forall (n : nat) (ds : list nilfs_bmap_diff) d, In d (firstn n ds) -> In d ds.
Proof.
  induction n as [|n IH]; intros [|x ds] d H; cbn in H; try contradiction.
  destruct H as [->|H]; [left; reflexivity | right; apply IH; exact H].
Qed.

(** Asking the differ again behind a difference it has handed out leaves
    fewer differences to hand out. *)
Lemma filter_shrinks :
  forall (ds : list nilfs_bmap_diff) blkoff blkoff' d,
    In d ds -> blkoff <= key d < blkoff' ->
    (length (filter (fun d => (blkoff' <=? key d)%Z) ds)
     < length (filter (fun d => (blkoff <=? key d)%Z) ds))%nat.
Proof.
  intros ds blkoff blkoff' d Hin Hd.
  assert (Hle : forall l : list nilfs_bmap_diff,
            (length (filter (fun d => (blkoff' <=? key d)%Z) l)
             <= length (filter (fun d => (blkoff <=? key d)%Z) l))%nat).
  { induction l as [|x l IHl]; cbn; [lia|].
    destruct (blkoff' <=? key x) eqn:E1, (blkoff <=? key x) eqn:E2; cbn; lia. }
  induction ds as [|x ds IH]; [contradiction|].
  cbn. destruct Hin as [->|Hin].
  - replace (blkoff' <=? key d) with false by (symmetry; apply Z.leb_gt; lia).
    replace (blkoff <=? key d) with true by (symmetry; apply Z.leb_le; lia).
    cbn. specialize (Hle ds). lia.
  - specialize (IH Hin).
    destruct (blkoff' <=? key x) eqn:E1, (blkoff <=? key x) eqn:E2; cbn; lia.
Qed.

Section Scan.

Variables (cfg : nilfs_config) (ifile1 ifile2 : ifile_id).
Variables (start maxchanges : Z) (D : list nilfs_bmap_diff).
Hypothesis Hstart : 0 <= start <= ULONG_MAX.
Hypothesis Hlayout : layout_ok cfg ifile1 D.

Lemma block_records_ok :
  forall d w mc,
    In d D ->
    exists n cs w',
      nilfs_ifile_compare_block cfg w ifile1 ifile2 start d mc = Some (n, cs, w') /\
      same_disk w w' /\
      (n < 0 -> cs = []) /\
      (0 <= n -> n = Z.of_nat (length cs)) /\
      records_ok cfg ifile1 D start (key d) (key d + 1) cs.
Proof.
  intros d w mc Hin.
  destruct Hlayout as (Hepb & Hrange & _).
  destruct (compare_block_spec cfg w ifile1 ifile2 start d mc Hstart Hepb
              (fun nr => Hrange d nr Hin))
    as (n & cs & w' & Hrun & Hdisk & Hneg & Hcount & Hrecs).
  exists n, cs, w'.
  split; [exact Hrun|]. split; [exact Hdisk|].
  split; [exact Hneg|]. split; [exact Hcount|].
  split.
  - destruct cs as [|c cs]; [constructor|].
    destruct Hrecs as (nr & _ & Hasc & _); [discriminate|].
    apply (ascending_from_sorted _ _ Hasc).
  - destruct cs as [|c cs]; [constructor|].
    destruct Hrecs as (nr & Htype & Hasc & Hall); [discriminate|].
    apply ascending_from_sorted in Hasc. destruct Hasc as [_ Hlow].
    rewrite Forall_forall in Hlow, Hall. apply Forall_forall.
    intros x Hx. specialize (Hlow x Hx). specialize (Hall x Hx). cbn beta in Hlow, Hall.
    split; [lia|]. exists d, nr. repeat split; try assumption; lia.
Qed.

Lemma compare_diffs_spec :
  forall ds lo hi w nc,
    incl ds D -> ascending_keys lo ds = true ->
    Forall (fun d => key d < hi) ds -> lo <= hi ->
    exists e nc' cs w',
      compare_diffs cfg w ifile1 ifile2 start maxchanges ds nc = Some (e, nc', cs, w') /\
      same_disk w w' /\
      records_ok cfg ifile1 D start lo hi cs /\
      match e with
      | Exit_failed => nc' < 0
      | _ => nc' = nc + Z.of_nat (length cs)
      end.
Proof.
  induction ds as [|d ds IH]; intros lo hi w nc Hincl Hasc Hhi Hlohi.
  - exists Exit_next, nc, [], w.
    split; [reflexivity|]. split; [apply same_disk_refl|].
    split; [apply records_ok_nil | cbn; lia].
  - apply ascending_keys_cons in Hasc. destruct Hasc as (Hlo & Hmax & Hasc).
    inversion Hhi as [|? ? Hd Hhi']; subst.
    assert (Hin : In d D) by (apply Hincl; left; reflexivity).
    destruct (block_records_ok d w (to_ulong (maxchanges - nc)) Hin)
      as (n & cs & w1 & Hrun & Hdisk & Hneg & Hcount & Hrecs).
    cbn [compare_diffs]. rewrite Hrun.
    assert (Hrecs' : records_ok cfg ifile1 D start lo hi cs).
    { eapply records_ok_weaken; [| |exact Hrecs]; lia. }
    destruct (n <? 0) eqn:Hn.
    { exists Exit_failed, n, cs, w1.
      split; [reflexivity|]. split; [exact Hdisk|]. split; [exact Hrecs'|].
      apply Z.ltb_lt. exact Hn. }
    apply Z.ltb_ge in Hn. specialize (Hcount Hn).
    destruct (to_ulong (nc + n) =? maxchanges).
    { exists Exit_out, (nc + n), cs, w1.
      split; [reflexivity|]. split; [exact Hdisk|]. split; [exact Hrecs'|].
      lia. }
    destruct (IH (key d + 1) hi w1 (nc + n))
      as (e & nc' & cs' & w' & Hrest & Hdisk' & Hrecs2 & Hnc);
      [intros x Hx; apply Hincl; right; exact Hx | exact Hasc | exact Hhi' | lia |].
    rewrite Hrest. exists e, nc', (cs ++ cs'), w'.
    split; [reflexivity|]. split; [eapply same_disk_trans; eassumption|].
    split.
    + eapply (records_ok_app cfg ifile1 D start lo (key d + 1) (key d + 1) hi);
        try assumption; try lia.
      eapply records_ok_weaken; [| |exact Hrecs]; lia.
    + rewrite length_app. destruct e; lia.
Qed.

Lemma compare_batches_spec :
  forall maxdiffs fuel w blkoff nc,
    bmap_diffs w ifile1 ifile2 = D ->
    ascending_keys 0 D = true ->
    (length (filter (fun d => (blkoff <=? key d)%Z) D) < fuel)%nat ->
    exists e nc' cs w',
      compare_batches cfg fuel w ifile1 ifile2 start maxchanges maxdiffs blkoff nc
        = Some (e, nc', cs, w') /\
      same_disk w w' /\
      records_ok cfg ifile1 D start blkoff ULONG_MAX cs /\
      (nc' < 0 \/ nc' = nc + Z.of_nat (length cs)).
Proof.
  intros maxdiffs.
  induction fuel as [|fuel IH]; intros w blkoff nc HD Hkeys Hfuel; [lia|].
  cbn [compare_batches]. unfold nilfs_bmap_compare.
  destruct (bmap_fault w blkoff) as [e|].
  { rewrite neg_errno_ltb.
    eexists _, _, _, _. split; [reflexivity|].
    split; [apply same_disk_log|]. split; [apply records_ok_nil|].
    left. apply neg_errno_negative. }
  rewrite HD.
  set (batch := firstn (Z.to_nat maxdiffs) (filter (fun d => blkoff <=? key d) D)).
  set (w0 := log w _).
  assert (Hnd : (Z.of_nat (length batch) <? 0) = false) by (apply Z.ltb_ge; lia).
  rewrite Hnd.
  destruct (Z.of_nat (length batch) =? 0) eqn:Hempty.
  { eexists _, _, _, _. split; [reflexivity|].
    split; [apply same_disk_log|]. split; [apply records_ok_nil|].
    right. cbn. lia. }
  assert (Hne : batch <> []).
  { intros E. rewrite E in Hempty. cbn in Hempty. discriminate. }
  assert (Hincl : incl batch D).
  { intros x Hx. apply in_firstn in Hx. apply filter_In in Hx. tauto. }
  assert (Hasc : ascending_keys blkoff batch = true).
  { apply ascending_keys_firstn. eapply ascending_keys_filter; [|exact Hkeys]. lia. }
  set (d0 := mk_diff 0 0 0).
  pose proof (ascending_keys_last batch blkoff d0 Hasc) as Hall.
  pose proof (last_in batch d0 Hne) as Hlast.
  assert (Hlastk : blkoff <= key (last batch d0) < ULONG_MAX).
  { apply (ascending_keys_in batch); assumption. }
  assert (Hlast0 : 0 <= key (last batch d0)).
  { apply (ascending_keys_in D 0); [exact Hkeys | apply Hincl; exact Hlast]. }
  destruct (compare_diffs_spec batch blkoff (key (last batch d0) + 1) w0 nc
              Hincl Hasc Hall ltac:(lia))
    as (e & nc1 & cs & w1 & Hrun & Hdisk & Hrecs & Hnc).
  rewrite Hrun.
  assert (Hdisk0 : same_disk w w1).
  { eapply same_disk_trans; [apply same_disk_log | exact Hdisk]. }
  assert (Hrecs' : records_ok cfg ifile1 D start blkoff ULONG_MAX cs).
  { eapply records_ok_weaken; [| |exact Hrecs]; lia. }
  assert (Hstop : forall e',
             match e' with
             | Exit_failed => nc1 < 0
             | _ => nc1 = nc + Z.of_nat (length cs)
             end ->
             exists e0 nc0 cs0 w0',
               Some (e', nc1, cs, w1) = Some (e0, nc0, cs0, w0') /\
               same_disk w w0' /\
               records_ok cfg ifile1 D start blkoff ULONG_MAX cs0 /\
               (nc0 < 0 \/ nc0 = nc + Z.of_nat (length cs0))).
  { intros e' He'. exists e', nc1, cs, w1.
    split; [reflexivity|]. split; [exact Hdisk0|]. split; [exact Hrecs'|].
    destruct e'; auto. }
  destruct e; try (apply Hstop; exact Hnc).
  destruct (to_ulong (Z.of_nat (length batch)) =? maxdiffs);
    [|apply (Hstop Exit_out); exact Hnc].
  rewrite (to_ulong_small (key (last batch d0) + 1)) by lia.
  destruct (IH w1 (key (last batch d0) + 1) nc1)
    as (e & nc' & cs' & w' & Hrest & Hdisk' & Hrecs2 & Hnc').
  - destruct Hdisk0 as (_ & _ & Hd & _). rewrite Hd. exact HD.
  - exact Hkeys.
  - assert (Hshrink := filter_shrinks D blkoff (key (last batch d0) + 1) (last batch d0)
                                      (Hincl _ Hlast) ltac:(lia)).
    lia.
  - rewrite Hrest. exists e, nc', (cs ++ cs'), w'.
    split; [reflexivity|]. split; [eapply same_disk_trans; eassumption|].
    split.
    + eapply (records_ok_app cfg ifile1 D start blkoff (key (last batch d0) + 1)
                             (key (last batch d0) + 1) ULONG_MAX);
        try assumption; lia.
    + rewrite length_app. lia.
Qed.

End Scan.

(** C6.  With a differ that lists the differing blocks by ascending block
    offset and an allocator whose entry blocks hold ascending entry
    numbers, [nilfs_ifile_compare] returns; a return value that is not
    negative is the number of records it has stored; and these records are
    in strictly ascending order of entry number, none of them before
    [start]: each record lies in the entry range of a reported entry block,
    at or after the larger of the block's first entry number and [start]. *)
Theorem compare_ascending_from_start :
  forall (cfg : nilfs_config) (w : world) (ifile1 ifile2 : ifile_id)
         (start maxchanges : Z) (fuel : nat),
    0 <= start <= ULONG_MAX ->
    layout_ok cfg ifile1 (bmap_diffs w ifile1 ifile2) ->
    ascending_keys 0 (bmap_diffs w ifile1 ifile2) = true ->
    (length (bmap_diffs w ifile1 ifile2) < fuel)%nat ->
    exists nc changes w',
      nilfs_ifile_compare cfg fuel w ifile1 ifile2 start maxchanges
        = Some (nc, changes, w') /\
      (0 <= nc -> nc = Z.of_nat (length changes)) /\
      StronglySorted Z.lt (map ino changes) /\
      Forall (fun c => start <= ino c) changes /\
      Forall (fun c =>
                exists d nr,
                  In d (bmap_diffs w ifile1 ifile2) /\
                  nilfs_palloc_block_type cfg ifile1 (key d)
                    = (NILFS_PALLOC_ENTRY_BLOCK, nr) /\
                  Z.max nr start <= ino c <= nr + mi_entries_per_block cfg ifile1 - 1)
             changes.
Proof.
  intros cfg w ifile1 ifile2 start maxchanges fuel Hstart Hlayout Hkeys Hfuel.
  unfold nilfs_ifile_compare.
  destruct (free_pages_ok w); cbn [negb].
  2:{ exists (neg_errno ENOMEM), [], w.
      split; [reflexivity|]. split; [intros H; cbn in H; lia|].
      repeat split; constructor. }
  set (D := bmap_diffs w ifile1 ifile2) in *.
  set (blkoff := nilfs_palloc_entry_blkoff cfg ifile1 start).
  destruct (compare_batches_spec cfg ifile1 ifile2 start maxchanges D Hstart Hlayout
              (diffs_per_page cfg) fuel w blkoff 0 eq_refl Hkeys)
    as (e & nc & cs & w' & Hrun & _ & [Hsorted Hall] & Hnc).
  { pose proof (filter_length_le (fun d => blkoff <=? key d) D). lia. }
  rewrite Hrun.
  assert (Hgoal : StronglySorted Z.lt (map ino cs) /\
                  Forall (fun c => start <= ino c) cs /\
                  Forall (fun c =>
                            exists d nr,
                              In d D /\
                              nilfs_palloc_block_type cfg ifile1 (key d)
                                = (NILFS_PALLOC_ENTRY_BLOCK, nr) /\
                              Z.max nr start <= ino c
                                <= nr + mi_entries_per_block cfg ifile1 - 1) cs).
  { split; [|split].
    - clear - Hsorted. induction Hsorted as [|c cs Hs IH Hc]; cbn; constructor; auto.
      apply Forall_forall. intros x Hx. apply in_map_iff in Hx.
      destruct Hx as (y & <- & Hy). rewrite Forall_forall in Hc. apply (Hc y Hy).
    - eapply Forall_impl; [|exact Hall]. intros c [Hc _]. exact Hc.
    - eapply Forall_impl; [|exact Hall].
      intros c [Hc (d & nr & Hin & _ & Htype & Hr)].
      exists d, nr. repeat split; try assumption; lia. }
  destruct e; eexists _, _, _;
    (split; [reflexivity | split; [intros; lia | exact Hgoal]]).
Qed.

(** The layout of the small file system is as [layout_ok] asks, whatever
    blocks below offset 1000 the differ reports. *)
Lemma ex_layout_ok :
  forall ifile ds,
    forallb (fun d => (0 <=? key d) && (key d <? 1000)) ds = true ->
    layout_ok ex_cfg ifile ds.
Proof.
  intros ifile ds Hall. rewrite forallb_forall in Hall.
  assert (Hk : forall d, In d ds -> 0 <= key d < 1000).
  { intros d Hd. specialize (Hall d Hd). lia. }
  unfold layout_ok. cbn [mi_entries_per_block nilfs_palloc_block_type ex_cfg].
  unfold ex_block_type.
  split; [lia|]. split.
  - intros d nr Hd Ht. specialize (Hk d Hd).
    destruct ((key d <? 1) || ((key d - 1) mod 3 =? 0)) eqn:E; [discriminate|].
    apply (f_equal snd) in Ht. cbn [snd] in Ht. subst nr.
    unfold ULONG_MAX, ULONG_MODULUS.
    apply orb_false_iff in E. destruct E as [E1 E2].
    pose proof (Z.div_mod (key d - 1) 3 ltac:(lia)).
    pose proof (Z.mod_pos_bound (key d - 1) 3 ltac:(lia)).
    change (2 ^ 64) with 18446744073709551616. lia.
  - intros d1 d2 nr1 nr2 Hd1 Hd2 Hlt Ht1 Ht2.
    pose proof (Hk d1 Hd1). pose proof (Hk d2 Hd2).
    destruct ((key d1 <? 1) || ((key d1 - 1) mod 3 =? 0)) eqn:E1; [discriminate|].
    destruct ((key d2 <? 1) || ((key d2 - 1) mod 3 =? 0)) eqn:E2; [discriminate|].
    apply (f_equal snd) in Ht1, Ht2. cbn [snd] in Ht1, Ht2. subst nr1 nr2.
    apply orb_false_iff in E1. apply orb_false_iff in E2.
    pose proof (Z.div_mod (key d1 - 1) 3 ltac:(lia)).
    pose proof (Z.mod_pos_bound (key d1 - 1) 3 ltac:(lia)).
    pose proof (Z.div_mod (key d2 - 1) 3 ltac:(lia)).
    pose proof (Z.mod_pos_bound (key d2 - 1) 3 ltac:(lia)).
    lia.
Qed.

Lemma compare_ascending_from_start_witness :
  exists w',
    nilfs_ifile_compare ex_cfg 5 world_four_new 1 2 2 10
      = Some (3, [mk_change 2 None (Some (mk_bh 2 2));
                  mk_change 6 None (Some (mk_bh 2 3));
                  mk_change 9 None (Some (mk_bh 2 5))], w') /\
    StronglySorted Z.lt [2; 6; 9] /\
    Forall (fun c => 2 <= ino c)
           [mk_change 2 None (Some (mk_bh 2 2));
            mk_change 6 None (Some (mk_bh 2 3));
            mk_change 9 None (Some (mk_bh 2 5))].
Proof.
  destruct (compare_ascending_from_start ex_cfg world_four_new 1 2 2 10 5)
    as (nc & changes & w' & Hrun & _ & Hsorted & Hfrom & _).
  - unfold ULONG_MAX, ULONG_MODULUS. cbn. lia.
  - apply ex_layout_ok. reflexivity.
  - reflexivity.
  - cbn. lia.
  - assert (Hobs : exists w0,
              nilfs_ifile_compare ex_cfg 5 world_four_new 1 2 2 10
                = Some (3, [mk_change 2 None (Some (mk_bh 2 2));
                            mk_change 6 None (Some (mk_bh 2 3));
                            mk_change 9 None (Some (mk_bh 2 5))], w0)).
    { eexists. vm_compute. reflexivity. }
    destruct Hobs as [w0 Hobs]. rewrite Hobs in Hrun.
    inversion Hrun; subst nc changes w'. clear Hrun.
    exists w0. split; [exact Hobs|]. split; [exact Hsorted | exact Hfrom].
Defined.

(** ** Snapshot diff: where the code falls short *)

(** C1 does not hold of the code.  The comparison has stored a record for
    entry 1 with a reference on block 2 of ifile 2 when the fetch of block 3
    fails: it returns -EIO and the reference is still held, because the
    loop behind [failed] runs up to [nc], which is the negative error code
    by then.  The same happens when the differ fails after records have
    been stored, where the code leaves the loop without going to [failed]. *)
Theorem compare_failure_leaks_references :
  (exists w',
     nilfs_ifile_compare ex_cfg 3 world_fetch_fault 1 2 0 10
       = Some (neg_errno EIO, [mk_change 1 None (Some (mk_bh 2 2))], w') /\
     b_count world_fetch_fault (mk_bh 2 2) = 0 /\
     b_count w' (mk_bh 2 2) = 1) /\
  (exists w',
     nilfs_ifile_compare ex_cfg 3 world_bmap_fault 1 2 0 10
       = Some (neg_errno EIO, [mk_change 1 None (Some (mk_bh 2 2));
                               mk_change 6 None (Some (mk_bh 2 3))], w') /\
     b_count world_bmap_fault (mk_bh 2 2) = 0 /\
     b_count w' (mk_bh 2 2) = 1 /\
     b_count world_bmap_fault (mk_bh 2 3) = 0 /\
     b_count w' (mk_bh 2 3) = 1).
Proof.
  split.
  - eexists. repeat split; vm_compute; reflexivity.
  - eexists. repeat split; vm_compute; reflexivity.
Qed.

(** The loop behind [failed] releases nothing when it is entered with a
    negative [nc], whatever has been stored. *)
Lemma release_changes_negative :
  forall w changes nc, nc < 0 -> release_changes w changes nc = w.
Proof.
  intros w changes nc Hneg. unfold release_changes.
  replace (Z.to_nat nc) with O by lia. reflexivity.
Qed.

(** C3 does not hold of the code.  With [maxchanges] = 0 and entries 1, 2,
    6 and 9 new in ifile 2, the comparison fetches the three entry blocks,
    stores four records into a buffer that has room for none and returns
    4: the test [n == maxchanges] comes after the store and the increment,
    so it never sees the count 0. *)
Theorem compare_zero_capacity_overruns :
  exists w',
    nilfs_ifile_compare ex_cfg 5 world_four_new 1 2 0 0
      = Some (4, [mk_change 1 None (Some (mk_bh 2 2));
                  mk_change 2 None (Some (mk_bh 2 2));
                  mk_change 6 None (Some (mk_bh 2 3));
                  mk_change 9 None (Some (mk_bh 2 5))], w') /\
    trace w' = [Ev_bmap_compare 1 2 2 2;
                Ev_get_entry_block 2 0 false 0;
                Ev_get_entry_block 2 4 false 0;
                Ev_bmap_compare 1 2 4 2;
                Ev_get_entry_block 2 8 false 0;
                Ev_bmap_compare 1 2 6 0].
Proof.
  eexists. split; vm_compute; reflexivity.
Qed.

(** C4 does not hold of the code.  Block 2 exists on both sides and entry 1
    is unused on both sides, with different change times left in the slot:
    the record stored for it has neither handle. *)
Theorem compare_emits_record_without_handles :
  exists w',
    nilfs_ifile_compare ex_cfg 3 world_stale_ctime 1 2 0 10
      = Some (1, [mk_change 1 None None], w') /\
    i_links_count (raw_inode world_stale_ctime 1 1) = 0 /\
    i_links_count (raw_inode world_stale_ctime 2 1) = 0.
Proof.
  eexists. repeat split; vm_compute; reflexivity.
Qed.

(** C5 does not hold of the code for the capacity 0.  Four entries from
    entry 0 on differ, as the run with room for ten records shows; with
    room for none the comparison stores and returns all four.  With room
    for one or for three it returns that many, the first ones. *)
Theorem compare_zero_capacity_not_prefix :
  let full := [mk_change 1 None (Some (mk_bh 2 2));
               mk_change 2 None (Some (mk_bh 2 2));
               mk_change 6 None (Some (mk_bh 2 3));
               mk_change 9 None (Some (mk_bh 2 5))] in
  (exists w', nilfs_ifile_compare ex_cfg 5 world_four_new 1 2 0 10 = Some (4, full, w')) /\
  (exists w', nilfs_ifile_compare ex_cfg 5 world_four_new 1 2 0 0 = Some (4, full, w')) /\
  (exists w', nilfs_ifile_compare ex_cfg 5 world_four_new 1 2 0 1
                = Some (1, firstn 1 full, w')) /\
  (exists w', nilfs_ifile_compare ex_cfg 5 world_four_new 1 2 0 3
                = Some (3, firstn 3 full, w')).
Proof.
  cbv zeta. repeat split; eexists; vm_compute; reflexivity.
Qed.

(** ** Snapshot diff: the capacity

    The rest of the file is about capacities of at least one record: such
    a comparison returns the first [maxchanges] records of what a
    comparison with room to spare returns. *)

Lemma scan_entries_count :
  forall body end_ mc fuel w i n n' cs w',
    scan_entries fuel body end_ mc w i n = Some (n', cs, w') ->
    n' = n + Z.of_nat (length cs).
Proof.
  intros body end_ mc.
  induction fuel as [|fuel IH]; intros w i n n' cs w' Hrun; cbn [scan_entries] in Hrun.
  - destruct (i <=? end_); inversion Hrun; subst. cbn. lia.
  - destruct (i <=? end_); [|inversion Hrun; subst; cbn; lia].
    destruct (body w i) as [[c w1]|].
    + destruct (to_ulong (n + 1) =? mc).
      * inversion Hrun; subst. cbn. lia.
      * destruct (scan_entries fuel body end_ mc w1 (to_ulong (i + 1)) (n + 1))
          as [[[n1 cs1] w2]|] eqn:Hrest; [|discriminate].
        inversion Hrun; subst. apply IH in Hrest. cbn [length]. lia.
    + eapply IH. exact Hrun.
Qed.

Lemma compare_block_count :
  forall cfg w ifile1 ifile2 start d mc n cs w',
    nilfs_ifile_compare_block cfg w ifile1 ifile2 start d mc = Some (n, cs, w') ->
    (n < 0 /\ cs = []) \/ n = Z.of_nat (length cs).
Proof.
  intros cfg w ifile1 ifile2 start d mc n cs w' Hrun.
  unfold nilfs_ifile_compare_block in Hrun.
  destruct (nilfs_palloc_block_type cfg ifile1 (key d)) as [t nr].
  destruct t; [|inversion Hrun; subst; right; reflexivity].
  destruct (_ <? Z.max _ _); [inversion Hrun; subst; right; reflexivity|].
  destruct (if negb (ptr1 d =? NILFS_BMAP_INVALID_PTR cfg)
            then nilfs_palloc_get_entry_block cfg w ifile1 nr false
            else (0, None, w)) as [[ret1 ibh1] w1].
  destruct (ret1 <? 0) eqn:Hneg1.
  { inversion Hrun; subst. left. apply Z.ltb_lt in Hneg1. auto. }
  destruct (if negb (ptr2 d =? NILFS_BMAP_INVALID_PTR cfg)
            then nilfs_palloc_get_entry_block cfg w1 ifile2 nr false
            else (0, None, w1)) as [[ret2 ibh2] w2].
  destruct (ret2 <? 0) eqn:Hneg2.
  { inversion Hrun; subst. left. apply Z.ltb_lt in Hneg2. auto. }
  match type of Hrun with
  | match ?scanned with _ => _ end = _ =>
      destruct scanned as [[[n0 cs0] w3]|] eqn:Hscan; [|discriminate]
  end.
  inversion Hrun; subst. right.
  destruct ibh1, ibh2;
    try (apply scan_entries_count in Hscan; lia).
  inversion Hscan; subst. reflexivity.
Qed.

Lemma compare_diffs_count :
  forall cfg ifile1 ifile2 start mc ds w nc e nc' cs w',
    compare_diffs cfg w ifile1 ifile2 start mc ds nc = Some (e, nc', cs, w') ->
    match e with
    | Exit_failed => nc' < 0
    | _ => nc' = nc + Z.of_nat (length cs)
    end.
Proof.
  intros cfg ifile1 ifile2 start mc.
  induction ds as [|d ds IH]; intros w nc e nc' cs w' Hrun; cbn [compare_diffs] in Hrun.
  - inversion Hrun; subst. cbn. lia.
  - destruct (nilfs_ifile_compare_block cfg w ifile1 ifile2 start d (to_ulong (mc - nc)))
      as [[[n cs0] w1]|] eqn:Hblock; [|discriminate].
    apply compare_block_count in Hblock.
    destruct (n <? 0) eqn:Hneg.
    { inversion Hrun; subst. apply Z.ltb_lt. exact Hneg. }
    apply Z.ltb_ge in Hneg.
    destruct Hblock as [[Hn _]|Hn]; [lia|].
    destruct (to_ulong (nc + n) =? mc).
    { inversion Hrun; subst. lia. }
    destruct (compare_diffs cfg w1 ifile1 ifile2 start mc ds (nc + n))
      as [[[[e1 nc1] cs1] w2]|] eqn:Hrest; [|discriminate].
    inversion Hrun; subst. apply IH in Hrest.
    rewrite length_app. destruct e; lia.
Qed.

Lemma compare_batches_count :
  forall cfg ifile1 ifile2 start mc maxdiffs fuel w blkoff nc e nc' cs w',
    compare_batches cfg fuel w ifile1 ifile2 start mc maxdiffs blkoff nc
      = Some (e, nc', cs, w') ->
    nc' < 0 \/ (e <> Exit_failed /\ nc' = nc + Z.of_nat (length cs)).
Proof.
  intros cfg ifile1 ifile2 start mc maxdiffs.
  induction fuel as [|fuel IH]; intros w blkoff nc e nc' cs w' Hrun; [discriminate|].
  cbn [compare_batches] in Hrun.
  destruct (nilfs_bmap_compare w ifile1 ifile2 blkoff maxdiffs) as [[nd diffs] w0].
  destruct (nd <? 0) eqn:Hneg.
  { inversion Hrun; subst. left. apply Z.ltb_lt. exact Hneg. }
  destruct (nd =? 0).
  { inversion Hrun; subst. right. split; [discriminate | cbn; lia]. }
  destruct (compare_diffs cfg w0 ifile1 ifile2 start mc diffs nc)
    as [[[[e1 nc1] cs1] w1]|] eqn:Hdiffs; [|discriminate].
  apply compare_diffs_count in Hdiffs.
  destruct e1.
  - inversion Hrun; subst. right. split; [discriminate | lia].
  - inversion Hrun; subst. left. assumption.
  - destruct (to_ulong nd =? maxdiffs).
    + destruct (compare_batches cfg fuel w1 ifile1 ifile2 start mc maxdiffs _ nc1)
        as [[[[e2 nc2] cs2] w2]|] eqn:Hrest; [|discriminate].
      inversion Hrun; subst. apply IH in Hrest.
      destruct Hrest as [Hrest|[He Hrest]]; [left; exact Hrest|].
      right. split; [exact He|]. rewrite length_app. lia.
    + inversion Hrun; subst. right. split; [discriminate | lia].
Qed.

(** A scan that never reaches the capacity [mcB], run again with a
    capacity [mcS]: the same outcome if the count stays below [mcS], and
    the first records up to the count [mcS] otherwise. *)
Lemma scan_entries_capacity :
  forall body end_ mcB mcS,
    mcS <= ULONG_MAX ->
    forall fuel w i n nB csB wB,
      0 <= n < mcS ->
      scan_entries fuel body end_ mcB w i n = Some (nB, csB, wB) ->
      nB < mcB ->
      (nB < mcS -> scan_entries fuel body end_ mcS w i n = Some (nB, csB, wB)) /\
      (mcS <= nB ->
       exists w',
         scan_entries fuel body end_ mcS w i n
           = Some (mcS, firstn (Z.to_nat (mcS - n)) csB, w')).
Proof.
  intros body end_ mcB mcS HmcS.
  induction fuel as [|fuel IH]; intros w i n nB csB wB Hn Hrun HnB;
    cbn [scan_entries] in Hrun |- *.
  - destruct (i <=? end_); [discriminate|].
    inversion Hrun; subst. split; [reflexivity | lia].
  - destruct (i <=? end_); [|inversion Hrun; subst; split; [reflexivity | lia]].
    destruct (body w i) as [[c w1]|]; [|apply IH; assumption].
    assert (Hnext : to_ulong (n + 1) = n + 1) by (apply to_ulong_small; lia).
    rewrite Hnext in Hrun |- *.
    destruct (n + 1 =? mcB) eqn:HfullB.
    { inversion Hrun; subst. apply Z.eqb_eq in HfullB. lia. }
    destruct (scan_entries fuel body end_ mcB w1 (to_ulong (i + 1)) (n + 1))
      as [[[n1 cs1] w2]|] eqn:Hrest; [|discriminate].
    inversion Hrun; subst nB csB wB. clear Hrun.
    pose proof (scan_entries_count _ _ _ _ _ _ _ _ _ _ Hrest) as Hcount.
    destruct (n + 1 =? mcS) eqn:HfullS.
    + apply Z.eqb_eq in HfullS. split; [lia|].
      intros _. exists w1.
      replace (Z.to_nat (mcS - n)) with 1%nat by lia. rewrite HfullS. reflexivity.
    + apply Z.eqb_neq in HfullS.
      destruct (IH w1 (to_ulong (i + 1)) (n + 1) n1 cs1 w2) as [Hsame Hcut];
        [lia | exact Hrest | exact HnB |].
      split.
      * intros Hlt. rewrite (Hsame Hlt). reflexivity.
      * intros Hge. destruct (Hcut Hge) as [w' Hsmall]. rewrite Hsmall.
        exists w'. replace (Z.to_nat (mcS - n)) with (S (Z.to_nat (mcS - (n + 1)))) by lia.
        reflexivity.
Qed.

Lemma compare_block_capacity :
  forall cfg w ifile1 ifile2 start d mcB mcS nB csB wB,
    0 < mcS <= ULONG_MAX ->
    nilfs_ifile_compare_block cfg w ifile1 ifile2 start d mcB = Some (nB, csB, wB) ->
    0 <= nB < mcB ->
    (nB < mcS ->
     nilfs_ifile_compare_block cfg w ifile1 ifile2 start d mcS = Some (nB, csB, wB)) /\
    (mcS <= nB ->
     exists w',
       nilfs_ifile_compare_block cfg w ifile1 ifile2 start d mcS
         = Some (mcS, firstn (Z.to_nat mcS) csB, w')).
Proof.
  intros cfg w ifile1 ifile2 start d mcB mcS nB csB wB HmcS Hrun HnB.
  unfold nilfs_ifile_compare_block in Hrun |- *.
  destruct (nilfs_palloc_block_type cfg ifile1 (key d)) as [t nr].
  destruct t; [|inversion Hrun; subst; split; [reflexivity | lia]].
  destruct (_ <? Z.max _ _); [inversion Hrun; subst; split; [reflexivity | lia]|].
  destruct (if negb (ptr1 d =? NILFS_BMAP_INVALID_PTR cfg)
            then nilfs_palloc_get_entry_block cfg w ifile1 nr false
            else (0, None, w)) as [[ret1 ibh1] w1].
  destruct (ret1 <? 0) eqn:Hneg1.
  { inversion Hrun; subst. apply Z.ltb_lt in Hneg1. lia. }
  destruct (if negb (ptr2 d =? NILFS_BMAP_INVALID_PTR cfg)
            then nilfs_palloc_get_entry_block cfg w1 ifile2 nr false
            else (0, None, w1)) as [[ret2 ibh2] w2].
  destruct (ret2 <? 0) eqn:Hneg2.
  { inversion Hrun; subst. apply Z.ltb_lt in Hneg2. lia. }
  assert (Hscan : forall body,
            match scan_entries
                    (Z.to_nat (to_ulong (nr + mi_entries_per_block cfg ifile1 - 1)
                               - Z.max (to_ulong nr) (to_ulong start) + 1))
                    body (to_ulong (nr + mi_entries_per_block cfg ifile1 - 1)) mcB w2
                    (Z.max (to_ulong nr) (to_ulong start)) 0 with
            | Some (n, cs, w3) => Some (n, cs, brelse (brelse w3 ibh1) ibh2)
            | None => None
            end = Some (nB, csB, wB) ->
            (nB < mcS ->
             match scan_entries
                     (Z.to_nat (to_ulong (nr + mi_entries_per_block cfg ifile1 - 1)
                                - Z.max (to_ulong nr) (to_ulong start) + 1))
                     body (to_ulong (nr + mi_entries_per_block cfg ifile1 - 1)) mcS w2
                     (Z.max (to_ulong nr) (to_ulong start)) 0 with
             | Some (n, cs, w3) => Some (n, cs, brelse (brelse w3 ibh1) ibh2)
             | None => None
             end = Some (nB, csB, wB)) /\
            (mcS <= nB ->
             exists w',
               match scan_entries
                       (Z.to_nat (to_ulong (nr + mi_entries_per_block cfg ifile1 - 1)
                                  - Z.max (to_ulong nr) (to_ulong start) + 1))
                       body (to_ulong (nr + mi_entries_per_block cfg ifile1 - 1)) mcS w2
                       (Z.max (to_ulong nr) (to_ulong start)) 0 with
               | Some (n, cs, w3) => Some (n, cs, brelse (brelse w3 ibh1) ibh2)
               | None => None
               end = Some (mcS, firstn (Z.to_nat mcS) csB, w'))).
  { intros body Hbig.
    destruct (scan_entries _ body _ mcB w2 _ 0) as [[[n0 cs0] w3]|] eqn:Hs; [|discriminate].
    inversion Hbig; subst n0 cs0 wB. clear Hbig.
    destruct (scan_entries_capacity body _ mcB mcS ltac:(lia) _ _ _ 0 nB csB w3
                ltac:(lia) Hs ltac:(lia)) as [Hsame Hcut].
    split.
    - intros Hlt. rewrite (Hsame Hlt). reflexivity.
    - intros Hge. destruct (Hcut Hge) as [w' Hsmall]. rewrite Hsmall.
      rewrite Z.sub_0_r. eexists. reflexivity. }
  destruct ibh1 as [b1|], ibh2 as [b2|]; try (apply Hscan; exact Hrun).
  inversion Hrun; subst. split; [reflexivity | lia].
Qed.

Lemma firstn_app_past :
  forall (l1 l2 : list nilfs_ifile_change) (k : Z),
    Z.of_nat (length l1) <= k ->
    firstn (Z.to_nat k) (l1 ++ l2)
    = l1 ++ firstn (Z.to_nat (k - Z.of_nat (length l1))) l2.
Proof.
  intros l1 l2 k Hk. rewrite firstn_app.
  rewrite firstn_all2 by lia. f_equal. f_equal. lia.
Qed.

Lemma firstn_app_within :
  forall (l1 l2 : list nilfs_ifile_change) (k : Z),
    k <= Z.of_nat (length l1) ->
    firstn (Z.to_nat k) (l1 ++ l2) = firstn (Z.to_nat k) l1.
Proof.
  intros l1 l2 k Hk. rewrite firstn_app.
  replace (Z.to_nat k - length l1)%nat with O by lia.
  cbn. apply app_nil_r.
Qed.

Section Capacity.

Variables (cfg : nilfs_config) (ifile1 ifile2 : ifile_id).
Variables (start big cap : Z).
Hypothesis Hcap : 0 < cap <= ULONG_MAX.
Hypothesis Hbig : big <= ULONG_MAX.

Lemma compare_diffs_capacity :
  forall ds w nc eB ncB csB wB,
    0 <= nc < cap ->
    compare_diffs cfg w ifile1 ifile2 start big ds nc = Some (eB, ncB, csB, wB) ->
    eB <> Exit_failed -> ncB < big ->
    (ncB < cap ->
     compare_diffs cfg w ifile1 ifile2 start cap ds nc = Some (eB, ncB, csB, wB)) /\
    (cap <= ncB ->
     exists w',
       compare_diffs cfg w ifile1 ifile2 start cap ds nc
         = Some (Exit_out, cap, firstn (Z.to_nat (cap - nc)) csB, w')).
Proof.
  induction ds as [|d ds IH]; intros w nc eB ncB csB wB Hnc Hrun He HncB;
    cbn [compare_diffs] in Hrun |- *.
  - inversion Hrun; subst. split; [reflexivity | lia].
  - destruct (nilfs_ifile_compare_block cfg w ifile1 ifile2 start d (to_ulong (big - nc)))
      as [[[n cs] w1]|] eqn:Hblock; [|discriminate].
    pose proof (compare_block_count _ _ _ _ _ _ _ _ _ _ Hblock) as Hcount.
    destruct (n <? 0) eqn:Hneg; [inversion Hrun; subst; congruence|].
    apply Z.ltb_ge in Hneg. destruct Hcount as [[Hn _]|Hn]; [lia|].
    assert (Hpast : nc + n <= ncB).
    { destruct (to_ulong (nc + n) =? big); [inversion Hrun; subst; lia|].
      destruct (compare_diffs cfg w1 ifile1 ifile2 start big ds (nc + n))
        as [[[[e1 nc1] cs1] w2]|] eqn:Hrest; [|discriminate].
      inversion Hrun; subst. apply compare_diffs_count in Hrest.
      destruct eB; try congruence; lia. }
    rewrite (to_ulong_small (nc + n)) in Hrun by lia.
    rewrite (to_ulong_small (big - nc)) in Hblock by lia.
    rewrite (to_ulong_small (cap - nc)) by lia.
    destruct (nc + n =? big) eqn:Hfull; [apply Z.eqb_eq in Hfull; lia|].
    destruct (compare_diffs cfg w1 ifile1 ifile2 start big ds (nc + n))
      as [[[[e1 nc1] cs1] w2]|] eqn:Hrest; [|discriminate].
    inversion Hrun; subst eB ncB csB wB. clear Hrun.
    destruct (compare_block_capacity cfg w ifile1 ifile2 start d (big - nc) (cap - nc)
                n cs w1 ltac:(lia) Hblock ltac:(lia)) as [Hsame Hcut].
    destruct (Z.lt_ge_cases (nc + n) cap) as [Hroom|Hfilled].
    + rewrite Hsame by lia.
      replace (n <? 0) with false by (symmetry; apply Z.ltb_ge; lia).
      rewrite (to_ulong_small (nc + n)) by lia.
      replace (nc + n =? cap) with false by (symmetry; apply Z.eqb_neq; lia).
      destruct (IH w1 (nc + n) e1 nc1 cs1 w2 ltac:(lia) Hrest He HncB) as [Hsame' Hcut'].
      split.
      * intros Hlt. rewrite (Hsame' Hlt). reflexivity.
      * intros Hge. destruct (Hcut' Hge) as [w' Hsmall]. rewrite Hsmall.
        exists w'. rewrite firstn_app_past by lia.
        replace (cap - nc - Z.of_nat (length cs)) with (cap - (nc + n)) by lia.
        reflexivity.
    + split; [lia|]. intros _.
      destruct (Hcut ltac:(lia)) as [w' Hsmall]. rewrite Hsmall.
      replace (cap - nc <? 0) with false by (symmetry; apply Z.ltb_ge; lia).
      replace (nc + (cap - nc)) with cap by lia.
      rewrite (to_ulong_small cap) by lia. rewrite Z.eqb_refl.
      exists w'. rewrite firstn_app_within by lia. reflexivity.
Qed.

Lemma compare_batches_capacity :
  forall maxdiffs fuel w blkoff nc eB ncB csB wB,
    0 <= nc < cap ->
    compare_batches cfg fuel w ifile1 ifile2 start big maxdiffs blkoff nc
      = Some (eB, ncB, csB, wB) ->
    eB <> Exit_failed -> 0 <= ncB < big ->
    (ncB < cap ->
     compare_batches cfg fuel w ifile1 ifile2 start cap maxdiffs blkoff nc
       = Some (eB, ncB, csB, wB)) /\
    (cap <= ncB ->
     exists w',
       compare_batches cfg fuel w ifile1 ifile2 start cap maxdiffs blkoff nc
         = Some (Exit_out, cap, firstn (Z.to_nat (cap - nc)) csB, w')).
Proof.
  intros maxdiffs.
  induction fuel as [|fuel IH]; intros w blkoff nc eB ncB csB wB Hnc Hrun He HncB;
    [discriminate|].
  cbn [compare_batches] in Hrun |- *.
  destruct (nilfs_bmap_compare w ifile1 ifile2 blkoff maxdiffs) as [[nd diffs] w0].
  destruct (nd <? 0) eqn:Hneg.
  { inversion Hrun; subst. apply Z.ltb_lt in Hneg. lia. }
  destruct (nd =? 0).
  { inversion Hrun; subst. split; [reflexivity | lia]. }
  destruct (compare_diffs cfg w0 ifile1 ifile2 start big diffs nc)
    as [[[[e1 nc1] cs1] w1]|] eqn:Hdiffs; [|discriminate].
  pose proof (compare_diffs_count _ _ _ _ _ _ _ _ _ _ _ _ Hdiffs) as Hcount.
  destruct e1.
  - (* the inner loop was left through [out] *)
    inversion Hrun; subst eB ncB csB wB. clear Hrun.
    destruct (compare_diffs_capacity diffs w0 nc Exit_out nc1 cs1 w1 Hnc Hdiffs He
                ltac:(lia)) as [Hsame Hcut].
    split.
    + intros Hlt. rewrite (Hsame Hlt). reflexivity.
    + intros Hge. destruct (Hcut Hge) as [w' Hsmall]. rewrite Hsmall.
      exists w'. reflexivity.
  - inversion Hrun; subst. congruence.
  - (* the inner loop ran to its end *)
    assert (Hpast : nc1 <= ncB /\ nc1 < big).
    { destruct (to_ulong nd =? maxdiffs).
      - destruct (compare_batches cfg fuel w1 ifile1 ifile2 start big maxdiffs _ nc1)
          as [[[[e2 nc2] cs2] w2]|] eqn:Hrest; [|discriminate].
        inversion Hrun; subst. apply compare_batches_count in Hrest.
        destruct Hrest as [Hrest|[_ Hrest]]; lia.
      - inversion Hrun; subst. lia. }
    destruct (compare_diffs_capacity diffs w0 nc Exit_next nc1 cs1 w1 Hnc Hdiffs
                ltac:(discriminate) ltac:(lia)) as [Hsame Hcut].
    destruct (Z.lt_ge_cases nc1 cap) as [Hroom|Hfilled].
    + rewrite (Hsame Hroom).
      destruct (to_ulong nd =? maxdiffs).
      * destruct (compare_batches cfg fuel w1 ifile1 ifile2 start big maxdiffs _ nc1)
          as [[[[e2 nc2] cs2] w2]|] eqn:Hrest; [|discriminate].
        inversion Hrun; subst eB ncB csB wB. clear Hrun.
        destruct (IH w1 _ nc1 e2 nc2 cs2 w2 ltac:(lia) Hrest He HncB) as [Hsame' Hcut'].
        split.
        -- intros Hlt. rewrite (Hsame' Hlt). reflexivity.
        -- intros Hge. destruct (Hcut' Hge) as [w' Hsmall]. rewrite Hsmall.
           exists w'. rewrite firstn_app_past by lia.
           replace (cap - nc - Z.of_nat (length cs1)) with (cap - nc1) by lia.
           reflexivity.
      * inversion Hrun; subst. split; [reflexivity | lia].
    + split; [lia|]. intros _.
      destruct (Hcut Hfilled) as [w' Hsmall]. rewrite Hsmall.
      exists w'.
      destruct (to_ulong nd =? maxdiffs).
      * destruct (compare_batches cfg fuel w1 ifile1 ifile2 start big maxdiffs _ nc1)
          as [[[[e2 nc2] cs2] w2]|] eqn:Hrest; [|discriminate].
        inversion Hrun; subst. rewrite firstn_app_within by lia. reflexivity.
      * inversion Hrun; subst. reflexivity.
Qed.

End Capacity.

(** X6.  The capacity cuts the result short and does nothing else, as long
    as it is at least one: if a comparison with room to spare ([big] exceeds
    the number of records it returns) succeeds with the records [full],
    then the comparison with a capacity [cap] between 1 and the length of
    [full] succeeds too and returns exactly the first [cap] records of
    [full]. *)
Theorem compare_capacity_prefix :
  forall (cfg : nilfs_config) (w w_full : world) (ifile1 ifile2 : ifile_id)
         (start big cap : Z) (fuel : nat) (full : list nilfs_ifile_change),
    nilfs_ifile_compare cfg fuel w ifile1 ifile2 start big
      = Some (Z.of_nat (length full), full, w_full) ->
    Z.of_nat (length full) < big <= ULONG_MAX ->
    0 < cap <= Z.of_nat (length full) ->
    exists w',
      nilfs_ifile_compare cfg fuel w ifile1 ifile2 start cap
        = Some (cap, firstn (Z.to_nat cap) full, w') /\
      Z.of_nat (length (firstn (Z.to_nat cap) full)) = cap.
Proof.
  intros cfg w w_full ifile1 ifile2 start big cap fuel full Hfull Hbig Hcap.
  unfold nilfs_ifile_compare in Hfull |- *.
  destruct (free_pages_ok w); cbn [negb] in Hfull |- *.
  2:{ inversion Hfull as [[Hlen Hcs Hw]]. pose proof (neg_errno_negative ENOMEM). lia. }
  destruct (compare_batches cfg fuel w ifile1 ifile2 start big (diffs_per_page cfg)
              (nilfs_palloc_entry_blkoff cfg ifile1 start) 0)
    as [[[[e nc] cs] w1]|] eqn:Hrun; [|discriminate].
  pose proof (compare_batches_count _ _ _ _ _ _ _ _ _ _ _ _ _ _ Hrun) as Hcount.
  assert (Hres : e <> Exit_failed /\ nc = Z.of_nat (length full) /\ cs = full).
  { destruct e; inversion Hfull; subst; repeat split; try discriminate.
    exfalso. destruct Hcount as [Hneg|[He _]]; [lia | congruence]. }
  destruct Hres as (He & -> & ->).
  destruct (compare_batches_capacity cfg ifile1 ifile2 start big cap
              ltac:(lia) ltac:(lia) (diffs_per_page cfg) fuel w
              (nilfs_palloc_entry_blkoff cfg ifile1 start) 0 e
              (Z.of_nat (length full)) full w1 ltac:(lia) Hrun He ltac:(lia))
    as [_ Hcut].
  destruct (Hcut ltac:(lia)) as [w' Hsmall].
  rewrite Hsmall. rewrite Z.sub_0_r.
  exists w'. split; [reflexivity|].
  rewrite length_firstn. lia.
Qed.

Lemma compare_capacity_prefix_witness :
  exists w',
    nilfs_ifile_compare ex_cfg 5 world_four_new 1 2 0 2
      = Some (2, [mk_change 1 None (Some (mk_bh 2 2));
                  mk_change 2 None (Some (mk_bh 2 2))], w').
Proof.
  assert (Hfull : exists w0,
            nilfs_ifile_compare ex_cfg 5 world_four_new 1 2 0 10
              = Some (Z.of_nat
                        (length [mk_change 1 None (Some (mk_bh 2 2));
                                 mk_change 2 None (Some (mk_bh 2 2));
                                 mk_change 6 None (Some (mk_bh 2 3));
                                 mk_change 9 None (Some (mk_bh 2 5))]),
                      [mk_change 1 None (Some (mk_bh 2 2));
                       mk_change 2 None (Some (mk_bh 2 2));
                       mk_change 6 None (Some (mk_bh 2 3));
                       mk_change 9 None (Some (mk_bh 2 5))], w0)).
  { eexists. vm_compute. reflexivity. }
  destruct Hfull as [w0 Hfull].
  destruct (compare_capacity_prefix ex_cfg world_four_new w0 1 2 0 10 2 5 _ Hfull)
    as [w' [Hrun _]].
  - unfold ULONG_MAX, ULONG_MODULUS. cbn. lia.
  - cbn. lia.
  - exists w'. exact Hrun.
Defined.

(** * Further properties of the code *)

(** ** Reference counts and the frame of a call *)

Lemma b_count_get_bh :
  forall w h b, b_count (get_bh w h) b = b_count w b + holds (Some h) b.
Proof. intros. cbn. destruct (bh_eqb b h); lia. Qed.

Lemma b_count_brelse :
  forall w o b, b_count (brelse w o) b = b_count w b - holds o b.
Proof. intros w [h|] b; cbn; [destruct (bh_eqb b h)|]; lia. Qed.

Lemma b_count_warn :
  forall w ret b, b_count (warn_on_enoent w ret) b = b_count w b.
Proof. intros. unfold warn_on_enoent. destruct (ret =? _); reflexivity. Qed.

Lemma frame_refl : forall w, frame w w.
Proof. intros w. repeat split. Qed.

Lemma frame_trans : forall w1 w2 w3, frame w1 w2 -> frame w2 w3 -> frame w1 w3.
Proof.
  unfold frame.
  intros w1 w2 w3 (A1 & A2 & A3 & A4 & A5 & A6 & A7) (B1 & B2 & B3 & B4 & B5 & B6 & B7).
  repeat split; congruence.
Qed.

Lemma frame_log : forall w e, frame w (log w e).
Proof. intros. repeat split. Qed.

Lemma frame_get_bh : forall w bh, frame w (get_bh w bh).
Proof. intros. repeat split. Qed.

Lemma frame_brelse : forall w bh, frame w (brelse w bh).
Proof. intros w [bh|]; repeat split. Qed.

Lemma frame_warn : forall w ret, frame w (warn_on_enoent w ret).
Proof. intros. unfold warn_on_enoent. destruct (ret =? _); repeat split. Qed.

Lemma frame_raw_inode : forall w w', frame w w' -> raw_inode w' = raw_inode w.
Proof. intros w w' H. apply H. Qed.

(** A fetch changes reference counts and the trace only; it either fails
    with a negative code and no handle, or returns 0 with a handle of the
    block of the entry, on which it has taken one reference. *)
Lemma get_entry_block_acct :
  forall cfg w ifile nr create ret ibh w',
    nilfs_palloc_get_entry_block cfg w ifile nr create = (ret, ibh, w') ->
    frame w w' /\
    (forall b, b_count w' b = b_count w b + holds ibh b) /\
    ((ret < 0 /\ ibh = None) \/
     (ret = 0 /\ ibh = Some (mk_bh ifile (nilfs_palloc_entry_blkoff cfg ifile nr)) /\
      blk_fault w ifile (nilfs_palloc_entry_blkoff cfg ifile nr) = None)).
Proof.
  intros cfg w ifile nr create ret ibh w' H.
  unfold nilfs_palloc_get_entry_block in H.
  destruct (blk_fault w ifile _) as [e|] eqn:Hfault; inversion H; subst; clear H.
  - split; [repeat split|]. split; [intros b; cbn; lia|].
    left. split; [apply neg_errno_negative | reflexivity].
  - split; [repeat split|]. split.
    + intros b. rewrite b_count_get_bh. reflexivity.
    + right. repeat split.
Qed.

Lemma changes_refs_app :
  forall cs1 cs2 b, changes_refs (cs1 ++ cs2) b = changes_refs cs1 b + changes_refs cs2 b.
Proof.
  induction cs1 as [|c cs1 IH]; intros cs2 b; cbn; [lia|]. rewrite IH. lia.
Qed.

Section ScanAccounting.

Variable R : ifile_id -> Z -> nilfs_inode.
Variable Q : nilfs_ifile_change -> Prop.
Variable body : world -> Z -> option (nilfs_ifile_change * world).
Hypothesis Hbody :
  forall w i c w',
    raw_inode w = R -> body w i = Some (c, w') ->
    frame w w' /\ (forall b, b_count w' b = b_count w b + change_refs c b) /\ Q c.

Lemma scan_entries_acct :
  forall end_ mc fuel w i n n' cs w',
    raw_inode w = R ->
    scan_entries fuel body end_ mc w i n = Some (n', cs, w') ->
    frame w w' /\
    (forall b, b_count w' b = b_count w b + changes_refs cs b) /\
    Forall Q cs /\
    (0 <= n < mc -> mc <= ULONG_MAX -> n' <= mc).
Proof.
  intros end_ mc.
  induction fuel as [|fuel IH]; intros w i n n' cs w' HR Hrun;
    cbn [scan_entries] in Hrun.
  - destruct (i <=? end_); inversion Hrun; subst.
    split; [apply frame_refl|]. split; [intros; cbn; lia|].
    split; [constructor | lia].
  - destruct (i <=? end_).
    2:{ inversion Hrun; subst.
        split; [apply frame_refl|]. split; [intros; cbn; lia|].
        split; [constructor | lia]. }
    destruct (body w i) as [[c w1]|] eqn:Hb; [|eapply IH; eassumption].
    destruct (Hbody _ _ _ _ HR Hb) as (Hf & Hrefs & HQ).
    destruct (to_ulong (n + 1) =? mc) eqn:Hfull.
    + inversion Hrun; subst n' cs w'. clear Hrun.
      split; [exact Hf|]. split; [intros b; cbn; rewrite Hrefs; lia|].
      split; [constructor; [exact HQ | constructor]|].
      intros Hn Hmc. rewrite to_ulong_small in Hfull by lia.
      apply Z.eqb_eq in Hfull. lia.
    + destruct (scan_entries fuel body end_ mc w1 (to_ulong (i + 1)) (n + 1))
        as [[[n1 cs1] w2]|] eqn:Hrest; [|discriminate].
      inversion Hrun; subst n' cs w'. clear Hrun.
      destruct (IH _ _ _ _ _ _ ltac:(rewrite (frame_raw_inode _ _ Hf); exact HR) Hrest)
        as (Hf' & Hrefs' & HQ' & Hcap).
      split; [eapply frame_trans; eassumption|].
      split; [intros b; cbn; rewrite Hrefs', Hrefs; lia|].
      split; [constructor; assumption|].
      intros Hn Hmc. rewrite to_ulong_small in Hfull by lia.
      apply Z.eqb_neq in Hfull. apply Hcap; lia.
Qed.

End ScanAccounting.

(** The records that the three loop bodies store are sound, and a body
    takes one reference for each handle it stores. *)
Lemma created_entry_acct :
  forall R ifile1 ifile2 ibh2 w i c w',
    bh_ifile ibh2 = ifile2 ->
    raw_inode w = R -> created_entry ifile2 ibh2 w i = Some (c, w') ->
    frame w w' /\ (forall b, b_count w' b = b_count w b + change_refs c b) /\
    record_sound R ifile1 ifile2 c.
Proof.
  intros R ifile1 ifile2 ibh2 w i c w' Hif HR H. unfold created_entry in H.
  rewrite HR in H.
  destruct (i_links_count (R ifile2 i) =? 0) eqn:Hl; cbn in H; [discriminate|].
  inversion H; subst c w'. apply Z.eqb_neq in Hl.
  split; [apply frame_get_bh|]. split.
  - intros b. rewrite b_count_get_bh. unfold change_refs. cbn. lia.
  - unfold record_sound. cbn. split; [|split].
    + intros b Hb. discriminate.
    + intros b Hb. inversion Hb; subst. split; [reflexivity | exact Hl].
    + intros H1 _. congruence.
Qed.

Lemma deleted_entry_acct :
  forall R ifile1 ifile2 ibh1 w i c w',
    bh_ifile ibh1 = ifile1 ->
    raw_inode w = R -> deleted_entry ifile1 ibh1 w i = Some (c, w') ->
    frame w w' /\ (forall b, b_count w' b = b_count w b + change_refs c b) /\
    record_sound R ifile1 ifile2 c.
Proof.
  intros R ifile1 ifile2 ibh1 w i c w' Hif HR H. unfold deleted_entry in H.
  rewrite HR in H.
  destruct (i_links_count (R ifile1 i) =? 0) eqn:Hl; cbn in H; [discriminate|].
  inversion H; subst c w'. apply Z.eqb_neq in Hl.
  split; [apply frame_get_bh|]. split.
  - intros b. rewrite b_count_get_bh. unfold change_refs. cbn. lia.
  - unfold record_sound. cbn. split; [|split].
    + intros b Hb. inversion Hb; subst. split; [reflexivity | exact Hl].
    + intros b Hb. discriminate.
    + intros _ H2. congruence.
Qed.

Lemma modified_entry_acct :
  forall R ifile1 ifile2 ibh1 ibh2 w i c w',
    bh_ifile ibh1 = ifile1 -> bh_ifile ibh2 = ifile2 ->
    raw_inode w = R -> modified_entry ifile1 ifile2 ibh1 ibh2 w i = Some (c, w') ->
    frame w w' /\ (forall b, b_count w' b = b_count w b + change_refs c b) /\
    record_sound R ifile1 ifile2 c.
Proof.
  intros R ifile1 ifile2 ibh1 ibh2 w i c w' Hif1 Hif2 HR H.
  unfold modified_entry in H. rewrite HR in H.
  destruct (negb (i_ctime_nsec (R ifile1 i) =? i_ctime_nsec (R ifile2 i))
            || negb (i_ctime (R ifile1 i) =? i_ctime (R ifile2 i))) eqn:Hct;
    [|discriminate].
  assert (Hdiff : i_ctime_nsec (R ifile1 i) <> i_ctime_nsec (R ifile2 i) \/
                  i_ctime (R ifile1 i) <> i_ctime (R ifile2 i)).
  { apply orb_true_iff in Hct. destruct Hct as [Hc|Hc];
      apply negb_true_iff in Hc; apply Z.eqb_neq in Hc; auto. }
  destruct (i_links_count (R ifile1 i) =? 0) eqn:Hl1;
    destruct (i_links_count (R ifile2 i) =? 0) eqn:Hl2;
    cbn in H; inversion H; subst c w'; clear H;
    try apply Z.eqb_neq in Hl1; try apply Z.eqb_neq in Hl2.
  - split; [apply frame_refl|]. split; [intros b; unfold change_refs; cbn; lia|].
    unfold record_sound. cbn. split; [|split].
    + intros b Hb. discriminate.
    + intros b Hb. discriminate.
    + intros H1 _. congruence.
  - split; [apply frame_get_bh|]. split.
    + intros b. rewrite b_count_get_bh. unfold change_refs. cbn. lia.
    + unfold record_sound. cbn. split; [|split].
      * intros b Hb. discriminate.
      * intros b Hb. inversion Hb; subst. split; [reflexivity | exact Hl2].
      * intros H1 _. congruence.
  - split; [apply frame_get_bh|]. split.
    + intros b. rewrite b_count_get_bh. unfold change_refs. cbn. lia.
    + unfold record_sound. cbn. split; [|split].
      * intros b Hb. inversion Hb; subst. split; [reflexivity | exact Hl1].
      * intros b Hb. discriminate.
      * intros _ H2. congruence.
  - split; [eapply frame_trans; apply frame_get_bh|]. split.
    + intros b. rewrite !b_count_get_bh. unfold change_refs. cbn. lia.
    + unfold record_sound. cbn. split; [|split].
      * intros b Hb. inversion Hb; subst. split; [reflexivity | exact Hl1].
      * intros b Hb. inversion Hb; subst. split; [reflexivity | exact Hl2].
      * intros _ _. exact Hdiff.
Qed.

(** One block: only reference counts and the trace change; the references
    left behind are those of the records stored (the block's own fetches
    are released on every path); the records are sound; and with a
    capacity of at least one no more records than the capacity are
    stored. *)
Lemma compare_block_acct :
  forall cfg w ifile1 ifile2 start d mc n cs w',
    nilfs_ifile_compare_block cfg w ifile1 ifile2 start d mc = Some (n, cs, w') ->
    frame w w' /\
    (forall b, b_count w' b = b_count w b + changes_refs cs b) /\
    Forall (record_sound (raw_inode w) ifile1 ifile2) cs /\
    (0 < mc <= ULONG_MAX -> Z.of_nat (length cs) <= mc).
Proof.
  intros cfg w ifile1 ifile2 start d mc n cs w' Hrun.
  assert (Hnil : forall w0 : world,
            frame w0 w0 /\ (forall b, b_count w0 b = b_count w0 b + changes_refs [] b) /\
            Forall (record_sound (raw_inode w) ifile1 ifile2) [] /\
            (0 < mc <= ULONG_MAX -> Z.of_nat (@length nilfs_ifile_change []) <= mc)).
  { intros w0. split; [apply frame_refl|]. split; [intros; cbn; lia|].
    split; [constructor | cbn; lia]. }
  unfold nilfs_ifile_compare_block in Hrun.
  destruct (nilfs_palloc_block_type cfg ifile1 (key d)) as [t nr].
  destruct t; [|inversion Hrun; subst; apply Hnil].
  destruct (_ <? Z.max _ _); [inversion Hrun; subst; apply Hnil|].
  assert (Hget1 : exists ret1 ibh1 w1,
            (if negb (ptr1 d =? NILFS_BMAP_INVALID_PTR cfg)
             then nilfs_palloc_get_entry_block cfg w ifile1 nr false
             else (0, None, w)) = (ret1, ibh1, w1) /\
            frame w w1 /\ (forall b, b_count w1 b = b_count w b + holds ibh1 b) /\
            (forall h, ibh1 = Some h -> bh_ifile h = ifile1) /\
            (ret1 < 0 -> ibh1 = None)).
  { destruct (negb _).
    - destruct (nilfs_palloc_get_entry_block cfg w ifile1 nr false) as [[r b] w1] eqn:E.
      exists r, b, w1. split; [reflexivity|].
      destruct (get_entry_block_acct _ _ _ _ _ _ _ _ E) as (Hf & Hc & Hcase).
      split; [exact Hf|]. split; [exact Hc|]. split.
      + intros h Hh. destruct Hcase as [[_ Hn]|[_ [Hs _]]]; [congruence|].
        rewrite Hs in Hh. inversion Hh; subst. reflexivity.
      + intros Hneg. destruct Hcase as [[_ Hn]|[Hz _]]; [exact Hn | lia].
    - exists 0, None, w. split; [reflexivity|]. split; [apply frame_refl|].
      split; [intros; cbn; lia|]. split; [intros h Hh; discriminate | reflexivity]. }
  destruct Hget1 as (ret1 & ibh1 & w1 & E1 & Hf1 & Hc1 & Hi1 & Hn1). rewrite E1 in Hrun.
  destruct (ret1 <? 0) eqn:Hneg1.
  { inversion Hrun; subst n cs w'. clear Hrun.
    apply Z.ltb_lt in Hneg1. specialize (Hn1 Hneg1). subst ibh1.
    split; [eapply frame_trans; [exact Hf1 | apply frame_warn]|].
    split; [|split; [constructor | cbn; lia]].
    intros b. rewrite b_count_warn, Hc1. cbn. lia. }
  assert (Hget2 : exists ret2 ibh2 w2,
            (if negb (ptr2 d =? NILFS_BMAP_INVALID_PTR cfg)
             then nilfs_palloc_get_entry_block cfg w1 ifile2 nr false
             else (0, None, w1)) = (ret2, ibh2, w2) /\
            frame w1 w2 /\ (forall b, b_count w2 b = b_count w1 b + holds ibh2 b) /\
            (forall h, ibh2 = Some h -> bh_ifile h = ifile2) /\
            (ret2 < 0 -> ibh2 = None)).
  { destruct (negb _).
    - destruct (nilfs_palloc_get_entry_block cfg w1 ifile2 nr false) as [[r b] w2] eqn:E.
      exists r, b, w2. split; [reflexivity|].
      destruct (get_entry_block_acct _ _ _ _ _ _ _ _ E) as (Hf & Hc & Hcase).
      split; [exact Hf|]. split; [exact Hc|]. split.
      + intros h Hh. destruct Hcase as [[_ Hn]|[_ [Hs _]]]; [congruence|].
        rewrite Hs in Hh. inversion Hh; subst. reflexivity.
      + intros Hneg. destruct Hcase as [[_ Hn]|[Hz _]]; [exact Hn | lia].
    - exists 0, None, w1. split; [reflexivity|]. split; [apply frame_refl|].
      split; [intros; cbn; lia|]. split; [intros h Hh; discriminate | reflexivity]. }
  destruct Hget2 as (ret2 & ibh2 & w2 & E2 & Hf2 & Hc2 & Hi2 & Hn2). rewrite E2 in Hrun.
  destruct (ret2 <? 0) eqn:Hneg2.
  { inversion Hrun; subst n cs w'. clear Hrun.
    apply Z.ltb_lt in Hneg2. specialize (Hn2 Hneg2). subst ibh2.
    split; [eapply frame_trans; [exact Hf1|]; eapply frame_trans; [exact Hf2|];
            eapply frame_trans; [apply frame_warn | apply frame_brelse]|].
    split; [|split; [constructor | cbn; lia]].
    intros b. rewrite b_count_brelse, b_count_warn, Hc2, Hc1. cbn. lia. }
  assert (HR2 : raw_inode w2 = raw_inode w).
  { rewrite (frame_raw_inode _ _ Hf2). apply (frame_raw_inode _ _ Hf1). }
  assert (Hscan : forall body n0 cs0 w3,
            (forall w i c w',
                raw_inode w = raw_inode w2 -> body w i = Some (c, w') ->
                frame w w' /\ (forall b, b_count w' b = b_count w b + change_refs c b) /\
                record_sound (raw_inode w2) ifile1 ifile2 c) ->
            scan_entries
              (Z.to_nat (to_ulong (nr + mi_entries_per_block cfg ifile1 - 1)
                         - Z.max (to_ulong nr) (to_ulong start) + 1))
              body (to_ulong (nr + mi_entries_per_block cfg ifile1 - 1)) mc w2
              (Z.max (to_ulong nr) (to_ulong start)) 0 = Some (n0, cs0, w3) ->
            Some (n0, cs0, brelse (brelse w3 ibh1) ibh2) = Some (n, cs, w') ->
            frame w w' /\
            (forall b, b_count w' b = b_count w b + changes_refs cs b) /\
            Forall (record_sound (raw_inode w) ifile1 ifile2) cs /\
            (0 < mc <= ULONG_MAX -> Z.of_nat (length cs) <= mc)).
  { intros body n0 cs0 w3 Hb Hs Heq. inversion Heq; subst n cs w'. clear Heq.
    pose proof (scan_entries_count _ _ _ _ _ _ _ _ _ _ Hs) as Hcount.
    destruct (scan_entries_acct (raw_inode w2) _ body Hb _ _ _ _ _ _ _ _ _ eq_refl Hs)
      as (Hf3 & Hc3 & HQ & Hcap).
    split; [eapply frame_trans; [exact Hf1|]; eapply frame_trans; [exact Hf2|];
            eapply frame_trans; [exact Hf3|];
            eapply frame_trans; apply frame_brelse|].
    split; [intros b; rewrite !b_count_brelse, Hc3, Hc2, Hc1; lia|].
    split; [rewrite <- HR2; exact HQ|].
    intros Hmc. specialize (Hcap ltac:(lia) ltac:(lia)). lia. }
  destruct ibh1 as [b1|], ibh2 as [b2|].
  - destruct (scan_entries _ _ _ _ _ _ _) as [[[n0 cs0] w3]|] eqn:Hs; [|discriminate].
    eapply Hscan; [|exact Hs | exact Hrun].
    intros. eapply modified_entry_acct; eauto.
  - destruct (scan_entries _ _ _ _ _ _ _) as [[[n0 cs0] w3]|] eqn:Hs; [|discriminate].
    eapply Hscan; [|exact Hs | exact Hrun].
    intros. eapply deleted_entry_acct; eauto.
  - destruct (scan_entries _ _ _ _ _ _ _) as [[[n0 cs0] w3]|] eqn:Hs; [|discriminate].
    eapply Hscan; [|exact Hs | exact Hrun].
    intros. eapply created_entry_acct; eauto.
  - inversion Hrun; subst n cs w'. cbn [brelse].
    split; [eapply frame_trans; eassumption|].
    split; [intros b; rewrite Hc2, Hc1; cbn; lia|].
    split; [constructor | cbn; lia].
Qed.

Lemma record_sound_frame :
  forall w w' ifile1 ifile2 cs,
    frame w w' ->
    Forall (record_sound (raw_inode w') ifile1 ifile2) cs ->
    Forall (record_sound (raw_inode w) ifile1 ifile2) cs.
Proof.
  intros w w' ifile1 ifile2 cs Hf H. rewrite (frame_raw_inode _ _ Hf) in H. exact H.
Qed.

Lemma compare_diffs_acct :
  forall cfg ifile1 ifile2 start cap ds w nc e nc' cs w',
    compare_diffs cfg w ifile1 ifile2 start cap ds nc = Some (e, nc', cs, w') ->
    frame w w' /\
    (forall b, b_count w' b = b_count w b + changes_refs cs b) /\
    Forall (record_sound (raw_inode w) ifile1 ifile2) cs /\
    (0 <= nc < cap -> cap <= ULONG_MAX ->
     nc + Z.of_nat (length cs) <= cap /\ (e = Exit_next -> nc' < cap)).
Proof.
  intros cfg ifile1 ifile2 start cap.
  induction ds as [|d ds IH]; intros w nc e nc' cs w' Hrun; cbn [compare_diffs] in Hrun.
  - inversion Hrun; subst.
    split; [apply frame_refl|]. split; [intros; cbn; lia|].
    split; [constructor | cbn; lia].
  - destruct (nilfs_ifile_compare_block cfg w ifile1 ifile2 start d (to_ulong (cap - nc)))
      as [[[n cs0] w1]|] eqn:Hblock; [|discriminate].
    pose proof (compare_block_count _ _ _ _ _ _ _ _ _ _ Hblock) as Hcount.
    destruct (compare_block_acct _ _ _ _ _ _ _ _ _ _ Hblock) as (Hf & Hc & HQ & Hcap).
    destruct (n <? 0) eqn:Hneg.
    { inversion Hrun; subst e nc' cs w'. clear Hrun.
      split; [exact Hf|]. split; [exact Hc|]. split; [exact HQ|].
      intros Hnc Hmax. apply Z.ltb_lt in Hneg.
      destruct Hcount as [[_ ->]|Hn]; [|lia].
      cbn. split; [lia | discriminate]. }
    apply Z.ltb_ge in Hneg. destruct Hcount as [[Hn _]|Hn]; [lia|].
    destruct (to_ulong (nc + n) =? cap) eqn:Hfull.
    { inversion Hrun; subst e nc' cs w'. clear Hrun.
      split; [exact Hf|]. split; [exact Hc|]. split; [exact HQ|].
      intros Hnc Hmax. rewrite (to_ulong_small (cap - nc)) in Hcap by lia.
      specialize (Hcap ltac:(lia)). split; [lia | discriminate]. }
    destruct (compare_diffs cfg w1 ifile1 ifile2 start cap ds (nc + n))
      as [[[[e1 nc1] cs1] w2]|] eqn:Hrest; [|discriminate].
    inversion Hrun; subst e nc' cs w'. clear Hrun.
    destruct (IH _ _ _ _ _ _ Hrest) as (Hf' & Hc' & HQ' & Hcap').
    split; [eapply frame_trans; eassumption|].
    split; [intros b; rewrite changes_refs_app, Hc', Hc; lia|].
    split; [apply Forall_app; split;
            [exact HQ | eapply record_sound_frame; eassumption]|].
    intros Hnc Hmax. rewrite (to_ulong_small (cap - nc)) in Hcap by lia.
    specialize (Hcap ltac:(lia)).
    rewrite (to_ulong_small (nc + n)) in Hfull by lia.
    apply Z.eqb_neq in Hfull.
    destruct (Hcap' ltac:(lia) Hmax) as [Hlen Hnext].
    rewrite length_app. split; [lia | exact Hnext].
Qed.

Lemma compare_batches_acct :
  forall cfg ifile1 ifile2 start cap maxdiffs fuel w blkoff nc e nc' cs w',
    compare_batches cfg fuel w ifile1 ifile2 start cap maxdiffs blkoff nc
      = Some (e, nc', cs, w') ->
    frame w w' /\
    (forall b, b_count w' b = b_count w b + changes_refs cs b) /\
    Forall (record_sound (raw_inode w) ifile1 ifile2) cs /\
    (0 <= nc < cap -> cap <= ULONG_MAX -> nc + Z.of_nat (length cs) <= cap).
Proof.
  intros cfg ifile1 ifile2 start cap maxdiffs.
  induction fuel as [|fuel IH]; intros w blkoff nc e nc' cs w' Hrun; [discriminate|].
  cbn [compare_batches] in Hrun.
  destruct (nilfs_bmap_compare w ifile1 ifile2 blkoff maxdiffs) as [[nd diffs] w0] eqn:Hcmp.
  assert (Hf0 : frame w w0 /\ forall b, b_count w0 b = b_count w b).
  { unfold nilfs_bmap_compare in Hcmp.
    destruct (bmap_fault w blkoff); inversion Hcmp; subst;
      (split; [apply frame_log | reflexivity]). }
  destruct Hf0 as [Hf0 Hc0].
  assert (Hnil : frame w w0 /\
                 (forall b, b_count w0 b = b_count w b + changes_refs [] b) /\
                 Forall (record_sound (raw_inode w) ifile1 ifile2) [] /\
                 (0 <= nc < cap -> cap <= ULONG_MAX ->
                  nc + Z.of_nat (@length nilfs_ifile_change []) <= cap)).
  { split; [exact Hf0|]. split; [intros b; rewrite Hc0; cbn; lia|].
    split; [constructor | cbn; lia]. }
  destruct (nd <? 0); [inversion Hrun; subst; exact Hnil|].
  destruct (nd =? 0); [inversion Hrun; subst; exact Hnil|].
  destruct (compare_diffs cfg w0 ifile1 ifile2 start cap diffs nc)
    as [[[[e1 nc1] cs1] w1]|] eqn:Hdiffs; [|discriminate].
  pose proof (compare_diffs_count _ _ _ _ _ _ _ _ _ _ _ _ Hdiffs) as Hcount.
  destruct (compare_diffs_acct _ _ _ _ _ _ _ _ _ _ _ _ Hdiffs) as (Hf & Hc & HQ & Hcap).
  assert (Hone : frame w w1 /\
                 (forall b, b_count w1 b = b_count w b + changes_refs cs1 b) /\
                 Forall (record_sound (raw_inode w) ifile1 ifile2) cs1 /\
                 (0 <= nc < cap -> cap <= ULONG_MAX ->
                  nc + Z.of_nat (length cs1) <= cap)).
  { split; [eapply frame_trans; eassumption|].
    split; [intros b; rewrite Hc, Hc0; lia|].
    split; [eapply record_sound_frame; eassumption|].
    intros Hnc Hmax. apply (Hcap Hnc Hmax). }
  destruct e1; try (inversion Hrun; subst; exact Hone).
  destruct (to_ulong nd =? maxdiffs); [|inversion Hrun; subst; exact Hone].
  destruct (compare_batches cfg fuel w1 ifile1 ifile2 start cap maxdiffs _ nc1)
    as [[[[e2 nc2] cs2] w2]|] eqn:Hrest; [|discriminate].
  inversion Hrun; subst e nc' cs w'. clear Hrun.
  destruct (IH _ _ _ _ _ _ _ Hrest) as (Hf' & Hc' & HQ' & Hcap').
  destruct Hone as (Hf1 & Hc1 & HQ1 & _).
  split; [eapply frame_trans; eassumption|].
  split; [intros b; rewrite changes_refs_app, Hc', Hc1; lia|].
  split; [apply Forall_app; split;
          [exact HQ1 | eapply record_sound_frame; eassumption]|].
  intros Hnc Hmax. destruct (Hcap Hnc Hmax) as [Hlen Hnext].
  specialize (Hnext eq_refl). cbn in Hcount.
  specialize (Hcap' ltac:(lia) Hmax). rewrite length_app. lia.
Qed.

(** The whole comparison, whatever it returns. *)
Lemma compare_acct :
  forall cfg fuel w ifile1 ifile2 start cap nc changes w',
    nilfs_ifile_compare cfg fuel w ifile1 ifile2 start cap = Some (nc, changes, w') ->
    frame w w' /\
    (forall b, b_count w' b = b_count w b + changes_refs changes b) /\
    Forall (record_sound (raw_inode w) ifile1 ifile2) changes /\
    (0 < cap <= ULONG_MAX -> Z.of_nat (length changes) <= cap) /\
    (nc < 0 \/ nc = Z.of_nat (length changes)).
Proof.
  intros cfg fuel w ifile1 ifile2 start cap nc changes w' Hrun.
  unfold nilfs_ifile_compare in Hrun.
  destruct (free_pages_ok w); cbn [negb] in Hrun.
  2:{ inversion Hrun; subst.
      split; [apply frame_refl|]. split; [intros; cbn; lia|].
      split; [constructor|]. split; [cbn; lia|].
      left. apply neg_errno_negative. }
  destruct (compare_batches cfg fuel w ifile1 ifile2 start cap (diffs_per_page cfg)
              (nilfs_palloc_entry_blkoff cfg ifile1 start) 0)
    as [[[[e nc0] cs] w1]|] eqn:Hb; [|discriminate].
  pose proof (compare_batches_count _ _ _ _ _ _ _ _ _ _ _ _ _ _ Hb) as Hcount.
  destruct (compare_batches_acct _ _ _ _ _ _ _ _ _ _ _ _ _ _ Hb) as (Hf & Hc & HQ & Hcap).
  assert (Hw : w' = w1 /\ nc = nc0 /\ changes = cs).
  { destruct e; inversion Hrun; subst; repeat split.
    apply release_changes_negative.
    destruct Hcount as [Hneg|[He _]]; [exact Hneg | congruence]. }
  destruct Hw as (-> & -> & ->).
  split; [exact Hf|]. split; [exact Hc|]. split; [exact HQ|].
  split; [intros Hcap0; specialize (Hcap ltac:(lia) ltac:(lia)); lia|].
  destruct Hcount as [Hneg|[_ Hlen]]; [left; exact Hneg | right; lia].
Qed.

(** ** Snapshot diff: what every comparison keeps *)

(** X1.  A comparison that succeeds leaves exactly the references of the
    records it returns: the count of every buffer head has grown by the
    number of handles to it in the records, so every block the comparison
    fetched for itself has been released again. *)
Theorem compare_success_references :
  forall (cfg : nilfs_config) (fuel : nat) (w w' : world) (ifile1 ifile2 : ifile_id)
         (start maxchanges nc : Z) (changes : list nilfs_ifile_change),
    nilfs_ifile_compare cfg fuel w ifile1 ifile2 start maxchanges
      = Some (nc, changes, w') ->
    0 <= nc ->
    forall b, b_count w' b = b_count w b + changes_refs changes b.
Proof.
  intros cfg fuel w w' ifile1 ifile2 start maxchanges nc changes Hrun _.
  apply (compare_acct _ _ _ _ _ _ _ _ _ _ Hrun).
Qed.

Lemma compare_success_references_witness :
  exists w',
    nilfs_ifile_compare ex_cfg 5 world_four_new 1 2 0 10
      = Some (4, [mk_change 1 None (Some (mk_bh 2 2));
                  mk_change 2 None (Some (mk_bh 2 2));
                  mk_change 6 None (Some (mk_bh 2 3));
                  mk_change 9 None (Some (mk_bh 2 5))], w') /\
    b_count w' (mk_bh 2 2) = 2 /\ b_count w' (mk_bh 2 3) = 1 /\
    b_count w' (mk_bh 1 2) = 0.
Proof.
  assert (Hobs : exists w0,
            nilfs_ifile_compare ex_cfg 5 world_four_new 1 2 0 10
              = Some (4, [mk_change 1 None (Some (mk_bh 2 2));
                          mk_change 2 None (Some (mk_bh 2 2));
                          mk_change 6 None (Some (mk_bh 2 3));
                          mk_change 9 None (Some (mk_bh 2 5))], w0)).
  { eexists. vm_compute. reflexivity. }
  destruct Hobs as [w0 Hobs]. exists w0. split; [exact Hobs|].
  pose proof (compare_success_references _ _ _ _ _ _ _ _ _ _ Hobs ltac:(lia)) as Hrefs.
  repeat split; rewrite Hrefs; reflexivity.
Defined.

(** X2.  With room for at least one record the comparison never stores
    more records than [maxchanges], whether it succeeds or fails, and a
    return value that is not negative is the number of records stored. *)
Theorem compare_within_capacity :
  forall (cfg : nilfs_config) (fuel : nat) (w w' : world) (ifile1 ifile2 : ifile_id)
         (start maxchanges nc : Z) (changes : list nilfs_ifile_change),
    0 < maxchanges <= ULONG_MAX ->
    nilfs_ifile_compare cfg fuel w ifile1 ifile2 start maxchanges
      = Some (nc, changes, w') ->
    Z.of_nat (length changes) <= maxchanges /\
    nc <= maxchanges /\
    (0 <= nc -> nc = Z.of_nat (length changes)).
Proof.
  intros cfg fuel w w' ifile1 ifile2 start maxchanges nc changes Hcap Hrun.
  destruct (compare_acct _ _ _ _ _ _ _ _ _ _ Hrun) as (_ & _ & _ & Hlen & Hnc).
  specialize (Hlen Hcap). repeat split; lia.
Qed.

Lemma compare_within_capacity_witness :
  exists w',
    nilfs_ifile_compare ex_cfg 5 world_four_new 1 2 0 3
      = Some (3, [mk_change 1 None (Some (mk_bh 2 2));
                  mk_change 2 None (Some (mk_bh 2 2));
                  mk_change 6 None (Some (mk_bh 2 3))], w') /\
    Z.of_nat (length [mk_change 1 None (Some (mk_bh 2 2));
                      mk_change 2 None (Some (mk_bh 2 2));
                      mk_change 6 None (Some (mk_bh 2 3))]) <= 3.
Proof.
  assert (Hobs : exists w0,
            nilfs_ifile_compare ex_cfg 5 world_four_new 1 2 0 3
              = Some (3, [mk_change 1 None (Some (mk_bh 2 2));
                          mk_change 2 None (Some (mk_bh 2 2));
                          mk_change 6 None (Some (mk_bh 2 3))], w0)).
  { eexists. vm_compute. reflexivity. }
  destruct Hobs as [w0 Hobs]. exists w0. split; [exact Hobs|].
  refine (proj1 (compare_within_capacity _ _ _ _ _ _ _ _ _ _ _ Hobs)).
  unfold ULONG_MAX, ULONG_MODULUS. cbn. lia.
Defined.

(** X3.  Every record that a comparison stores is sound: a source handle
    is a block of [ifile1] and is there only if the entry has a non-zero
    link count in [ifile1], a target handle likewise for [ifile2], and a
    record with both handles has a change time that differs between the
    two sides. *)
Theorem compare_records_sound :
  forall (cfg : nilfs_config) (fuel : nat) (w w' : world) (ifile1 ifile2 : ifile_id)
         (start maxchanges nc : Z) (changes : list nilfs_ifile_change),
    nilfs_ifile_compare cfg fuel w ifile1 ifile2 start maxchanges
      = Some (nc, changes, w') ->
    Forall (record_sound (raw_inode w) ifile1 ifile2) changes.
Proof.
  intros cfg fuel w w' ifile1 ifile2 start maxchanges nc changes Hrun.
  apply (compare_acct _ _ _ _ _ _ _ _ _ _ Hrun).
Qed.

Lemma compare_records_sound_witness :
  record_sound (raw_inode world_four_new) 1 2 (mk_change 6 None (Some (mk_bh 2 3))).
Proof.
  assert (Hobs : exists w0,
            nilfs_ifile_compare ex_cfg 5 world_four_new 1 2 0 3
              = Some (3, [mk_change 1 None (Some (mk_bh 2 2));
                          mk_change 2 None (Some (mk_bh 2 2));
                          mk_change 6 None (Some (mk_bh 2 3))], w0)).
  { eexists. vm_compute. reflexivity. }
  destruct Hobs as [w0 Hobs].
  pose proof (compare_records_sound _ _ _ _ _ _ _ _ _ _ Hobs) as Hall.
  rewrite Forall_forall in Hall. apply Hall. right. right. left. reflexivity.
Defined.

(** X4.  A comparison reads the two tables and changes neither: the raw
    inodes, the block faults, the block-map differences and the
    allocator's bitmap and reservations are the same afterwards, on every
    return.  Only reference counts and the trace of calls move. *)
Theorem compare_read_only :
  forall (cfg : nilfs_config) (fuel : nat) (w w' : world) (ifile1 ifile2 : ifile_id)
         (start maxchanges nc : Z) (changes : list nilfs_ifile_change),
    nilfs_ifile_compare cfg fuel w ifile1 ifile2 start maxchanges
      = Some (nc, changes, w') ->
    frame w w'.
Proof.
  intros cfg fuel w w' ifile1 ifile2 start maxchanges nc changes Hrun.
  apply (compare_acct _ _ _ _ _ _ _ _ _ _ Hrun).
Qed.

Lemma compare_read_only_witness :
  exists w',
    nilfs_ifile_compare ex_cfg 3 world_fetch_fault 1 2 0 10
      = Some (neg_errno EIO, [mk_change 1 None (Some (mk_bh 2 2))], w') /\
    raw_inode w' = raw_inode world_fetch_fault /\
    pa_bitmap w' = pa_bitmap world_fetch_fault.
Proof.
  assert (Hobs : exists w0,
            nilfs_ifile_compare ex_cfg 3 world_fetch_fault 1 2 0 10
              = Some (neg_errno EIO, [mk_change 1 None (Some (mk_bh 2 2))], w0)).
  { eexists. vm_compute. reflexivity. }
  destruct Hobs as [w0 Hobs]. exists w0. split; [exact Hobs|].
  destruct (compare_read_only _ _ _ _ _ _ _ _ _ _ Hobs) as (H1 & _ & _ & _ & _ & H6 & _).
  split; assumption.
Defined.

(** ** Snapshot diff: nothing is missed *)

Section ScanComplete.

Variable R : ifile_id -> Z -> nilfs_inode.
Variable body : world -> Z -> option (nilfs_ifile_change * world).
Hypothesis Hpres :
  forall w i c w', body w i = Some (c, w') -> raw_inode w' = raw_inode w.

(** A scan that does not reach the capacity visits every entry of its
    range: whatever the body stores for an entry of the range is among the
    records. *)
Lemma scan_entries_complete :
  forall end_ mc,
    end_ < ULONG_MAX -> mc <= ULONG_MAX ->
    forall fuel w i n n' cs w',
      raw_inode w = R -> 0 <= i -> 0 <= n -> n' < mc ->
      scan_entries fuel body end_ mc w i n = Some (n', cs, w') ->
      forall j c,
        i <= j <= end_ ->
        (forall wx, raw_inode wx = R -> exists w1, body wx j = Some (c, w1)) ->
        In c cs.
Proof.
  intros end_ mc Hend Hmc.
  induction fuel as [|fuel IH]; intros w i n n' cs w' HR Hi Hn Hn' Hrun j c Hj Hc;
    cbn [scan_entries] in Hrun.
  - destruct (i <=? end_) eqn:Hle; [discriminate|]. apply Z.leb_gt in Hle. lia.
  - destruct (i <=? end_) eqn:Hle; [|apply Z.leb_gt in Hle; lia].
    apply Z.leb_le in Hle.
    rewrite (to_ulong_small (i + 1)) in Hrun by lia.
    destruct (Hc w HR) as [wj Hbj].
    destruct (body w i) as [[c0 w1]|] eqn:Hb.
    + pose proof (Hpres _ _ _ _ Hb) as HR1.
      destruct (to_ulong (n + 1) =? mc) eqn:Hfull.
      { inversion Hrun; subst n' cs w'. rewrite to_ulong_small in Hfull by lia.
        apply Z.eqb_eq in Hfull. lia. }
      destruct (scan_entries fuel body end_ mc w1 (i + 1) (n + 1))
        as [[[n1 cs1] w2]|] eqn:Hrest; [|discriminate].
      inversion Hrun; subst n' cs w'. clear Hrun.
      destruct (Z.eq_dec j i) as [->|Hne].
      * rewrite Hb in Hbj. inversion Hbj; subst. left. reflexivity.
      * right. eapply (IH w1 (i + 1) (n + 1)); try eassumption; try lia.
        rewrite HR1. exact HR.
    + destruct (Z.eq_dec j i) as [->|Hne]; [rewrite Hb in Hbj; discriminate|].
      eapply (IH w (i + 1) n); try eassumption; lia.
Qed.

End ScanComplete.

Lemma created_entry_pres :
  forall ifile2 ibh2 w i c w',
    created_entry ifile2 ibh2 w i = Some (c, w') -> raw_inode w' = raw_inode w.
Proof. intros. eapply created_entry_ok in H. apply H. Qed.

Lemma deleted_entry_pres :
  forall ifile1 ibh1 w i c w',
    deleted_entry ifile1 ibh1 w i = Some (c, w') -> raw_inode w' = raw_inode w.
Proof. intros. eapply deleted_entry_ok in H. apply H. Qed.

Lemma modified_entry_pres :
  forall ifile1 ifile2 ibh1 ibh2 w i c w',
    modified_entry ifile1 ifile2 ibh1 ibh2 w i = Some (c, w') ->
    raw_inode w' = raw_inode w.
Proof. intros. eapply modified_entry_ok in H. apply H. Qed.

Lemma entries_reported_app_l :
  forall cfg w ifile1 ifile2 start d cs cs',
    entries_reported cfg w ifile1 ifile2 start d cs ->
    entries_reported cfg w ifile1 ifile2 start d (cs ++ cs').
Proof.
  intros cfg w ifile1 ifile2 start d cs cs' H nr i Ht Hi.
  destruct (H nr i Ht Hi) as (H1 & H2 & H3).
  repeat split; intros; apply in_or_app; left; auto.
Qed.

Lemma entries_reported_app_r :
  forall cfg w ifile1 ifile2 start d cs cs',
    entries_reported cfg w ifile1 ifile2 start d cs' ->
    entries_reported cfg w ifile1 ifile2 start d (cs ++ cs').
Proof.
  intros cfg w ifile1 ifile2 start d cs cs' H nr i Ht Hi.
  destruct (H nr i Ht Hi) as (H1 & H2 & H3).
  repeat split; intros; apply in_or_app; right; auto.
Qed.

Lemma entries_reported_frame :
  forall cfg w w' ifile1 ifile2 start d cs,
    raw_inode w' = raw_inode w ->
    entries_reported cfg w' ifile1 ifile2 start d cs ->
    entries_reported cfg w ifile1 ifile2 start d cs.
Proof.
  intros cfg w w' ifile1 ifile2 start d cs HR H. unfold entries_reported in *.
  rewrite HR in H. exact H.
Qed.

(** One block that is fetched and scanned without reaching the capacity
    reports every entry of its range that has to be reported. *)
Lemma compare_block_complete :
  forall cfg w ifile1 ifile2 start d mc n cs w',
    0 <= start <= ULONG_MAX ->
    0 < mi_entries_per_block cfg ifile1 ->
    (forall nr,
       nilfs_palloc_block_type cfg ifile1 (key d) = (NILFS_PALLOC_ENTRY_BLOCK, nr) ->
       0 <= nr /\ nr + mi_entries_per_block cfg ifile1 <= ULONG_MAX) ->
    nilfs_ifile_compare_block cfg w ifile1 ifile2 start d mc = Some (n, cs, w') ->
    0 <= n < mc -> mc <= ULONG_MAX ->
    entries_reported cfg w ifile1 ifile2 start d cs.
Proof.
  intros cfg w ifile1 ifile2 start d mc n cs w' Hstart Hepb Hrange Hrun Hn Hmc nr i Ht Hi.
  destruct (Hrange nr Ht) as [Hnr Hlast].
  unfold nilfs_ifile_compare_block in Hrun. rewrite Ht in Hrun.
  rewrite (to_ulong_small nr), (to_ulong_small start),
    (to_ulong_small (nr + mi_entries_per_block cfg ifile1 - 1)) in Hrun by lia.
  set (end_ := nr + mi_entries_per_block cfg ifile1 - 1) in *.
  set (i0 := Z.max nr start) in *.
  destruct (end_ <? i0) eqn:Hclip; [apply Z.ltb_lt in Hclip; lia|].
  unfold nilfs_palloc_get_entry_block in Hrun.
  assert (Hneg : forall e, (neg_errno e <? 0) = true) by apply neg_errno_ltb.
  assert (Hscan : forall body w2 ibh1 ibh2 c,
            raw_inode w2 = raw_inode w ->
            (forall w0 j c0 w1, body w0 j = Some (c0, w1) -> raw_inode w1 = raw_inode w0) ->
            match scan_entries (Z.to_nat (end_ - i0 + 1)) body end_ mc w2 i0 0 with
            | Some (n0, cs0, w3) => Some (n0, cs0, brelse (brelse w3 ibh1) ibh2)
            | None => None
            end = Some (n, cs, w') ->
            (forall wx, raw_inode wx = raw_inode w -> exists w1, body wx i = Some (c, w1)) ->
            In c cs).
  { intros body w2 ibh1 ibh2 c HR2 Hpres Hs Hc.
    destruct (scan_entries _ body end_ mc w2 i0 0) as [[[n0 cs0] w3]|] eqn:Es;
      [|discriminate].
    inversion Hs; subst n0 cs0 w'. clear Hs.
    eapply (scan_entries_complete (raw_inode w) body Hpres end_ mc ltac:(unfold end_; lia)
              Hmc _ w2 i0 0 n cs w3 HR2 ltac:(unfold i0; lia) ltac:(lia) ltac:(lia) Es i c);
      [lia | exact Hc]. }
  cbv zeta.
  destruct (ptr1 d =? NILFS_BMAP_INVALID_PTR cfg) eqn:Hp1;
    destruct (ptr2 d =? NILFS_BMAP_INVALID_PTR cfg) eqn:Hp2;
    cbn [negb] in Hrun.
  - (* neither side has the block *)
    apply Z.eqb_eq in Hp1. apply Z.eqb_eq in Hp2.
    split; [|split]; intros; congruence.
  - (* target side only *)
    apply Z.eqb_eq in Hp1. apply Z.eqb_neq in Hp2.
    cbn [Z.ltb Z.compare] in Hrun. cbn [blk_fault] in Hrun.
    destruct (blk_fault w ifile2 _) as [e|].
    { rewrite Hneg in Hrun. inversion Hrun; subst.
      pose proof (neg_errno_negative e). lia. }
    cbn [Z.ltb Z.compare] in Hrun.
    split; [|split]; try (intros; congruence).
    intros _ _ Hlive.
    eapply (Hscan _ _ _ _ _ _ (created_entry_pres _ _) Hrun).
    intros wx HRx. unfold created_entry. rewrite HRx.
    apply Z.eqb_neq in Hlive. rewrite Hlive. cbn. eexists. reflexivity.
  - (* source side only *)
    apply Z.eqb_neq in Hp1. apply Z.eqb_eq in Hp2.
    cbn [blk_fault] in Hrun.
    destruct (blk_fault w ifile1 _) as [e|].
    { rewrite Hneg in Hrun. inversion Hrun; subst.
      pose proof (neg_errno_negative e). lia. }
    cbn [Z.ltb Z.compare] in Hrun.
    split; [|split]; try (intros; congruence).
    intros _ _ Hlive.
    eapply (Hscan _ _ _ _ _ _ (deleted_entry_pres _ _) Hrun).
    intros wx HRx. unfold deleted_entry. rewrite HRx.
    apply Z.eqb_neq in Hlive. rewrite Hlive. cbn. eexists. reflexivity.
  - (* both sides *)
    apply Z.eqb_neq in Hp1. apply Z.eqb_neq in Hp2.
    cbn [blk_fault] in Hrun.
    destruct (blk_fault w ifile1 _) as [e|].
    { rewrite Hneg in Hrun. inversion Hrun; subst.
      pose proof (neg_errno_negative e). lia. }
    cbn [Z.ltb Z.compare blk_fault get_bh set_b_count log] in Hrun.
    destruct (blk_fault w ifile2 _) as [e|].
    { rewrite Hneg in Hrun. inversion Hrun; subst.
      pose proof (neg_errno_negative e). lia. }
    cbn [Z.ltb Z.compare] in Hrun.
    split; [|split]; try (intros; congruence).
    intros _ _ Hct.
    eapply (Hscan _ _ _ _ _ _ (modified_entry_pres _ _ _ _) Hrun).
    intros wx HRx. unfold modified_entry. rewrite HRx.
    assert (Hb : negb (i_ctime_nsec (raw_inode w ifile1 i)
                       =? i_ctime_nsec (raw_inode w ifile2 i))
                 || negb (i_ctime (raw_inode w ifile1 i)
                          =? i_ctime (raw_inode w ifile2 i)) = true).
    { apply orb_true_iff. destruct Hct as [Hc|Hc]; [left|right];
        apply negb_true_iff; apply Z.eqb_neq; exact Hc. }
    rewrite Hb.
    destruct (i_links_count (raw_inode w ifile1 i) =? 0);
      destruct (i_links_count (raw_inode w ifile2 i) =? 0);
      cbn; eexists; reflexivity.
  Unshelve. all: try reflexivity.
Qed.

Lemma compare_diffs_out_full :
  forall cfg ifile1 ifile2 start cap ds w nc nc' cs w',
    compare_diffs cfg w ifile1 ifile2 start cap ds nc = Some (Exit_out, nc', cs, w') ->
    to_ulong nc' = cap.
Proof.
  intros cfg ifile1 ifile2 start cap.
  induction ds as [|d ds IH]; intros w nc nc' cs w' Hrun; cbn [compare_diffs] in Hrun.
  - discriminate.
  - destruct (nilfs_ifile_compare_block cfg w ifile1 ifile2 start d _)
      as [[[n cs0] w1]|]; [|discriminate].
    destruct (n <? 0); [discriminate|].
    destruct (to_ulong (nc + n) =? cap) eqn:Hfull.
    { inversion Hrun; subst. apply Z.eqb_eq. exact Hfull. }
    destruct (compare_diffs cfg w1 ifile1 ifile2 start cap ds (nc + n))
      as [[[[e1 nc1] cs1] w2]|] eqn:Hrest; [|discriminate].
    inversion Hrun; subst. eapply IH. exact Hrest.
Qed.

(** A difference of an ascending list is among the first [m] or behind
    all of them, and then there are [m] of them. *)
Lemma batch_or_later :
  forall m F lo d,
    ascending_keys lo F = true -> In d F ->
    In d (firstn m F) \/
    (length (firstn m F) = m /\ forall x, In x (firstn m F) -> key x < key d).
Proof.
  induction m as [|m IH]; intros F lo d Hasc Hin.
  - right. split; [reflexivity | intros x []].
  - destruct F as [|d0 F]; [contradiction|].
    apply ascending_keys_cons in Hasc. destruct Hasc as (H1 & H2 & H3).
    cbn [firstn]. destruct Hin as [->|Hin]; [left; left; reflexivity|].
    destruct (IH F _ d H3 Hin) as [Hl|[Hlen Hlt]].
    + left. right. exact Hl.
    + right. split; [cbn; lia|].
      intros x [<-|Hx]; [|apply Hlt; exact Hx].
      pose proof (ascending_keys_in _ _ _ H3 Hin). lia.
Qed.

Section Complete.

Variables (cfg : nilfs_config) (ifile1 ifile2 : ifile_id).
Variables (start cap : Z) (D : list nilfs_bmap_diff).
Hypothesis Hstart : 0 <= start <= ULONG_MAX.
Hypothesis Hlayout : layout_ok cfg ifile1 D.
Hypothesis Hcap : cap <= ULONG_MAX.

Lemma compare_diffs_complete :
  forall ds w nc e nc' cs w',
    incl ds D ->
    compare_diffs cfg w ifile1 ifile2 start cap ds nc = Some (e, nc', cs, w') ->
    0 <= nc -> 0 <= nc' < cap ->
    forall d, In d ds -> entries_reported cfg w ifile1 ifile2 start d cs.
Proof.
  destruct Hlayout as (Hepb & Hrange & _).
  induction ds as [|d0 ds IH]; intros w nc e nc' cs w' Hincl Hrun Hnc Hnc' d Hd;
    [contradiction|].
  cbn [compare_diffs] in Hrun.
  destruct (nilfs_ifile_compare_block cfg w ifile1 ifile2 start d0 (to_ulong (cap - nc)))
    as [[[n cs0] w1]|] eqn:Hblock; [|discriminate].
  pose proof (compare_block_count _ _ _ _ _ _ _ _ _ _ Hblock) as Hcount.
  destruct (compare_block_acct _ _ _ _ _ _ _ _ _ _ Hblock) as (Hf & _).
  destruct (n <? 0) eqn:Hneg.
  { inversion Hrun; subst. apply Z.ltb_lt in Hneg. lia. }
  apply Z.ltb_ge in Hneg. destruct Hcount as [[Hn _]|Hn]; [lia|].
  assert (Hpast : nc + n <= nc' /\ nc + n <> cap).
  { destruct (to_ulong (nc + n) =? cap) eqn:Hfull.
    - inversion Hrun; subst. rewrite to_ulong_small in Hfull by lia.
      apply Z.eqb_eq in Hfull. lia.
    - destruct (compare_diffs cfg w1 ifile1 ifile2 start cap ds (nc + n))
        as [[[[e1 nc1] cs1] w2]|] eqn:Hrest; [|discriminate].
      inversion Hrun; subst. apply compare_diffs_count in Hrest.
      destruct e; [| lia |]; split; try lia;
        rewrite to_ulong_small in Hfull by lia; apply Z.eqb_neq in Hfull; exact Hfull. }
  destruct Hpast as [Hpast Hroom].
  rewrite (to_ulong_small (nc + n)) in Hrun by lia.
  replace (nc + n =? cap) with false in Hrun by (symmetry; apply Z.eqb_neq; exact Hroom).
  destruct (compare_diffs cfg w1 ifile1 ifile2 start cap ds (nc + n))
    as [[[[e1 nc1] cs1] w2]|] eqn:Hrest; [|discriminate].
  inversion Hrun; subst e nc' cs w'. clear Hrun.
  rewrite (to_ulong_small (cap - nc)) in Hblock by lia.
  destruct Hd as [<-|Hd].
  - apply entries_reported_app_l.
    eapply (compare_block_complete cfg w ifile1 ifile2 start d0 (cap - nc) n cs0 w1);
      try eassumption; try lia.
    intros nr Ht. apply (Hrange d0 nr); [apply Hincl; left; reflexivity | exact Ht].
  - apply entries_reported_app_r.
    eapply entries_reported_frame; [apply (frame_raw_inode _ _ Hf)|].
    eapply (IH w1 (nc + n)); try eassumption; try lia.
    intros x Hx. apply Hincl. right. exact Hx.
Qed.

Hypothesis Hkeys : ascending_keys 0 D = true.

Lemma compare_batches_complete :
  forall maxdiffs,
    0 < maxdiffs <= ULONG_MAX ->
    forall fuel w blkoff nc e nc' cs w',
      bmap_diffs w ifile1 ifile2 = D ->
      compare_batches cfg fuel w ifile1 ifile2 start cap maxdiffs blkoff nc
        = Some (e, nc', cs, w') ->
      0 <= nc -> 0 <= nc' < cap ->
      forall d, In d D -> blkoff <= key d ->
                entries_reported cfg w ifile1 ifile2 start d cs.
Proof.
  intros maxdiffs Hmax.
  induction fuel as [|fuel IH]; intros w blkoff nc e nc' cs w' HD Hrun Hnc Hnc' d Hd Hkey;
    [discriminate|].
  cbn [compare_batches] in Hrun. unfold nilfs_bmap_compare in Hrun.
  destruct (bmap_fault w blkoff) as [err|].
  { rewrite neg_errno_ltb in Hrun. inversion Hrun; subst.
    pose proof (neg_errno_negative err). lia. }
  rewrite HD in Hrun.
  set (F := filter (fun d => blkoff <=? key d) D) in *.
  set (batch := firstn (Z.to_nat maxdiffs) F) in *.
  set (w0 := log w _) in *.
  assert (HF : In d F) by (apply filter_In; split; [exact Hd | apply Z.leb_le; exact Hkey]).
  assert (HascF : ascending_keys blkoff F = true).
  { eapply ascending_keys_filter; [|exact Hkeys]. lia. }
  assert (Hincl : incl batch D).
  { intros x Hx. apply in_firstn in Hx. apply filter_In in Hx. tauto. }
  assert (Hasc : ascending_keys blkoff batch = true) by (apply ascending_keys_firstn; exact HascF).
  replace (Z.of_nat (length batch) <? 0) with false in Hrun
    by (symmetry; apply Z.ltb_ge; lia).
  destruct (batch_or_later (Z.to_nat maxdiffs) F blkoff d HascF HF) as [Hin|[Hlen Hlater]];
    fold batch in Hin || fold batch in Hlen, Hlater.
  - (* [d] is in this batch *)
    destruct (Z.of_nat (length batch) =? 0) eqn:Hempty.
    { apply Z.eqb_eq in Hempty.
      assert (E : batch = []) by (apply length_zero_iff_nil; lia).
      rewrite E in Hin. contradiction. }
    destruct (compare_diffs cfg w0 ifile1 ifile2 start cap batch nc)
      as [[[[e1 nc1] cs1] w1]|] eqn:Hdiffs; [|discriminate].
    pose proof (compare_diffs_count _ _ _ _ _ _ _ _ _ _ _ _ Hdiffs) as Hcount.
    assert (Hone : 0 <= nc1 < cap -> entries_reported cfg w ifile1 ifile2 start d cs1).
    { intros Hnc1.
      apply (entries_reported_frame cfg w w0); [reflexivity|].
      eapply compare_diffs_complete; eassumption. }
    destruct e1.
    + inversion Hrun; subst. apply compare_diffs_out_full in Hdiffs.
      rewrite to_ulong_small in Hdiffs by lia. lia.
    + inversion Hrun; subst. lia.
    + destruct (to_ulong (Z.of_nat (length batch)) =? maxdiffs).
      * destruct (compare_batches cfg fuel w1 ifile1 ifile2 start cap maxdiffs _ nc1)
          as [[[[e2 nc2] cs2] w2]|] eqn:Hrest; [|discriminate].
        inversion Hrun; subst e nc' cs w'. clear Hrun.
        apply compare_batches_count in Hrest.
        apply entries_reported_app_l. apply Hone. lia.
      * inversion Hrun; subst. apply Hone. lia.
  - (* [d] comes behind this batch, which is full *)
    assert (Hnd : Z.of_nat (length batch) = maxdiffs) by lia.
    rewrite Hnd in Hrun.
    replace (maxdiffs =? 0) with false in Hrun by (symmetry; apply Z.eqb_neq; lia).
    rewrite (to_ulong_small maxdiffs), Z.eqb_refl in Hrun by lia.
    assert (Hne : batch <> []) by (intros E; rewrite E in Hnd; cbn in Hnd; lia).
    set (d0 := mk_diff 0 0 0) in *.
    pose proof (last_in batch d0 Hne) as Hlast.
    pose proof (Hlater _ Hlast) as Hlt.
    pose proof (ascending_keys_in D 0 _ Hkeys (Hincl _ Hlast)) as Hlk.
    rewrite (to_ulong_small (key (last batch d0) + 1)) in Hrun by lia.
    destruct (compare_diffs cfg w0 ifile1 ifile2 start cap batch nc)
      as [[[[e1 nc1] cs1] w1]|] eqn:Hdiffs; [|discriminate].
    pose proof (compare_diffs_count _ _ _ _ _ _ _ _ _ _ _ _ Hdiffs) as Hcount.
    destruct (compare_diffs_acct _ _ _ _ _ _ _ _ _ _ _ _ Hdiffs) as (Hf & _).
    destruct e1.
    + injection Hrun as <- <- <- <-. apply compare_diffs_out_full in Hdiffs.
      rewrite to_ulong_small in Hdiffs by lia. lia.
    + injection Hrun as <- <- <- <-. lia.
    + destruct (compare_batches cfg fuel w1 ifile1 ifile2 start cap maxdiffs _ nc1)
        as [[[[e2 nc2] cs2] w2]|] eqn:Hrest; [|discriminate].
      injection Hrun as <- <- <- <-.
      apply entries_reported_app_r.
      apply (entries_reported_frame cfg w w1).
      { rewrite (frame_raw_inode _ _ Hf). reflexivity. }
      eapply (IH w1 _ nc1); try eassumption; try lia.
      destruct Hf as (_ & _ & Hd' & _). rewrite Hd'. exact HD.
Qed.

End Complete.

(** X5.  A comparison that succeeds without using up its capacity has
    missed nothing: for every differing entry block at or after the block
    of [start], every entry of the block from [start] on that is in use on
    the only side that has the block is reported with that side's handle,
    and every entry whose change time differs between two existing blocks
    is reported with a handle for each side on which it is in use. *)
Theorem compare_reports_every_entry :
  forall (cfg : nilfs_config) (fuel : nat) (w w' : world) (ifile1 ifile2 : ifile_id)
         (start maxchanges nc : Z) (changes : list nilfs_ifile_change),
    0 <= start <= ULONG_MAX ->
    layout_ok cfg ifile1 (bmap_diffs w ifile1 ifile2) ->
    ascending_keys 0 (bmap_diffs w ifile1 ifile2) = true ->
    0 < diffs_per_page cfg <= ULONG_MAX ->
    nilfs_ifile_compare cfg fuel w ifile1 ifile2 start maxchanges
      = Some (nc, changes, w') ->
    0 <= nc < maxchanges -> maxchanges <= ULONG_MAX ->
    forall d,
      In d (bmap_diffs w ifile1 ifile2) ->
      nilfs_palloc_entry_blkoff cfg ifile1 start <= key d ->
      entries_reported cfg w ifile1 ifile2 start d changes.
Proof.
  intros cfg fuel w w' ifile1 ifile2 start maxchanges nc changes
         Hstart Hlayout Hkeys Hpage Hrun Hnc Hcap d Hd Hkey.
  unfold nilfs_ifile_compare in Hrun.
  destruct (free_pages_ok w); cbn [negb] in Hrun.
  2:{ inversion Hrun; subst. pose proof (neg_errno_negative ENOMEM). lia. }
  destruct (compare_batches cfg fuel w ifile1 ifile2 start maxchanges (diffs_per_page cfg)
              (nilfs_palloc_entry_blkoff cfg ifile1 start) 0)
    as [[[[e nc0] cs] w1]|] eqn:Hb; [|discriminate].
  pose proof (compare_batches_count _ _ _ _ _ _ _ _ _ _ _ _ _ _ Hb) as Hcount.
  assert (Hres : nc0 = nc /\ cs = changes).
  { destruct e; inversion Hrun; subst; split; reflexivity. }
  destruct Hres as [-> ->].
  eapply (compare_batches_complete cfg ifile1 ifile2 start maxchanges
            (bmap_diffs w ifile1 ifile2) Hstart Hlayout Hcap Hkeys
            (diffs_per_page cfg) Hpage fuel w _ 0 e nc changes w1 eq_refl Hb);
    try lia; assumption.
Qed.

Lemma compare_reports_every_entry_witness :
  exists w',
    nilfs_ifile_compare ex_cfg 5 world_four_new 1 2 0 10
      = Some (4, [mk_change 1 None (Some (mk_bh 2 2));
                  mk_change 2 None (Some (mk_bh 2 2));
                  mk_change 6 None (Some (mk_bh 2 3));
                  mk_change 9 None (Some (mk_bh 2 5))], w') /\
    entries_reported ex_cfg world_four_new 1 2 0 (mk_diff 3 0 71)
      [mk_change 1 None (Some (mk_bh 2 2));
       mk_change 2 None (Some (mk_bh 2 2));
       mk_change 6 None (Some (mk_bh 2 3));
       mk_change 9 None (Some (mk_bh 2 5))].
Proof.
  assert (Hobs : exists w0,
            nilfs_ifile_compare ex_cfg 5 world_four_new 1 2 0 10
              = Some (4, [mk_change 1 None (Some (mk_bh 2 2));
                          mk_change 2 None (Some (mk_bh 2 2));
                          mk_change 6 None (Some (mk_bh 2 3));
                          mk_change 9 None (Some (mk_bh 2 5))], w0)).
  { eexists. vm_compute. reflexivity. }
  destruct Hobs as [w0 Hobs]. exists w0. split; [exact Hobs|].
  apply (compare_reports_every_entry ex_cfg 5 world_four_new w0 1 2 0 10 4 _).
  - unfold ULONG_MAX, ULONG_MODULUS. cbn. lia.
  - apply ex_layout_ok. reflexivity.
  - reflexivity.
  - unfold ULONG_MAX, ULONG_MODULUS. cbn. lia.
  - exact Hobs.
  - lia.
  - unfold ULONG_MAX, ULONG_MODULUS. cbn. lia.
  - cbn. auto.
  - cbn. lia.
Defined.

(** X7.  When no block at or after the block of [start] differs, the
    comparison asks the differ once and returns 0 with no record; it
    fetches no block and takes no reference. *)
Theorem compare_nothing_differs :
  forall (cfg : nilfs_config) (fuel : nat) (w : world) (ifile1 ifile2 : ifile_id)
         (start maxchanges : Z),
    free_pages_ok w = true ->
    bmap_fault w (nilfs_palloc_entry_blkoff cfg ifile1 start) = None ->
    Forall (fun d => key d < nilfs_palloc_entry_blkoff cfg ifile1 start)
           (bmap_diffs w ifile1 ifile2) ->
    exists w',
      nilfs_ifile_compare cfg (S fuel) w ifile1 ifile2 start maxchanges
        = Some (0, [], w') /\
      b_count w' = b_count w /\
      trace w' = trace w ++ [Ev_bmap_compare ifile1 ifile2
                                             (nilfs_palloc_entry_blkoff cfg ifile1 start) 0].
Proof.
  intros cfg fuel w ifile1 ifile2 start maxchanges Hpages Hfault Hbefore.
  unfold nilfs_ifile_compare. rewrite Hpages. cbn [negb compare_batches].
  unfold nilfs_bmap_compare. rewrite Hfault.
  assert (Hnone : filter (fun d => nilfs_palloc_entry_blkoff cfg ifile1 start <=? key d)
                         (bmap_diffs w ifile1 ifile2) = []).
  { induction Hbefore as [|d ds Hd _ IH]; [reflexivity|].
    cbn. replace (_ <=? key d) with false by (symmetry; apply Z.leb_gt; exact Hd).
    exact IH. }
  rewrite Hnone, firstn_nil. cbn.
  eexists. repeat split.
Qed.

Lemma compare_nothing_differs_witness :
  exists w',
    nilfs_ifile_compare ex_cfg 1 world_four_new 1 2 16 10 = Some (0, [], w') /\
    trace w' = [Ev_bmap_compare 1 2 8 0].
Proof.
  destruct (compare_nothing_differs ex_cfg 0 world_four_new 1 2 16 10)
    as [w' [Hrun [_ Htrace]]].
  - reflexivity.
  - reflexivity.
  - repeat constructor.
  - exists w'. split; [exact Hrun | exact Htrace].
Defined.

(** ** Snapshot diff: blocks that hold no entries *)

Lemma agree_refl : forall w, agree w w.
Proof. intros w. split; [|split; [|split]]; reflexivity. Qed.

Lemma agree_sym : forall w1 w2, agree w1 w2 -> agree w2 w1.
Proof.
  intros w1 w2 (Hr & Hf & Hb & Ht).
  split; [|split; [|split]]; symmetry; assumption.
Qed.

Lemma agree_trans : forall w1 w2 w3, agree w1 w2 -> agree w2 w3 -> agree w1 w3.
Proof.
  intros w1 w2 w3 (Hr & Hf & Hb & Ht) (Hr' & Hf' & Hb' & Ht').
  split; [|split; [|split]]; etransitivity; eassumption.
Qed.

Lemma agree_log : forall w1 w2 e, agree w1 w2 -> agree (log w1 e) (log w2 e).
Proof.
  intros w1 w2 e (Hr & Hf & Hb & Ht).
  split; [exact Hr|]. split; [exact Hf|]. split; [exact Hb|].
  cbn [trace log]. unfold other_calls in *. rewrite !filter_app, Ht. reflexivity.
Qed.

(** A call of the differ is the one event that [agree] looks past. *)
Lemma agree_log_differ :
  forall w1 w2 e, is_bmap_compare e = true -> agree w1 w2 -> agree (log w1 e) w2.
Proof.
  intros w1 w2 e He (Hr & Hf & Hb & Ht).
  split; [exact Hr|]. split; [exact Hf|]. split; [exact Hb|].
  cbn [trace log]. unfold other_calls in *. rewrite filter_app. cbn [filter].
  rewrite He. cbn [negb]. rewrite app_nil_r. exact Ht.
Qed.

Lemma agree_get_bh : forall w1 w2 bh, agree w1 w2 -> agree (get_bh w1 bh) (get_bh w2 bh).
Proof.
  intros w1 w2 bh (Hr & Hf & Hb & Ht).
  split; [exact Hr|]. split; [exact Hf|]. split; [|exact Ht].
  cbn [b_count get_bh set_b_count]. rewrite Hb. reflexivity.
Qed.

Lemma agree_brelse : forall w1 w2 o, agree w1 w2 -> agree (brelse w1 o) (brelse w2 o).
Proof.
  intros w1 w2 [h|] H; [|exact H].
  destruct H as (Hr & Hf & Hb & Ht).
  split; [exact Hr|]. split; [exact Hf|]. split; [|exact Ht].
  cbn [b_count brelse set_b_count]. rewrite Hb. reflexivity.
Qed.

Lemma agree_warn :
  forall w1 w2 ret, agree w1 w2 -> agree (warn_on_enoent w1 ret) (warn_on_enoent w2 ret).
Proof.
  intros w1 w2 ret H. unfold warn_on_enoent.
  destruct (ret =? neg_errno ENOENT); [apply agree_log|]; exact H.
Qed.

Lemma agree_release_changes :
  forall cs w1 w2 nc,
    agree w1 w2 -> agree (release_changes w1 cs nc) (release_changes w2 cs nc).
Proof.
  intros cs w1 w2 nc. unfold release_changes.
  generalize (firstn (Z.to_nat nc) cs). clear cs nc.
  intros l. revert w1 w2.
  induction l as [|c l IH]; intros w1 w2 H; [exact H|].
  cbn [fold_left]. apply IH. apply agree_brelse, agree_brelse, H.
Qed.

Lemma agree_get_entry_block :
  forall cfg w1 w2 ifile nr create,
    agree w1 w2 ->
    exists ret bh w1' w2',
      nilfs_palloc_get_entry_block cfg w1 ifile nr create = (ret, bh, w1') /\
      nilfs_palloc_get_entry_block cfg w2 ifile nr create = (ret, bh, w2') /\
      agree w1' w2'.
Proof.
  intros cfg w1 w2 ifile nr create H.
  unfold nilfs_palloc_get_entry_block.
  pose proof H as (_ & Hf & _). rewrite Hf.
  destruct (blk_fault w2 ifile (nilfs_palloc_entry_blkoff cfg ifile nr)) as [e|].
  - eexists _, _, _, _. split; [reflexivity|]. split; [reflexivity|].
    apply agree_log, H.
  - eexists _, _, _, _. split; [reflexivity|]. split; [reflexivity|].
    apply agree_get_bh, agree_log, H.
Qed.

Lemma same_scan_some :
  forall n cs w1 w2, agree w1 w2 -> same_scan (Some (n, cs, w1)) (Some (n, cs, w2)).
Proof. intros n cs w1 w2 H. split; [reflexivity|]. split; [reflexivity | exact H]. Qed.

Lemma same_loop_some :
  forall (exits : loop_exit -> loop_exit -> Prop) e1 e2 n cs w1 w2,
    exits e1 e2 -> agree w1 w2 ->
    same_loop exits (Some (e1, n, cs, w1)) (Some (e2, n, cs, w2)).
Proof.
  intros exits e1 e2 n cs w1 w2 He H.
  split; [exact He|]. split; [reflexivity|]. split; [reflexivity | exact H].
Qed.

Lemma agree_created_entry :
  forall ifile2 b w1 w2 i,
    agree w1 w2 ->
    match created_entry ifile2 b w1 i, created_entry ifile2 b w2 i with
    | Some (c1, w1'), Some (c2, w2') => c1 = c2 /\ agree w1' w2'
    | None, None => True
    | _, _ => False
    end.
Proof.
  intros ifile2 b w1 w2 i H. unfold created_entry.
  pose proof H as (Hr & _). rewrite Hr.
  destruct (negb (i_links_count (raw_inode w2 ifile2 i) =? 0)); [|exact I].
  split; [reflexivity | apply agree_get_bh, H].
Qed.

Lemma agree_deleted_entry :
  forall ifile1 b w1 w2 i,
    agree w1 w2 ->
    match deleted_entry ifile1 b w1 i, deleted_entry ifile1 b w2 i with
    | Some (c1, w1'), Some (c2, w2') => c1 = c2 /\ agree w1' w2'
    | None, None => True
    | _, _ => False
    end.
Proof.
  intros ifile1 b w1 w2 i H. unfold deleted_entry.
  pose proof H as (Hr & _). rewrite Hr.
  destruct (negb (i_links_count (raw_inode w2 ifile1 i) =? 0)); [|exact I].
  split; [reflexivity | apply agree_get_bh, H].
Qed.

Lemma agree_modified_entry :
  forall ifile1 ifile2 b1 b2 w1 w2 i,
    agree w1 w2 ->
    match modified_entry ifile1 ifile2 b1 b2 w1 i,
          modified_entry ifile1 ifile2 b1 b2 w2 i with
    | Some (c1, w1'), Some (c2, w2') => c1 = c2 /\ agree w1' w2'
    | None, None => True
    | _, _ => False
    end.
Proof.
  intros ifile1 ifile2 b1 b2 w1 w2 i H. unfold modified_entry.
  pose proof H as (Hr & _). rewrite Hr.
  destruct (negb (i_ctime_nsec (raw_inode w2 ifile1 i) =? i_ctime_nsec (raw_inode w2 ifile2 i))
            || negb (i_ctime (raw_inode w2 ifile1 i) =? i_ctime (raw_inode w2 ifile2 i)));
    [|exact I].
  destruct (negb (i_links_count (raw_inode w2 ifile1 i) =? 0)),
           (negb (i_links_count (raw_inode w2 ifile2 i) =? 0));
    (split; [reflexivity|]); repeat apply agree_get_bh; exact H.
Qed.

Section ScanAgree.

Variable body : world -> Z -> option (nilfs_ifile_change * world).
Hypothesis Hbody :
  forall w1 w2 i,
    agree w1 w2 ->
    match body w1 i, body w2 i with
    | Some (c1, w1'), Some (c2, w2') => c1 = c2 /\ agree w1' w2'
    | None, None => True
    | _, _ => False
    end.

Lemma agree_scan_entries :
  forall fuel end_ mc w1 w2 ino n,
    agree w1 w2 ->
    same_scan (scan_entries fuel body end_ mc w1 ino n)
              (scan_entries fuel body end_ mc w2 ino n).
Proof.
  induction fuel as [|fuel IH]; intros end_ mc w1 w2 ino n H; cbn [scan_entries].
  - destruct (ino <=? end_); [exact I | apply same_scan_some, H].
  - destruct (ino <=? end_); [|apply same_scan_some, H].
    pose proof (Hbody w1 w2 ino H) as Hb.
    destruct (body w1 ino) as [[c1 w1']|], (body w2 ino) as [[c2 w2']|];
      try contradiction.
    + destruct Hb as [<- H'].
      destruct (to_ulong (n + 1) =? mc); [apply same_scan_some, H'|].
      pose proof (IH end_ mc w1' w2' (to_ulong (ino + 1)) (n + 1) H') as Hrest.
      destruct (scan_entries fuel body end_ mc w1' (to_ulong (ino + 1)) (n + 1))
        as [[[n1 cs1] w1'']|],
          (scan_entries fuel body end_ mc w2' (to_ulong (ino + 1)) (n + 1))
        as [[[n2 cs2] w2'']|]; try contradiction; [|exact I].
      destruct Hrest as (<- & <- & H''). apply same_scan_some, H''.
    + apply IH, H.
Qed.

End ScanAgree.

(** What a block scan returns and does depends on the world only as far
    as [agree] goes. *)
Lemma agree_compare_block :
  forall cfg w1 w2 ifile1 ifile2 start d mc,
    agree w1 w2 ->
    same_scan (nilfs_ifile_compare_block cfg w1 ifile1 ifile2 start d mc)
              (nilfs_ifile_compare_block cfg w2 ifile1 ifile2 start d mc).
Proof.
  intros cfg w1 w2 ifile1 ifile2 start d mc H.
  unfold nilfs_ifile_compare_block.
  destruct (nilfs_palloc_block_type cfg ifile1 (key d)) as [t nr].
  destruct t; [|apply same_scan_some, H].
  set (ino := Z.max (to_ulong nr) (to_ulong start)).
  set (end_ := to_ulong (nr + mi_entries_per_block cfg ifile1 - 1)).
  destruct (end_ <? ino); [apply same_scan_some, H|].
  assert (H1 : exists ret ibh1 w1' w2',
            (if negb (ptr1 d =? NILFS_BMAP_INVALID_PTR cfg)
             then nilfs_palloc_get_entry_block cfg w1 ifile1 nr false
             else (0, None, w1)) = (ret, ibh1, w1') /\
            (if negb (ptr1 d =? NILFS_BMAP_INVALID_PTR cfg)
             then nilfs_palloc_get_entry_block cfg w2 ifile1 nr false
             else (0, None, w2)) = (ret, ibh1, w2') /\
            agree w1' w2').
  { destruct (negb (ptr1 d =? NILFS_BMAP_INVALID_PTR cfg)).
    - apply agree_get_entry_block, H.
    - exists 0, None, w1, w2. split; [reflexivity|]. split; [reflexivity | exact H]. }
  destruct H1 as (ret1 & ibh1 & w1a & w2a & -> & -> & Ha).
  destruct (ret1 <? 0); [apply same_scan_some, agree_warn, Ha|].
  assert (H2 : exists ret ibh2 w1' w2',
            (if negb (ptr2 d =? NILFS_BMAP_INVALID_PTR cfg)
             then nilfs_palloc_get_entry_block cfg w1a ifile2 nr false
             else (0, None, w1a)) = (ret, ibh2, w1') /\
            (if negb (ptr2 d =? NILFS_BMAP_INVALID_PTR cfg)
             then nilfs_palloc_get_entry_block cfg w2a ifile2 nr false
             else (0, None, w2a)) = (ret, ibh2, w2') /\
            agree w1' w2').
  { destruct (negb (ptr2 d =? NILFS_BMAP_INVALID_PTR cfg)).
    - apply agree_get_entry_block, Ha.
    - exists 0, None, w1a, w2a. split; [reflexivity|]. split; [reflexivity | exact Ha]. }
  destruct H2 as (ret2 & ibh2 & w1b & w2b & -> & -> & Hb).
  destruct (ret2 <? 0); [apply same_scan_some, agree_brelse, agree_warn, Hb|].
  assert (Hrel : forall r1 r2,
            same_scan r1 r2 ->
            same_scan
              match r1 with
              | Some (n, cs, w) => Some (n, cs, brelse (brelse w ibh1) ibh2)
              | None => None
              end
              match r2 with
              | Some (n, cs, w) => Some (n, cs, brelse (brelse w ibh1) ibh2)
              | None => None
              end).
  { intros [[[n1 cs1] x1]|] [[[n2 cs2] x2]|] Hs; try contradiction; [|exact I].
    destruct Hs as (<- & <- & Hx). apply same_scan_some, agree_brelse, agree_brelse, Hx. }
  apply Hrel.
  destruct ibh1 as [b1|], ibh2 as [b2|].
  - apply agree_scan_entries; [|exact Hb].
    intros x1 x2 i Hx. apply agree_modified_entry, Hx.
  - apply agree_scan_entries; [|exact Hb].
    intros x1 x2 i Hx. apply agree_deleted_entry, Hx.
  - apply agree_scan_entries; [|exact Hb].
    intros x1 x2 i Hx. apply agree_created_entry, Hx.
  - apply same_scan_some, Hb.
Qed.

Lemma agree_compare_diffs :
  forall cfg ifile1 ifile2 start mc ds w1 w2 nc,
    agree w1 w2 ->
    same_loop eq (compare_diffs cfg w1 ifile1 ifile2 start mc ds nc)
                 (compare_diffs cfg w2 ifile1 ifile2 start mc ds nc).
Proof.
  intros cfg ifile1 ifile2 start mc.
  induction ds as [|d ds IH]; intros w1 w2 nc H; cbn [compare_diffs].
  - apply same_loop_some; [reflexivity | exact H].
  - pose proof (agree_compare_block cfg w1 w2 ifile1 ifile2 start d
                  (to_ulong (mc - nc)) H) as Hb.
    destruct (nilfs_ifile_compare_block cfg w1 ifile1 ifile2 start d (to_ulong (mc - nc)))
      as [[[n1 cs1] w1']|],
        (nilfs_ifile_compare_block cfg w2 ifile1 ifile2 start d (to_ulong (mc - nc)))
      as [[[n2 cs2] w2']|]; try contradiction; [|exact I].
    destruct Hb as (<- & <- & H').
    destruct (n1 <? 0); [apply same_loop_some; [reflexivity | exact H']|].
    destruct (to_ulong (nc + n1) =? mc); [apply same_loop_some; [reflexivity | exact H']|].
    pose proof (IH w1' w2' (nc + n1) H') as Hrest.
    destruct (compare_diffs cfg w1' ifile1 ifile2 start mc ds (nc + n1))
      as [[[[e1 m1] cs1'] w1'']|],
        (compare_diffs cfg w2' ifile1 ifile2 start mc ds (nc + n1))
      as [[[[e2 m2] cs2'] w2'']|]; try contradiction; [|exact I].
    destruct Hrest as (<- & <- & <- & H'').
    apply same_loop_some; [reflexivity | exact H''].
Qed.

(** A block that holds no entries is passed over: no record, no call, and
    the loop goes on unless [nc] equals the capacity. *)
Lemma compare_block_other :
  forall cfg w ifile1 ifile2 start d mc,
    entry_block cfg ifile1 d = false ->
    nilfs_ifile_compare_block cfg w ifile1 ifile2 start d mc = Some (0, [], w).
Proof.
  intros cfg w ifile1 ifile2 start d mc Hother.
  unfold entry_block in Hother. unfold nilfs_ifile_compare_block.
  destruct (nilfs_palloc_block_type cfg ifile1 (key d)) as [t nr].
  destruct t; [discriminate Hother | reflexivity].
Qed.

Lemma compare_diffs_other :
  forall cfg w ifile1 ifile2 start mc d ds nc,
    entry_block cfg ifile1 d = false ->
    to_ulong nc <> mc ->
    compare_diffs cfg w ifile1 ifile2 start mc (d :: ds) nc
    = compare_diffs cfg w ifile1 ifile2 start mc ds nc.
Proof.
  intros cfg w ifile1 ifile2 start mc d ds nc Hother Hroom.
  cbn [compare_diffs]. rewrite (compare_block_other _ _ _ _ _ _ _ Hother).
  cbn [Z.ltb Z.compare]. rewrite Z.add_0_r.
  destruct (to_ulong nc =? mc) eqn:E; [apply Z.eqb_eq in E; contradiction|].
  destruct (compare_diffs cfg w ifile1 ifile2 start mc ds nc)
    as [[[[e nc'] cs] w']|]; reflexivity.
Qed.

(** The loop over a list of differences from which blocks without entries
    have been taken out does what the loop over the whole list does. *)
Lemma compare_diffs_report_only :
  forall cfg ifile1 ifile2 start mc keep ds w1 w2 nc,
    (forall d, In d ds -> keep d = false -> entry_block cfg ifile1 d = false) ->
    agree w1 w2 ->
    to_ulong nc <> mc ->
    same_loop eq (compare_diffs cfg w1 ifile1 ifile2 start mc ds nc)
                 (compare_diffs cfg w2 ifile1 ifile2 start mc (filter keep ds) nc).
Proof.
  intros cfg ifile1 ifile2 start mc keep.
  induction ds as [|d ds IH]; intros w1 w2 nc Hkeep H Hroom.
  - cbn. apply same_loop_some; [reflexivity | exact H].
  - assert (Hkeep' : forall x, In x ds -> keep x = false -> entry_block cfg ifile1 x = false).
    { intros x Hx. apply Hkeep. right. exact Hx. }
    cbn [filter]. destruct (keep d) eqn:Hk.
    + cbn [compare_diffs].
      pose proof (agree_compare_block cfg w1 w2 ifile1 ifile2 start d
                    (to_ulong (mc - nc)) H) as Hb.
      destruct (nilfs_ifile_compare_block cfg w1 ifile1 ifile2 start d (to_ulong (mc - nc)))
        as [[[n1 cs1] w1']|],
          (nilfs_ifile_compare_block cfg w2 ifile1 ifile2 start d (to_ulong (mc - nc)))
        as [[[n2 cs2] w2']|]; try contradiction; [|exact I].
      destruct Hb as (<- & <- & H').
      destruct (n1 <? 0); [apply same_loop_some; [reflexivity | exact H']|].
      destruct (to_ulong (nc + n1) =? mc) eqn:E;
        [apply same_loop_some; [reflexivity | exact H']|].
      apply Z.eqb_neq in E.
      pose proof (IH w1' w2' (nc + n1) Hkeep' H' E) as Hrest.
      destruct (compare_diffs cfg w1' ifile1 ifile2 start mc ds (nc + n1))
        as [[[[e1 m1] cs1'] w1'']|],
          (compare_diffs cfg w2' ifile1 ifile2 start mc (filter keep ds) (nc + n1))
        as [[[[e2 m2] cs2'] w2'']|]; try contradiction; [|exact I].
      destruct Hrest as (<- & <- & <- & H'').
      apply same_loop_some; [reflexivity | exact H''].
    + rewrite compare_diffs_other;
        [|apply Hkeep; [left; reflexivity | exact Hk] | exact Hroom].
      apply IH; assumption.
Qed.

(** The loop over two batches in a row is the loop over both. *)
Lemma compare_diffs_app :
  forall cfg ifile1 ifile2 start mc l1 l2 w nc,
    compare_diffs cfg w ifile1 ifile2 start mc (l1 ++ l2) nc =
    match compare_diffs cfg w ifile1 ifile2 start mc l1 nc with
    | Some (Exit_next, nc1, cs1, w1) =>
        match compare_diffs cfg w1 ifile1 ifile2 start mc l2 nc1 with
        | Some (e, nc2, cs2, w2) => Some (e, nc2, cs1 ++ cs2, w2)
        | None => None
        end
    | r => r
    end.
Proof.
  intros cfg ifile1 ifile2 start mc.
  induction l1 as [|d l1 IH]; intros l2 w nc; cbn [app compare_diffs].
  - destruct (compare_diffs cfg w ifile1 ifile2 start mc l2 nc)
      as [[[[e n] cs] w']|]; reflexivity.
  - destruct (nilfs_ifile_compare_block cfg w ifile1 ifile2 start d (to_ulong (mc - nc)))
      as [[[n cs] w']|]; [|reflexivity].
    destruct (n <? 0); [reflexivity|].
    destruct (to_ulong (nc + n) =? mc); [reflexivity|].
    rewrite IH.
    destruct (compare_diffs cfg w' ifile1 ifile2 start mc l1 (nc + n))
      as [[[[e n1] cs1] w1]|]; [|reflexivity].
    destruct e; try reflexivity.
    destruct (compare_diffs cfg w1 ifile1 ifile2 start mc l2 n1)
      as [[[[e2 n2] cs2] w2]|]; [|reflexivity].
    rewrite app_assoc. reflexivity.
Qed.

(** *** What the differ hands out behind a batch *)

Lemma filter_keys_below :
  forall (l : list nilfs_bmap_diff) b,
    Forall (fun d => key d < b) l -> filter (fun d => b <=? key d) l = [].
Proof.
  induction l as [|d l IH]; intros b Hall; [reflexivity|].
  inversion Hall as [|? ? Hd Hl]; subst. cbn [filter].
  replace (b <=? key d) with false by (symmetry; apply Z.leb_gt; exact Hd).
  apply IH, Hl.
Qed.

Lemma filter_keys_from :
  forall (l : list nilfs_bmap_diff) b,
    ascending_keys b l = true -> filter (fun d => b <=? key d) l = l.
Proof.
  induction l as [|d l IH]; intros b Hasc; [reflexivity|].
  apply ascending_keys_cons in Hasc. destruct Hasc as (H1 & H2 & H3).
  cbn [filter].
  replace (b <=? key d) with true by (symmetry; apply Z.leb_le; exact H1).
  f_equal. apply IH. eapply ascending_keys_weaken; [|exact H3]. lia.
Qed.

Lemma filter_keys_twice :
  forall (l : list nilfs_bmap_diff) b b',
    b <= b' ->
    filter (fun d => b' <=? key d) (filter (fun d => b <=? key d) l)
    = filter (fun d => b' <=? key d) l.
Proof.
  induction l as [|d l IH]; intros b b' Hle; [reflexivity|].
  cbn [filter]. destruct (b <=? key d) eqn:E1.
  - cbn [filter]. destruct (b' <=? key d); [f_equal|]; apply IH, Hle.
  - replace (b' <=? key d) with false by (symmetry; apply Z.leb_gt; apply Z.leb_gt in E1; lia).
    apply IH, Hle.
Qed.

Lemma ascending_keys_app :
  forall (l1 l2 : list nilfs_bmap_diff) lo d0,
    l1 <> [] ->
    ascending_keys lo (l1 ++ l2) = true ->
    ascending_keys (key (last l1 d0) + 1) l2 = true.
Proof.
  induction l1 as [|d l1 IH]; intros l2 lo d0 Hne Hasc; [congruence|].
  cbn [app] in Hasc. apply ascending_keys_cons in Hasc. destruct Hasc as (H1 & H2 & H3).
  destruct l1 as [|d' l1]; [exact H3|].
  change (last (d :: d' :: l1) d0) with (last (d' :: l1) d0).
  eapply IH; [discriminate | exact H3].
Qed.

Lemma filter_behind_batch :
  forall (D : list nilfs_bmap_diff) blkoff m d0,
    ascending_keys 0 D = true ->
    let L := filter (fun d => blkoff <=? key d) D in
    firstn m L <> [] ->
    filter (fun d => key (last (firstn m L) d0) + 1 <=? key d) D = skipn m L.
Proof.
  intros D blkoff m d0 Hkeys L Hne.
  assert (HascL : ascending_keys blkoff L = true).
  { eapply ascending_keys_filter; [|exact Hkeys]. lia. }
  assert (Hlast : blkoff <= key (last (firstn m L) d0)).
  { apply (ascending_keys_in (firstn m L) blkoff);
      [apply ascending_keys_firstn, HascL | apply last_in, Hne]. }
  rewrite <- (filter_keys_twice D blkoff) by lia.
  change (filter (fun d => blkoff <=? key d) D) with L.
  transitivity (filter (fun d => key (last (firstn m L) d0) + 1 <=? key d)
                       (firstn m L ++ skipn m L)).
  { rewrite firstn_skipn. reflexivity. }
  rewrite filter_app.
  rewrite filter_keys_below
    by (apply (ascending_keys_last _ blkoff), ascending_keys_firstn, HascL).
  cbn [app]. apply filter_keys_from.
  apply (ascending_keys_app (firstn m L) (skipn m L) blkoff d0 Hne).
  rewrite firstn_skipn. exact HascL.
Qed.

Lemma ascending_keys_keep :
  forall (keep : nilfs_bmap_diff -> bool) l lo,
    ascending_keys lo l = true -> ascending_keys lo (filter keep l) = true.
Proof.
  intros keep. induction l as [|d l IH]; intros lo Hasc; [reflexivity|].
  apply ascending_keys_cons in Hasc. destruct Hasc as (H1 & H2 & H3).
  cbn [filter]. destruct (keep d).
  - apply ascending_keys_cons. split; [exact H1|]. split; [exact H2|]. apply IH, H3.
  - eapply ascending_keys_weaken; [|apply IH, H3]. lia.
Qed.

Lemma filter_keep_keys :
  forall (keep : nilfs_bmap_diff -> bool) (l : list nilfs_bmap_diff) b,
    filter keep (filter (fun d => b <=? key d) l)
    = filter (fun d => b <=? key d) (filter keep l).
Proof.
  intros keep l b. induction l as [|d l IH]; [reflexivity|].
  cbn [filter]. destruct (b <=? key d) eqn:E1, (keep d) eqn:E2; cbn [filter];
    rewrite ?E1, ?E2, IH; reflexivity.
Qed.

Lemma layout_ok_incl :
  forall cfg ifile D D', incl D' D -> layout_ok cfg ifile D -> layout_ok cfg ifile D'.
Proof.
  intros cfg ifile D D' Hincl (Hepb & Hrange & Hmono).
  split; [exact Hepb|]. split.
  - intros d nr Hd. apply Hrange, Hincl, Hd.
  - intros d1 d2 nr1 nr2 H1 H2. apply Hmono; apply Hincl; assumption.
Qed.

(** *** The batches of the differ, laid end to end *)

Lemma same_loop_trans :
  forall (R1 R2 R3 : loop_exit -> loop_exit -> Prop) r1 r2 r3,
    (forall a b c, R1 a b -> R2 b c -> R3 a c) ->
    same_loop R1 r1 r2 -> same_loop R2 r2 r3 -> same_loop R3 r1 r3.
Proof.
  intros R1 R2 R3 [[[[e1 n1] cs1] w1]|] [[[[e2 n2] cs2] w2]|] [[[[e3 n3] cs3] w3]|]
         HR H12 H23; try contradiction; [|exact I].
  destruct H12 as (He & -> & -> & Hw), H23 as (He' & -> & -> & Hw').
  split; [eapply HR; eassumption|]. split; [reflexivity|]. split; [reflexivity|].
  eapply agree_trans; eassumption.
Qed.

Lemma same_loop_sym :
  forall (R : loop_exit -> loop_exit -> Prop) r1 r2,
    (forall a b, R a b -> R b a) ->
    same_loop R r1 r2 -> same_loop R r2 r1.
Proof.
  intros R [[[[e1 n1] cs1] w1]|] [[[[e2 n2] cs2] w2]|] HR H; try contradiction; [|exact I].
  destruct H as (He & -> & -> & Hw).
  split; [apply HR, He|]. split; [reflexivity|]. split; [reflexivity|].
  apply agree_sym, Hw.
Qed.

Section Flat.

Variables (cfg : nilfs_config) (ifile1 ifile2 : ifile_id).
Variables (start mc maxdiffs : Z) (D : list nilfs_bmap_diff).
Hypothesis Hmaxdiffs : 0 < maxdiffs <= ULONG_MAX.
Hypothesis Hkeys : ascending_keys 0 D = true.

(** With a differ that does not fail, the do-while loop is one pass over
    all differences at or after [blkoff]: it returns the same records and
    the same count, fails if and only if the pass fails, and makes the
    same calls apart from those of the differ. *)
Lemma compare_batches_flat :
  forall fuel w blkoff nc,
    bmap_diffs w ifile1 ifile2 = D ->
    (forall b, bmap_fault w b = None) ->
    (length (filter (fun d => (blkoff <=? key d)%Z) D) < fuel)%nat ->
    same_loop same_failed
      (compare_batches cfg fuel w ifile1 ifile2 start mc maxdiffs blkoff nc)
      (compare_diffs cfg w ifile1 ifile2 start mc
                     (filter (fun d => blkoff <=? key d) D) nc).
Proof.
  induction fuel as [|fuel IH]; intros w blkoff nc HD Hnf Hfuel; [lia|].
  cbn [compare_batches]. unfold nilfs_bmap_compare. rewrite Hnf, HD.
  set (L := filter (fun d => blkoff <=? key d) D) in *.
  set (m := Z.to_nat maxdiffs).
  set (ev := Ev_bmap_compare ifile1 ifile2 blkoff (Z.of_nat (length (firstn m L)))).
  assert (Hag0 : agree (log w ev) w) by (apply agree_log_differ; [reflexivity | apply agree_refl]).
  assert (Hnd : (Z.of_nat (length (firstn m L)) <? 0) = false) by (apply Z.ltb_ge; lia).
  rewrite Hnd.
  destruct (Z.of_nat (length (firstn m L)) =? 0) eqn:Hempty.
  { apply Z.eqb_eq in Hempty.
    assert (HL : L = []).
    { destruct L as [|d L']; [reflexivity|].
      exfalso. rewrite length_firstn in Hempty. cbn [length] in Hempty. lia. }
    rewrite HL. cbn [compare_diffs].
    apply same_loop_some; [reflexivity | exact Hag0]. }
  apply Z.eqb_neq in Hempty.
  assert (Hne : firstn m L <> []).
  { intros E. rewrite E in Hempty. cbn in Hempty. lia. }
  replace (compare_diffs cfg w ifile1 ifile2 start mc L nc)
    with (compare_diffs cfg w ifile1 ifile2 start mc (firstn m L ++ skipn m L) nc)
    by (rewrite firstn_skipn; reflexivity).
  rewrite compare_diffs_app.
  pose proof (agree_compare_diffs cfg ifile1 ifile2 start mc (firstn m L)
                (log w ev) w nc Hag0) as Hsim.
  destruct (compare_diffs cfg (log w ev) ifile1 ifile2 start mc (firstn m L) nc)
    as [[[[e1 n1] cs1] w1]|] eqn:Hrun1,
      (compare_diffs cfg w ifile1 ifile2 start mc (firstn m L) nc)
    as [[[[e2 n2] cs2] w2]|] eqn:Hrun2; try contradiction; [|exact I].
  destruct Hsim as (<- & <- & <- & Hag).
  destruct e1;
    [apply same_loop_some; [reflexivity | exact Hag]
    |apply same_loop_some; [reflexivity | exact Hag]|].
  rewrite (to_ulong_small (Z.of_nat (length (firstn m L))))
    by (rewrite length_firstn; lia).
  set (d0 := mk_diff 0 0 0).
  destruct (Z.of_nat (length (firstn m L)) =? maxdiffs) eqn:Hfull.
  - apply Z.eqb_eq in Hfull.
    assert (Hlast : 0 <= key (last (firstn m L) d0) < ULONG_MAX).
    { apply (ascending_keys_in D 0); [exact Hkeys|].
      assert (Hin := last_in (firstn m L) d0 Hne).
      apply in_firstn in Hin. apply filter_In in Hin. tauto. }
    rewrite (to_ulong_small (key (last (firstn m L) d0) + 1)) by lia.
    destruct (compare_diffs_acct _ _ _ _ _ _ _ _ _ _ _ _ Hrun1) as (Hframe & _).
    destruct Hframe as (_ & _ & Hd & Hbf & _).
    pose proof (IH w1 (key (last (firstn m L) d0) + 1) n1) as Hrec.
    assert (Hbehind :
              filter (fun d => key (last (firstn m L) d0) + 1 <=? key d) D = skipn m L)
      by (apply (filter_behind_batch D blkoff m d0 Hkeys Hne)).
    rewrite Hbehind in Hrec.
    assert (Hrec' :
              same_loop same_failed
                (compare_batches cfg fuel w1 ifile1 ifile2 start mc maxdiffs
                                 (key (last (firstn m L) d0) + 1) n1)
                (compare_diffs cfg w1 ifile1 ifile2 start mc (skipn m L) n1)).
    { apply Hrec.
      - rewrite Hd. cbn [bmap_diffs log]. exact HD.
      - intros b. rewrite Hbf. cbn [bmap_fault log]. apply Hnf.
      - rewrite length_skipn.
        assert (length (firstn m L) <> 0)%nat by lia.
        rewrite length_firstn in H. lia. }
    pose proof (agree_compare_diffs cfg ifile1 ifile2 start mc (skipn m L) w1 w2 n1 Hag)
      as Hrest.
    assert (Hall := same_loop_trans same_failed eq same_failed _ _ _
                      ltac:(intros a b c Hab <-; exact Hab) Hrec' Hrest).
    destruct (compare_batches cfg fuel w1 ifile1 ifile2 start mc maxdiffs
                              (key (last (firstn m L) d0) + 1) n1)
      as [[[[ea na] csa] wa]|],
        (compare_diffs cfg w2 ifile1 ifile2 start mc (skipn m L) n1)
      as [[[[eb nb] csb] wb]|]; try contradiction; [|exact I].
    destruct Hall as (He & -> & -> & Hw).
    apply same_loop_some; assumption.
  - apply Z.eqb_neq in Hfull.
    assert (Hrest : skipn m L = []).
    { apply skipn_all2. rewrite length_firstn in Hfull. lia. }
    rewrite Hrest. cbn [compare_diffs]. rewrite app_nil_r.
    apply same_loop_some; [reflexivity | exact Hag].
Qed.

End Flat.

Lemma agree_report_only : forall keep w, agree w (report_only keep w).
Proof. intros keep w. split; [|split; [|split]]; reflexivity. Qed.

(** C10, as the code has it.  [nilfs_ifile_compare_block] returns 0 for a
    differing block that the allocator does not classify as an entry
    block, with no record stored and the world untouched.  When
    [maxchanges] is not 0, [nilfs_ifile_compare] goes on behind such a
    block with the next differing block: with a differ that does not fail
    and lists the differing blocks by ascending offset, the comparison
    returns the value and the records, leaves the reference counts and
    makes the block fetches of a comparison to which the differ does not
    report the blocks without entries that [keep] leaves out, wherever in
    a batch such a block stands.  When [maxchanges] is 0 and the first
    differing block at or after the block of [start] is such a block, the
    test [nc == maxchanges] behind it holds: the comparison returns 0 with
    no record after the one call of the differ, whatever differs behind
    the block. *)
Theorem compare_skips_other_block :
  forall (cfg : nilfs_config) (w : world) (ifile1 ifile2 : ifile_id)
         (start maxchanges : Z) (fuel : nat) (keep : nilfs_bmap_diff -> bool),
    let D := bmap_diffs w ifile1 ifile2 in
    let blkoff := nilfs_palloc_entry_blkoff cfg ifile1 start in
    (forall b, bmap_fault w b = None) ->
    0 < diffs_per_page cfg <= ULONG_MAX ->
    0 <= start <= ULONG_MAX ->
    layout_ok cfg ifile1 D ->
    ascending_keys 0 D = true ->
    (length D < fuel)%nat ->
    (forall d, In d D -> keep d = false -> entry_block cfg ifile1 d = false) ->
    (forall d w0 mc,
       entry_block cfg ifile1 d = false ->
       nilfs_ifile_compare_block cfg w0 ifile1 ifile2 start d mc = Some (0, [], w0)) /\
    (maxchanges <> 0 ->
     exists ret changes w1 w2,
       nilfs_ifile_compare cfg fuel w ifile1 ifile2 start maxchanges
         = Some (ret, changes, w1) /\
       nilfs_ifile_compare cfg fuel (report_only keep w) ifile1 ifile2 start maxchanges
         = Some (ret, changes, w2) /\
       b_count w1 = b_count w2 /\
       other_calls (trace w1) = other_calls (trace w2)) /\
    (maxchanges = 0 ->
     free_pages_ok w = true ->
     forall d rest,
       filter (fun x => blkoff <=? key x) D = d :: rest ->
       entry_block cfg ifile1 d = false ->
       exists w',
         nilfs_ifile_compare cfg fuel w ifile1 ifile2 start maxchanges = Some (0, [], w') /\
         trace w' =
           trace w ++
           [Ev_bmap_compare ifile1 ifile2 blkoff
              (Z.of_nat (length (firstn (Z.to_nat (diffs_per_page cfg)) (d :: rest))))] /\
         b_count w' = b_count w).
Proof.
  intros cfg w ifile1 ifile2 start maxchanges fuel keep D blkoff
         Hnf Hpage Hstart Hlayout Hkeys Hfuel Hkeep.
  split; [intros d w0 mc Hother; apply compare_block_other, Hother|].
  split.
  - intros Hroom. unfold nilfs_ifile_compare.
    change (free_pages_ok (report_only keep w)) with (free_pages_ok w).
    destruct (free_pages_ok w); cbn [negb].
    2:{ exists (neg_errno ENOMEM), [], w, (report_only keep w).
        split; [reflexivity|]. split; [reflexivity|]. split; reflexivity. }
    fold blkoff.
    set (w' := report_only keep w).
    set (ge := fun d : nilfs_bmap_diff => blkoff <=? key d).
    assert (H1 : same_loop same_failed
                   (compare_batches cfg fuel w ifile1 ifile2 start maxchanges
                                    (diffs_per_page cfg) blkoff 0)
                   (compare_diffs cfg w ifile1 ifile2 start maxchanges (filter ge D) 0)).
    { apply (compare_batches_flat cfg ifile1 ifile2 start maxchanges (diffs_per_page cfg) D
               Hpage Hkeys fuel w blkoff 0 eq_refl Hnf).
      pose proof (filter_length_le (fun d => blkoff <=? key d) D). lia. }
    assert (H2 : same_loop eq
                   (compare_diffs cfg w ifile1 ifile2 start maxchanges (filter ge D) 0)
                   (compare_diffs cfg w' ifile1 ifile2 start maxchanges
                                  (filter ge (filter keep D)) 0)).
    { unfold ge. rewrite <- filter_keep_keys.
      apply compare_diffs_report_only.
      - intros d Hd. apply filter_In in Hd. apply Hkeep, Hd.
      - apply agree_report_only.
      - change (to_ulong 0) with 0. intros E. apply Hroom. symmetry. exact E. }
    assert (H3 : same_loop same_failed
                   (compare_batches cfg fuel w' ifile1 ifile2 start maxchanges
                                    (diffs_per_page cfg) blkoff 0)
                   (compare_diffs cfg w' ifile1 ifile2 start maxchanges
                                  (filter ge (filter keep D)) 0)).
    { apply (compare_batches_flat cfg ifile1 ifile2 start maxchanges (diffs_per_page cfg)
               (filter keep D) Hpage (ascending_keys_keep keep D 0 Hkeys)
               fuel w' blkoff 0 eq_refl Hnf).
      pose proof (filter_length_le (fun d => blkoff <=? key d) (filter keep D)).
      pose proof (filter_length_le keep D). lia. }
    assert (H12 := same_loop_trans same_failed eq same_failed _ _ _
                     ltac:(intros a b c Hab <-; exact Hab) H1 H2).
    assert (Hsym : forall a b, same_failed a b -> same_failed b a)
      by (intros a b Hab; symmetry; exact Hab).
    assert (Hall := same_loop_trans same_failed same_failed same_failed _ _ _
                      ltac:(intros a b c Hab Hbc; unfold same_failed in *; congruence)
                      H12 (same_loop_sym same_failed _ _ Hsym H3)).
    destruct (compare_batches_spec cfg ifile1 ifile2 start maxchanges D Hstart Hlayout
                (diffs_per_page cfg) fuel w blkoff 0 eq_refl Hkeys)
      as (e & nc & cs & wa & Hrun & _).
    { pose proof (filter_length_le (fun d => blkoff <=? key d) D). lia. }
    rewrite Hrun in Hall |- *.
    destruct (compare_batches cfg fuel w' ifile1 ifile2 start maxchanges
                              (diffs_per_page cfg) blkoff 0)
      as [[[[e' nc'] cs'] wb]|]; [|contradiction].
    destruct Hall as (He & <- & <- & Hag).
    assert (Hrel : agree (release_changes wa cs nc) (release_changes wb cs nc))
      by (apply agree_release_changes, Hag).
    destruct e, e'; try discriminate He;
      eexists _, _, _, _; (split; [reflexivity|]); (split; [reflexivity|]);
      first [ destruct Hag as (_ & _ & Hb & Ht); split; [exact Hb | exact Ht]
            | destruct Hrel as (_ & _ & Hb & Ht); split; [exact Hb | exact Ht] ].
  - intros -> Hok d rest HL Hother.
    unfold nilfs_ifile_compare. rewrite Hok. cbn [negb]. fold blkoff.
    destruct fuel as [|fuel]; [cbn in Hfuel; lia|].
    cbn [compare_batches]. unfold nilfs_bmap_compare. rewrite Hnf.
    fold D. rewrite HL.
    remember (firstn (Z.to_nat (diffs_per_page cfg)) (d :: rest)) as batch eqn:Hbatch.
    assert (Hb : exists tl, batch = d :: tl).
    { destruct (Z.to_nat (diffs_per_page cfg)) as [|m] eqn:Hm; [lia|].
      cbn [firstn] in Hbatch. eexists. exact Hbatch. }
    destruct Hb as [tl Hb].
    assert (Hlen : 0 < Z.of_nat (length batch)) by (rewrite Hb; cbn [length]; lia).
    destruct (Z.of_nat (length batch) <? 0) eqn:E1; [lia|].
    destruct (Z.of_nat (length batch) =? 0) eqn:E2; [lia|].
    rewrite Hb. cbn [compare_diffs].
    rewrite (compare_block_other _ _ _ _ _ _ _ Hother).
    cbn [Z.ltb Z.compare Z.add]. change (to_ulong 0 =? 0) with true. cbn iota.
    eexists. split; [reflexivity|]. split; reflexivity.
Qed.

Lemma compare_skips_other_block_witness :
  (exists w1 w2,
     nilfs_ifile_compare ex_cfg 5 world_bitmap_between 1 2 0 10
       = Some (3, [mk_change 1 None (Some (mk_bh 2 2));
                   mk_change 2 None (Some (mk_bh 2 2));
                   mk_change 9 None (Some (mk_bh 2 5))], w1) /\
     nilfs_ifile_compare ex_cfg 5 (report_only (entry_block ex_cfg 1) world_bitmap_between)
                         1 2 0 10
       = Some (3, [mk_change 1 None (Some (mk_bh 2 2));
                   mk_change 2 None (Some (mk_bh 2 2));
                   mk_change 9 None (Some (mk_bh 2 5))], w2) /\
     b_count w1 = b_count w2 /\
     other_calls (trace w1) = other_calls (trace w2)) /\
  (exists w',
     nilfs_ifile_compare ex_cfg 5 world_bitmap_first 1 2 0 0 = Some (0, [], w') /\
     trace w' = [Ev_bmap_compare 1 2 2 2]).
Proof.
  split.
  - destruct (compare_skips_other_block ex_cfg world_bitmap_between 1 2 0 10 5
                (entry_block ex_cfg 1)) as (_ & Hgo & _).
    + intros b. reflexivity.
    + unfold ULONG_MAX, ULONG_MODULUS. cbn. lia.
    + unfold ULONG_MAX, ULONG_MODULUS. cbn. lia.
    + apply ex_layout_ok. reflexivity.
    + reflexivity.
    + cbn. lia.
    + intros d _ Hd. exact Hd.
    + destruct (Hgo ltac:(discriminate)) as (ret & changes & w1 & w2 & Hrun1 & Hrun2 & Hb & Ht).
      assert (Hobs : exists w0,
                nilfs_ifile_compare ex_cfg 5 world_bitmap_between 1 2 0 10
                  = Some (3, [mk_change 1 None (Some (mk_bh 2 2));
                              mk_change 2 None (Some (mk_bh 2 2));
                              mk_change 9 None (Some (mk_bh 2 5))], w0)).
      { eexists. vm_compute. reflexivity. }
      destruct Hobs as [w0 Hobs]. rewrite Hobs in Hrun1.
      inversion Hrun1; subst ret changes w1. clear Hrun1.
      exists w0, w2.
      split; [exact Hobs|]. split; [exact Hrun2|]. split; [exact Hb | exact Ht].
  - destruct (compare_skips_other_block ex_cfg world_bitmap_first 1 2 0 0 5
                (entry_block ex_cfg 1)) as (_ & _ & Hstop).
    + intros b. reflexivity.
    + unfold ULONG_MAX, ULONG_MODULUS. cbn. lia.
    + unfold ULONG_MAX, ULONG_MODULUS. cbn. lia.
    + apply ex_layout_ok. reflexivity.
    + reflexivity.
    + cbn. lia.
    + intros d _ Hd. exact Hd.
    + destruct (Hstop eq_refl eq_refl (mk_diff 4 40 72) [mk_diff 5 0 73] eq_refl eq_refl)
        as (w' & Hrun & Htrace & _).
      exists w'. split; [exact Hrun | exact Htrace].
Defined.

(** C10, as the claim states it, fails for [maxchanges] = 0: the bitmap
    block 4 is the first difference, and the comparison returns right
    behind it without looking at the next differing block 5, for which it
    would have stored a record. *)
Lemma compare_stops_behind_other_block :
  (exists w',
     nilfs_ifile_compare ex_cfg 3 world_bitmap_first 1 2 0 0 = Some (0, [], w') /\
     trace w' = [Ev_bmap_compare 1 2 2 2]) /\
  (exists w',
     nilfs_ifile_compare ex_cfg 3 world_block_5 1 2 0 0
       = Some (1, [mk_change 9 None (Some (mk_bh 2 5))], w') /\
     trace w' = [Ev_bmap_compare 1 2 2 1; Ev_get_entry_block 2 8 false 0]) /\
  compare_diffs ex_cfg world_bitmap_first 1 2 0 0 [mk_diff 4 40 72; mk_diff 5 0 73] 0
    <> compare_diffs ex_cfg world_bitmap_first 1 2 0 0 [mk_diff 5 0 73] 0.
Proof.
  split; [|split].
  - eexists. split; vm_compute; reflexivity.
  - eexists. split; vm_compute; reflexivity.
  - vm_compute. discriminate.
Qed.

(** ** Snapshot diff: where a failure comes from *)

Lemma compare_block_failure :
  forall cfg w ifile1 ifile2 start d mc n cs w',
    nilfs_ifile_compare_block cfg w ifile1 ifile2 start d mc = Some (n, cs, w') ->
    n < 0 ->
    exists ifile blkoff e, blk_fault w ifile blkoff = Some e /\ n = neg_errno e.
Proof.
  intros cfg w ifile1 ifile2 start d mc n cs w' Hrun Hneg.
  unfold nilfs_ifile_compare_block in Hrun.
  destruct (nilfs_palloc_block_type cfg ifile1 (key d)) as [t nr].
  destruct t; [|inversion Hrun; subst; lia].
  destruct (_ <? Z.max _ _); [inversion Hrun; subst; lia|].
  assert (Hget : forall w0 ifile p ret ibh w1,
            blk_fault w0 = blk_fault w ->
            (if negb (p =? NILFS_BMAP_INVALID_PTR cfg)
             then nilfs_palloc_get_entry_block cfg w0 ifile nr false
             else (0, None, w0)) = (ret, ibh, w1) ->
            blk_fault w1 = blk_fault w /\
            (ret < 0 ->
             exists ifile blkoff e, blk_fault w ifile blkoff = Some e /\ ret = neg_errno e)).
  { intros w0 ifile p ret ibh w1 Hsame E.
    destruct (negb (p =? NILFS_BMAP_INVALID_PTR cfg)).
    - unfold nilfs_palloc_get_entry_block in E.
      destruct (blk_fault w0 ifile _) as [e|] eqn:Hfault; inversion E; subst.
      + split; [exact Hsame|]. intros _. rewrite Hsame in Hfault. eauto.
      + split; [exact Hsame | lia].
    - inversion E; subst. split; [exact Hsame | lia]. }
  destruct (if negb (ptr1 d =? NILFS_BMAP_INVALID_PTR cfg)
            then nilfs_palloc_get_entry_block cfg w ifile1 nr false
            else (0, None, w)) as [[ret1 ibh1] w1] eqn:E1.
  destruct (Hget _ _ _ _ _ _ eq_refl E1) as [Hs1 Hr1].
  destruct (ret1 <? 0); [inversion Hrun; subst; auto|].
  destruct (if negb (ptr2 d =? NILFS_BMAP_INVALID_PTR cfg)
            then nilfs_palloc_get_entry_block cfg w1 ifile2 nr false
            else (0, None, w1)) as [[ret2 ibh2] w2] eqn:E2.
  destruct (Hget _ _ _ _ _ _ Hs1 E2) as [Hs2 Hr2].
  destruct (ret2 <? 0); [inversion Hrun; subst; auto|].
  match type of Hrun with
  | match ?scanned with _ => _ end = _ =>
      destruct scanned as [[[n0 cs0] w3]|] eqn:Hscan; [|discriminate]
  end.
  inversion Hrun; subst.
  destruct ibh1, ibh2; try (apply scan_entries_count in Hscan; lia).
  inversion Hscan; subst. lia.
Qed.

Lemma compare_diffs_failure :
  forall cfg ifile1 ifile2 start cap ds w nc nc' cs w',
    compare_diffs cfg w ifile1 ifile2 start cap ds nc = Some (Exit_failed, nc', cs, w') ->
    exists ifile blkoff e, blk_fault w ifile blkoff = Some e /\ nc' = neg_errno e.
Proof.
  intros cfg ifile1 ifile2 start cap.
  induction ds as [|d ds IH]; intros w nc nc' cs w' Hrun; cbn [compare_diffs] in Hrun;
    [discriminate|].
  destruct (nilfs_ifile_compare_block cfg w ifile1 ifile2 start d _)
    as [[[n cs0] w1]|] eqn:Hblock; [|discriminate].
  destruct (compare_block_acct _ _ _ _ _ _ _ _ _ _ Hblock) as ((_ & Hfault & _) & _).
  destruct (n <? 0) eqn:Hneg.
  { inversion Hrun; subst. apply Z.ltb_lt in Hneg.
    eapply compare_block_failure; eassumption. }
  destruct (to_ulong (nc + n) =? cap); [discriminate|].
  destruct (compare_diffs cfg w1 ifile1 ifile2 start cap ds (nc + n))
    as [[[[e1 nc1] cs1] w2]|] eqn:Hrest; [|discriminate].
  inversion Hrun; subst.
  destruct (IH _ _ _ _ _ Hrest) as (ifile & blkoff & e & He & Hn).
  rewrite Hfault in He. eauto.
Qed.

Lemma compare_batches_failure :
  forall cfg ifile1 ifile2 start cap maxdiffs fuel w blkoff nc e nc' cs w',
    compare_batches cfg fuel w ifile1 ifile2 start cap maxdiffs blkoff nc
      = Some (e, nc', cs, w') ->
    0 <= nc -> nc' < 0 ->
    (exists blkoff e, bmap_fault w blkoff = Some e /\ nc' = neg_errno e) \/
    (exists ifile blkoff e, blk_fault w ifile blkoff = Some e /\ nc' = neg_errno e).
Proof.
  intros cfg ifile1 ifile2 start cap maxdiffs.
  induction fuel as [|fuel IH]; intros w blkoff nc e nc' cs w' Hrun Hnc Hneg;
    [discriminate|].
  cbn [compare_batches] in Hrun. unfold nilfs_bmap_compare in Hrun.
  destruct (bmap_fault w blkoff) as [err|] eqn:Hfault.
  { rewrite neg_errno_ltb in Hrun. inversion Hrun; subst. left. eauto. }
  match type of Hrun with
  | context [log w ?ev] => set (w0 := log w ev) in *
  end.
  destruct (_ <? 0) eqn:Hnd; [apply Z.ltb_lt in Hnd; lia|].
  destruct (_ =? 0); [inversion Hrun; subst; lia|].
  destruct (compare_diffs cfg w0 ifile1 ifile2 start cap _ nc)
    as [[[[e1 nc1] cs1] w1]|] eqn:Hdiffs; [|discriminate].
  pose proof (compare_diffs_count _ _ _ _ _ _ _ _ _ _ _ _ Hdiffs) as Hcount.
  destruct (compare_diffs_acct _ _ _ _ _ _ _ _ _ _ _ _ Hdiffs)
    as ((_ & Hbf & _ & Hmf & _) & _).
  destruct e1.
  - injection Hrun as <- <- <- <-. lia.
  - injection Hrun as <- <- <- <-. right.
    apply compare_diffs_failure in Hdiffs. exact Hdiffs.
  - destruct (_ =? maxdiffs).
    + destruct (compare_batches cfg fuel w1 ifile1 ifile2 start cap maxdiffs _ nc1)
        as [[[[e2 nc2] cs2] w2]|] eqn:Hrest; [|discriminate].
      injection Hrun as <- <- <- <-.
      destruct (IH _ _ _ _ _ _ _ Hrest ltac:(lia) Hneg)
        as [(b & err & He & Hn)|(ifile & b & err & He & Hn)].
      * left. rewrite Hmf in He. eauto.
      * right. rewrite Hbf in He. eauto.
    + injection Hrun as <- <- <- <-. lia.
Qed.

(** X8.  A comparison fails only where a collaborator fails, and returns
    that collaborator's error code: a negative return value is -ENOMEM
    with no free page, or the code of a fault of the differ, or the code
    of a fault of a block read. *)
Theorem compare_failure_is_propagated :
  forall (cfg : nilfs_config) (fuel : nat) (w w' : world) (ifile1 ifile2 : ifile_id)
         (start maxchanges nc : Z) (changes : list nilfs_ifile_change),
    nilfs_ifile_compare cfg fuel w ifile1 ifile2 start maxchanges
      = Some (nc, changes, w') ->
    nc < 0 ->
    (free_pages_ok w = false /\ nc = neg_errno ENOMEM) \/
    (exists blkoff e, bmap_fault w blkoff = Some e /\ nc = neg_errno e) \/
    (exists ifile blkoff e, blk_fault w ifile blkoff = Some e /\ nc = neg_errno e).
Proof.
  intros cfg fuel w w' ifile1 ifile2 start maxchanges nc changes Hrun Hneg.
  unfold nilfs_ifile_compare in Hrun.
  destruct (free_pages_ok w); cbn [negb] in Hrun.
  2:{ inversion Hrun; subst. left. split; reflexivity. }
  right.
  destruct (compare_batches cfg fuel w ifile1 ifile2 start maxchanges (diffs_per_page cfg)
              (nilfs_palloc_entry_blkoff cfg ifile1 start) 0)
    as [[[[e nc0] cs] w1]|] eqn:Hb; [|discriminate].
  assert (Hnc : nc0 = nc) by (destruct e; inversion Hrun; subst; reflexivity).
  subst nc0.
  eapply compare_batches_failure; [exact Hb | lia | exact Hneg].
Qed.

Lemma compare_failure_is_propagated_witness :
  exists ifile blkoff e,
    blk_fault world_fetch_fault ifile blkoff = Some e /\ neg_errno EIO = neg_errno e.
Proof.
  assert (Hobs : exists w0,
            nilfs_ifile_compare ex_cfg 3 world_fetch_fault 1 2 0 10
              = Some (neg_errno EIO, [mk_change 1 None (Some (mk_bh 2 2))], w0)).
  { eexists. vm_compute. reflexivity. }
  destruct Hobs as [w0 Hobs].
  destruct (compare_failure_is_propagated _ _ _ _ _ _ _ _ _ _ Hobs ltac:(reflexivity))
    as [[Hpages _]|[(b & e & Hf & _)|Hblk]].
  - vm_compute in Hpages. discriminate.
  - vm_compute in Hf. discriminate.
  - exact Hblk.
Defined.

(** ** Entry life cycle: all or nothing *)

Lemma find_free_spec :
  forall used n nr0 nr,
    find_free used nr0 n = Some nr ->
    used nr = false /\ nr0 <= nr < nr0 + Z.of_nat n.
Proof.
  intros used. induction n as [|n IH]; intros nr0 nr H; cbn in H; [discriminate|].
  destruct (used nr0) eqn:Hu.
  - apply IH in H. destruct H. split; [assumption | lia].
  - inversion H; subst. split; [exact Hu | lia].
Qed.

Lemma upd_other :
  forall (A : Type) (f : ifile_id -> Z -> A) i n a i' n',
    (i' =? i) && (n' =? n) = false -> upd f i n a i' n' = f i' n'.
Proof. intros. unfold upd. rewrite H. reflexivity. Qed.

(** What a prepared allocation is: the slot was neither allocated nor
    reserved, and the only change is its reservation. *)
Lemma prepare_alloc_entry_spec :
  forall cfg w ifile ret req w1,
    nilfs_palloc_prepare_alloc_entry cfg w ifile (mk_req 0 None) = (ret, req, w1) ->
    pr_entry_bh req = None /\
    raw_inode w1 = raw_inode w /\ blk_fault w1 = blk_fault w /\
    b_count w1 = b_count w /\ pa_bitmap w1 = pa_bitmap w /\
    ((ret = neg_errno ENOSPC /\ pa_reserved w1 = pa_reserved w) \/
     (ret = 0 /\
      pa_bitmap w ifile (pr_entry_nr req) = false /\
      pa_reserved w ifile (pr_entry_nr req) = false /\
      0 <= pr_entry_nr req < Z.of_nat (palloc_nslots cfg ifile) /\
      pa_reserved w1 = upd (pa_reserved w) ifile (pr_entry_nr req) true)).
Proof.
  intros cfg w ifile ret req w1 H.
  unfold nilfs_palloc_prepare_alloc_entry in H. cbn [pr_entry_nr pr_entry_bh] in H.
  destruct (find_free _ 0 _) as [nr|] eqn:Hfree; inversion H; subst; clear H.
  - apply find_free_spec in Hfree. destruct Hfree as [Hused Hrange].
    apply orb_false_iff in Hused. destruct Hused as [Hb Hr].
    cbn. repeat split. right. repeat split; try assumption; lia.
  - cbn. repeat split. left. split; reflexivity.
Qed.

(** Every outcome of [nilfs_ifile_create_inode]. *)
Lemma create_inode_outcome :
  forall cfg w ifile ret oino obh w',
    nilfs_ifile_create_inode cfg w ifile = (ret, oino, obh, w') ->
    raw_inode w' = raw_inode w /\
    blk_fault w' = blk_fault w /\
    (forall i n, pa_reserved w' i n = pa_reserved w i n) /\
    ((ret < 0 /\ oino = None /\ obh = None /\
      pa_bitmap w' = pa_bitmap w /\ b_count w' = b_count w) \/
     (ret = 0 /\
      exists nr,
        0 <= nr < Z.of_nat (palloc_nslots cfg ifile) /\
        oino = Some (to_ulong nr) /\
        obh = Some (mk_bh ifile (nilfs_palloc_entry_blkoff cfg ifile nr)) /\
        blk_fault w ifile (nilfs_palloc_entry_blkoff cfg ifile nr) = None /\
        pa_bitmap w ifile nr = false /\
        pa_bitmap w' = upd (pa_bitmap w) ifile nr true /\
        (forall b, b_count w' b
                   = b_count w b
                     + holds (Some (mk_bh ifile (nilfs_palloc_entry_blkoff cfg ifile nr))) b))).
Proof.
  intros cfg w ifile ret oino obh w' Hrun.
  unfold nilfs_ifile_create_inode in Hrun.
  destruct (nilfs_palloc_prepare_alloc_entry cfg w ifile (mk_req 0 None))
    as [[ret0 req] w1] eqn:Hprep.
  destruct (prepare_alloc_entry_spec _ _ _ _ _ _ Hprep)
    as (Hbh & Hraw & Hfault & Hcount & Hbitmap & Hcase).
  destruct req as [nr rbh]. cbn [pr_entry_bh pr_entry_nr] in *. subst rbh.
  destruct Hcase as [[-> Hres]|(-> & Hb & Hr & Hrange & Hres)].
  - cbn in Hrun. inversion Hrun; subst; clear Hrun.
    split; [exact Hraw|]. split; [exact Hfault|].
    split; [intros; rewrite Hres; reflexivity|].
    left. repeat split; assumption || reflexivity.
  - cbn [Z.eqb] in Hrun.
    unfold nilfs_palloc_get_entry_block in Hrun. rewrite Hfault in Hrun.
    destruct (blk_fault w ifile (nilfs_palloc_entry_blkoff cfg ifile nr)) as [e|] eqn:Hf.
    + rewrite neg_errno_ltb in Hrun. cbn iota beta in Hrun.
      rewrite neg_errno_ltb in Hrun. cbn [pr_entry_bh pr_entry_nr brelse] in Hrun.
      inversion Hrun; subst; clear Hrun.
      split; [exact Hraw|]. split; [exact Hfault|]. split.
      * intros i n. cbn. rewrite Hres. unfold upd.
        destruct ((i =? ifile) && (n =? nr)) eqn:E; [|reflexivity].
        apply andb_true_iff in E. destruct E as [E1 E2].
        apply Z.eqb_eq in E1. apply Z.eqb_eq in E2. subst. symmetry. exact Hr.
      * left. split; [apply neg_errno_negative|]. repeat split; assumption.
    + cbn [Z.ltb Z.compare pr_entry_bh pr_entry_nr] in Hrun.
      inversion Hrun; subst; clear Hrun.
      split; [exact Hraw|]. split; [exact Hfault|]. split.
      * intros i n. cbn. rewrite Hres. unfold upd.
        destruct ((i =? ifile) && (n =? nr)) eqn:E; [|reflexivity].
        apply andb_true_iff in E. destruct E as [E1 E2].
        apply Z.eqb_eq in E1. apply Z.eqb_eq in E2. subst. symmetry. exact Hr.
      * right. split; [reflexivity|]. exists nr.
        split; [exact Hrange|]. split; [reflexivity|]. split; [reflexivity|].
        split; [exact Hf|]. split; [exact Hb|].
        split; [cbn; rewrite Hbitmap; reflexivity|].
        intros b. cbn. rewrite Hcount. destruct (bh_eqb b _); lia.
Qed.



(** Every outcome of [nilfs_ifile_delete_inode]. *)
Lemma delete_inode_outcome :
  forall cfg w ifile ino ret w',
    nilfs_ifile_delete_inode cfg w ifile ino = (ret, w') ->
    blk_fault w' = blk_fault w /\
    pa_reserved w' = pa_reserved w /\
    (forall b, b_count w' b = b_count w b) /\
    ((ret = neg_errno ENOENT /\ pa_bitmap w ifile ino = false /\
      raw_inode w' = raw_inode w /\ pa_bitmap w' = pa_bitmap w /\
      trace w' = trace w ++ [Ev_prepare_free_entry ifile ino (neg_errno ENOENT)]) \/
     (exists e,
        ret = neg_errno e /\ pa_bitmap w ifile ino = true /\
        blk_fault w ifile (nilfs_palloc_entry_blkoff cfg ifile ino) = Some e /\
        raw_inode w' = raw_inode w /\ pa_bitmap w' = pa_bitmap w /\
        trace w' = trace w ++ [Ev_prepare_free_entry ifile ino 0;
                               Ev_get_entry_block ifile ino false (neg_errno e);
                               Ev_abort_free_entry ifile ino]) \/
     (ret = 0 /\ pa_bitmap w ifile ino = true /\
      blk_fault w ifile (nilfs_palloc_entry_blkoff cfg ifile ino) = None /\
      raw_inode w' = upd (raw_inode w) ifile ino (clear_i_flags (raw_inode w ifile ino)) /\
      pa_bitmap w' = upd (pa_bitmap w) ifile ino false)).
Proof.
  intros cfg w ifile ino ret w' Hrun.
  unfold nilfs_ifile_delete_inode, nilfs_palloc_prepare_free_entry in Hrun.
  cbn [pr_entry_nr] in Hrun.
  destruct (pa_bitmap w ifile ino) eqn:Hbit.
  2:{ cbn in Hrun. inversion Hrun; subst; clear Hrun.
      split; [reflexivity|]. split; [reflexivity|]. split; [reflexivity|].
      left. repeat split. }
  cbn [Z.eqb] in Hrun.
  unfold nilfs_palloc_get_entry_block in Hrun. cbn [blk_fault log] in Hrun.
  destruct (blk_fault w ifile (nilfs_palloc_entry_blkoff cfg ifile ino)) as [e|] eqn:Hf.
  - rewrite neg_errno_ltb in Hrun. cbn iota beta in Hrun.
    rewrite neg_errno_ltb in Hrun. cbn [pr_entry_bh brelse] in Hrun.
    inversion Hrun; subst; clear Hrun.
    split; [reflexivity|]. split; [reflexivity|]. split; [reflexivity|].
    right. left. exists e.
    split; [reflexivity|]. split; [reflexivity|]. split; [reflexivity|].
    split; [reflexivity|]. split; [reflexivity|].
    cbn. rewrite <- !app_assoc. reflexivity.
  - cbn [Z.ltb Z.compare pr_entry_bh pr_entry_nr] in Hrun.
    inversion Hrun; subst; clear Hrun.
    split; [reflexivity|]. split; [reflexivity|].
    split; [intros b; cbn; destruct (bh_eqb b _); lia|].
    right. right. repeat split.
Qed.

(** X10.  [nilfs_ifile_delete_inode] changes one entry or nothing, and
    never keeps a reference: the reference counts are as before on every
    return.  A failed delete leaves every raw inode and the bitmap as they
    were, and the entry stays allocated.  A delete that returns 0 has
    cleared [i_flags] of that one entry and the bitmap bit of that one
    slot; every other entry and slot is untouched. *)
Theorem delete_inode_all_or_nothing :
  forall (cfg : nilfs_config) (w w' : world) (ifile : ifile_id) (ino ret : Z),
    nilfs_ifile_delete_inode cfg w ifile ino = (ret, w') ->
    (forall b, b_count w' b = b_count w b) /\
    pa_reserved w' = pa_reserved w /\
    ((ret < 0 /\ raw_inode w' = raw_inode w /\ pa_bitmap w' = pa_bitmap w) \/
     (ret = 0 /\ pa_bitmap w ifile ino = true /\
      raw_inode w' = upd (raw_inode w) ifile ino (clear_i_flags (raw_inode w ifile ino)) /\
      pa_bitmap w' = upd (pa_bitmap w) ifile ino false)).
Proof.
  intros cfg w w' ifile ino ret Hrun.
  destruct (delete_inode_outcome _ _ _ _ _ _ Hrun) as (_ & Hres & Hcount & Hcase).
  split; [exact Hcount|]. split; [exact Hres|].
  destruct Hcase as [(-> & _ & Hraw & Hbit & _)
                    |[(e & -> & _ & _ & Hraw & Hbit & _)|(-> & Hal & _ & Hraw & Hbit)]].
  - left. split; [reflexivity|]. split; assumption.
  - left. split; [apply neg_errno_negative|]. split; assumption.
  - right. repeat split; assumption.
Qed.

Lemma delete_inode_all_or_nothing_witness :
  exists w',
    nilfs_ifile_delete_inode ex_cfg world_one_inode 1 5 = (0, w') /\
    b_count w' (mk_bh 1 3) = 0 /\
    raw_inode w' 1 4 = raw_inode world_one_inode 1 4.
Proof.
  assert (Hobs : exists w0, nilfs_ifile_delete_inode ex_cfg world_one_inode 1 5 = (0, w0)).
  { eexists. vm_compute. reflexivity. }
  destruct Hobs as [w0 Hobs]. exists w0. split; [exact Hobs|].
  destruct (delete_inode_all_or_nothing ex_cfg world_one_inode w0 1 5 0 Hobs)
    as (Hcount & _ & [(Hret & _)|(_ & _ & Hraw & _)]).
  - lia.
  - split; [rewrite Hcount; reflexivity|]. rewrite Hraw. reflexivity.
Defined.

(** X11.  When the allocator has accepted the free but the block of the
    entry cannot be read, [nilfs_ifile_delete_inode] aborts the prepared
    free and returns the error of the read; it makes no other call, so
    nothing is marked dirty and no free is committed, and the entry stays
    allocated with its raw inode as it was. *)
Theorem delete_inode_fetch_failure :
  forall (cfg : nilfs_config) (w : world) (ifile : ifile_id) (ino : Z) (e : errno),
    pa_bitmap w ifile ino = true ->
    blk_fault w ifile (nilfs_palloc_entry_blkoff cfg ifile ino) = Some e ->
    exists w',
      nilfs_ifile_delete_inode cfg w ifile ino = (neg_errno e, w') /\
      trace w' = trace w ++ [Ev_prepare_free_entry ifile ino 0;
                             Ev_get_entry_block ifile ino false (neg_errno e);
                             Ev_abort_free_entry ifile ino] /\
      raw_inode w' = raw_inode w /\
      pa_bitmap w' = pa_bitmap w /\
      (forall b, b_count w' b = b_count w b).
Proof.
  intros cfg w ifile ino e Hbit Hfault.
  destruct (nilfs_ifile_delete_inode cfg w ifile ino) as [ret w'] eqn:Hrun.
  destruct (delete_inode_outcome _ _ _ _ _ _ Hrun) as (_ & _ & Hcount & Hcase).
  destruct Hcase as [(_ & Hfree & _)
                    |[(e' & -> & _ & Hf & Hraw & Hb & Htrace)|(_ & _ & Hok & _)]];
    try congruence.
  rewrite Hfault in Hf. inversion Hf; subst e'.
  exists w'. repeat split; assumption.
Qed.

(** Entry 5 of ifile 1 is allocated, but its block 3 cannot be read. *)
Lemma delete_inode_fetch_failure_witness :
  exists w',
    nilfs_ifile_delete_inode ex_cfg
      (ex_world no_inodes (upd no_faults 1 3 (Some EIO)) [] (upd empty_bitmap 1 5 true))
      1 5 = (neg_errno EIO, w') /\
    pa_bitmap w' 1 5 = true.
Proof.
  destruct (delete_inode_fetch_failure ex_cfg
              (ex_world no_inodes (upd no_faults 1 3 (Some EIO)) []
                        (upd empty_bitmap 1 5 true)) 1 5 EIO eq_refl eq_refl)
    as (w' & Hrun & _ & _ & Hbit & _).
  exists w'. split; [exact Hrun|]. rewrite Hbit. reflexivity.
Defined.

(** ** Entry life cycle: how the operations compose *)

(** What a successful create has done, with the entry number as it is
    returned. *)
Lemma create_inode_success :
  forall cfg w w1 ifile n bh,
    Z.of_nat (palloc_nslots cfg ifile) <= ULONG_MODULUS ->
    nilfs_ifile_create_inode cfg w ifile = (0, Some n, Some bh, w1) ->
    bh = mk_bh ifile (nilfs_palloc_entry_blkoff cfg ifile n) /\
    blk_fault w1 = blk_fault w /\
    blk_fault w ifile (nilfs_palloc_entry_blkoff cfg ifile n) = None /\
    raw_inode w1 = raw_inode w /\
    pa_bitmap w ifile n = false /\
    pa_bitmap w1 = upd (pa_bitmap w) ifile n true /\
    (forall b, b_count w1 b = b_count w b + holds (Some bh) b).
Proof.
  intros cfg w w1 ifile n bh Hslots Hrun.
  destruct (create_inode_outcome _ _ _ _ _ _ _ Hrun) as (Hraw & Hfault & _ & Hcase).
  destruct Hcase as [(Hneg & _)|(_ & nr & Hrange & Hino & Hbh & Hf & Hfree & Hbit & Hcount)];
    [lia|].
  assert (Hn : n = nr).
  { inversion Hino as [Hn]. apply to_ulong_small.
    unfold ULONG_MAX. lia. }
  subst nr. inversion Hbh; subst bh.
  repeat split; assumption.
Qed.

(** X12.  Round trip of create and lookup: after a successful create, a
    lookup of the returned entry number, if [NILFS_VALID_INODE] accepts
    it, succeeds and returns a handle of the same block, which then
    carries two more references than before the create. *)
Theorem create_then_lookup :
  forall (cfg : nilfs_config) (w w1 : world) (ifile : ifile_id) (n : Z)
         (bh : buffer_head),
    Z.of_nat (palloc_nslots cfg ifile) <= ULONG_MODULUS ->
    nilfs_ifile_create_inode cfg w ifile = (0, Some n, Some bh, w1) ->
    NILFS_VALID_INODE cfg n = true ->
    exists w2,
      nilfs_ifile_get_inode_block cfg w1 ifile n = (0, Some bh, w2) /\
      (forall b, b_count w2 b = b_count w b + 2 * holds (Some bh) b).
Proof.
  intros cfg w w1 ifile n bh Hslots Hrun Hvalid.
  destruct (create_inode_success _ _ _ _ _ _ Hslots Hrun)
    as (-> & Hfault & Hf & _ & _ & _ & Hcount).
  unfold nilfs_ifile_get_inode_block. rewrite Hvalid. cbn [negb].
  unfold nilfs_palloc_get_entry_block. rewrite Hfault, Hf. cbn [Z.eqb negb].
  eexists. split; [reflexivity|].
  intros b. rewrite b_count_get_bh. cbn [b_count log]. rewrite Hcount. lia.
Qed.

Lemma create_then_lookup_witness :
  exists w1 w2,
    nilfs_ifile_create_inode ex_cfg world_one_inode 1 = (0, Some 0, Some (mk_bh 1 2), w1) /\
    nilfs_ifile_get_inode_block ex_cfg w1 1 0 = (0, Some (mk_bh 1 2), w2) /\
    b_count w2 (mk_bh 1 2) = 2.
Proof.
  assert (Hobs : exists w0,
            nilfs_ifile_create_inode ex_cfg world_one_inode 1
              = (0, Some 0, Some (mk_bh 1 2), w0)).
  { eexists. vm_compute. reflexivity. }
  destruct Hobs as [w1 Hobs].
  destruct (create_then_lookup ex_cfg world_one_inode w1 1 0 (mk_bh 1 2))
    as (w2 & Hlook & Hcount).
  - unfold ULONG_MODULUS. cbn. lia.
  - exact Hobs.
  - reflexivity.
  - exists w1, w2. split; [exact Hobs|]. split; [exact Hlook|].
    rewrite Hcount. reflexivity.
Defined.

(** X13.  No double allocation: two creates in a row that both succeed
    return different entry numbers, the second one an entry that the first
    create left unallocated. *)
Theorem create_twice_distinct :
  forall (cfg : nilfs_config) (w w1 w2 : world) (ifile : ifile_id) (n1 n2 : Z)
         (bh1 bh2 : buffer_head),
    Z.of_nat (palloc_nslots cfg ifile) <= ULONG_MODULUS ->
    nilfs_ifile_create_inode cfg w ifile = (0, Some n1, Some bh1, w1) ->
    nilfs_ifile_create_inode cfg w1 ifile = (0, Some n2, Some bh2, w2) ->
    n1 <> n2 /\ pa_bitmap w2 ifile n1 = true /\ pa_bitmap w2 ifile n2 = true.
Proof.
  intros cfg w w1 w2 ifile n1 n2 bh1 bh2 Hslots Hrun1 Hrun2.
  destruct (create_inode_success _ _ _ _ _ _ Hslots Hrun1)
    as (_ & _ & _ & _ & _ & Hbit1 & _).
  destruct (create_inode_success _ _ _ _ _ _ Hslots Hrun2)
    as (_ & _ & _ & _ & Hfree2 & Hbit2 & _).
  assert (Hset : pa_bitmap w1 ifile n1 = true) by (rewrite Hbit1; apply upd_same).
  assert (Hne : n1 <> n2) by (intros ->; congruence).
  split; [exact Hne|]. rewrite Hbit2. split; [|apply upd_same].
  rewrite upd_other; [exact Hset|].
  apply andb_false_iff. right. apply Z.eqb_neq. exact Hne.
Qed.

Lemma create_twice_distinct_witness :
  exists w1 w2,
    nilfs_ifile_create_inode ex_cfg world_empty 1 = (0, Some 0, Some (mk_bh 1 2), w1) /\
    nilfs_ifile_create_inode ex_cfg w1 1 = (0, Some 1, Some (mk_bh 1 2), w2) /\
    0 <> 1.
Proof.
  assert (Hobs : exists w1 w2,
            nilfs_ifile_create_inode ex_cfg world_empty 1
              = (0, Some 0, Some (mk_bh 1 2), w1) /\
            nilfs_ifile_create_inode ex_cfg w1 1 = (0, Some 1, Some (mk_bh 1 2), w2)).
  { eexists. eexists. split; [vm_compute; reflexivity | vm_compute; reflexivity]. }
  destruct Hobs as (w1 & w2 & H1 & H2). exists w1, w2.
  split; [exact H1|]. split; [exact H2|].
  refine (proj1 (create_twice_distinct ex_cfg world_empty w1 w2 1 0 1 _ _ _ H1 H2)).
  unfold ULONG_MODULUS. cbn. lia.
Defined.

(** X14.  Round trip of create and delete: the entry that a successful
    create returns can be deleted right away; the delete returns 0, the
    allocator's bitmap is then what it was before the create, the flags of
    the entry are zero, and of the two references taken on the way only
    the one that the create handed out is left. *)
Theorem create_then_delete :
  forall (cfg : nilfs_config) (w w1 : world) (ifile : ifile_id) (n : Z)
         (bh : buffer_head),
    Z.of_nat (palloc_nslots cfg ifile) <= ULONG_MODULUS ->
    nilfs_ifile_create_inode cfg w ifile = (0, Some n, Some bh, w1) ->
    exists w2,
      nilfs_ifile_delete_inode cfg w1 ifile n = (0, w2) /\
      (forall i k, pa_bitmap w2 i k = pa_bitmap w i k) /\
      i_flags (raw_inode w2 ifile n) = 0 /\
      (forall b, b_count w2 b = b_count w b + holds (Some bh) b).
Proof.
  intros cfg w w1 ifile n bh Hslots Hrun.
  destruct (create_inode_success _ _ _ _ _ _ Hslots Hrun)
    as (_ & Hfault & Hf & _ & Hfree & Hbit & Hcount).
  assert (Hset : pa_bitmap w1 ifile n = true) by (rewrite Hbit; apply upd_same).
  destruct (nilfs_ifile_delete_inode cfg w1 ifile n) as [ret w2] eqn:Hdel.
  destruct (delete_inode_outcome _ _ _ _ _ _ Hdel) as (_ & _ & Hcount2 & Hcase).
  destruct Hcase as [(_ & Hno & _)
                    |[(e & _ & _ & He & _)|(-> & _ & _ & Hraw & Hbit2)]].
  - congruence.
  - rewrite Hfault, Hf in He. discriminate.
  - exists w2. split; [reflexivity|]. split; [|split].
    + intros i k. rewrite Hbit2, Hbit. unfold upd.
      destruct ((i =? ifile) && (k =? n)) eqn:E; [|reflexivity].
      apply andb_true_iff in E. destruct E as [E1 E2].
      apply Z.eqb_eq in E1. apply Z.eqb_eq in E2. subst. symmetry. exact Hfree.
    + rewrite Hraw, upd_same. reflexivity.
    + intros b. rewrite Hcount2. apply Hcount.
Qed.

Lemma create_then_delete_witness :
  exists w1 w2,
    nilfs_ifile_create_inode ex_cfg world_one_inode 1 = (0, Some 0, Some (mk_bh 1 2), w1) /\
    nilfs_ifile_delete_inode ex_cfg w1 1 0 = (0, w2) /\
    pa_bitmap w2 1 0 = false /\ pa_bitmap w2 1 5 = true.
Proof.
  assert (Hobs : exists w0,
            nilfs_ifile_create_inode ex_cfg world_one_inode 1
              = (0, Some 0, Some (mk_bh 1 2), w0)).
  { eexists. vm_compute. reflexivity. }
  destruct Hobs as [w1 Hobs].
  destruct (create_then_delete ex_cfg world_one_inode w1 1 0 (mk_bh 1 2))
    as (w2 & Hdel & Hbit & _).
  - unfold ULONG_MODULUS. cbn. lia.
  - exact Hobs.
  - exists w1, w2. split; [exact Hobs|]. split; [exact Hdel|].
    rewrite !Hbit. split; reflexivity.
Defined.

(** X15.  A lookup changes nothing but reference counts and the trace, and
    it returns 0 exactly when it hands out a handle: then the handle is
    the block of the entry and carries one more reference; otherwise the
    return value is negative, no handle is set and no count has moved. *)
Theorem get_inode_block_outcome :
  forall (cfg : nilfs_config) (w w' : world) (ifile : ifile_id) (ino ret : Z)
         (obh : option buffer_head),
    nilfs_ifile_get_inode_block cfg w ifile ino = (ret, obh, w') ->
    frame w w' /\
    ((ret = 0 /\
      obh = Some (mk_bh ifile (nilfs_palloc_entry_blkoff cfg ifile ino)) /\
      forall b, b_count w' b = b_count w b + holds obh b) \/
     (ret < 0 /\ obh = None /\ forall b, b_count w' b = b_count w b)).
Proof.
  intros cfg w w' ifile ino ret obh Hrun.
  unfold nilfs_ifile_get_inode_block in Hrun.
  destruct (NILFS_VALID_INODE cfg ino); cbn [negb] in Hrun.
  2:{ inversion Hrun; subst. split; [apply frame_log|].
      right. split; [reflexivity|]. split; reflexivity. }
  destruct (nilfs_palloc_get_entry_block cfg w ifile ino false) as [[err bh] w1] eqn:Hget.
  destruct (get_entry_block_acct _ _ _ _ _ _ _ _ Hget) as (Hf & Hc & Hcase).
  destruct Hcase as [[Hneg ->]|(-> & -> & _)].
  - replace (err =? 0) with false in Hrun by (symmetry; apply Z.eqb_neq; lia).
    cbn [negb] in Hrun. inversion Hrun; subst.
    split; [eapply frame_trans; [exact Hf | apply frame_log]|].
    right. split; [exact Hneg|]. split; [reflexivity|].
    intros b. cbn [b_count log]. rewrite Hc. cbn. lia.
  - cbn [Z.eqb negb] in Hrun. inversion Hrun; subst.
    split; [exact Hf|]. left. split; [reflexivity|]. split; [reflexivity | exact Hc].
Qed.

Lemma get_inode_block_outcome_witness :
  exists w',
    nilfs_ifile_get_inode_block ex_cfg world_create_fault 1 0 = (neg_errno EIO, None, w') /\
    raw_inode w' = raw_inode world_create_fault /\
    b_count w' (mk_bh 1 2) = 0.
Proof.
  assert (Hobs : exists w0,
            nilfs_ifile_get_inode_block ex_cfg world_create_fault 1 0
              = (neg_errno EIO, None, w0)).
  { eexists. vm_compute. reflexivity. }
  destruct Hobs as [w0 Hobs]. exists w0. split; [exact Hobs|].
  destruct (get_inode_block_outcome _ _ _ _ _ _ _ Hobs)
    as (Hf & [(Hret & _)|(_ & _ & Hcount)]).
  - vm_compute in Hret. discriminate.
  - split; [apply Hf | rewrite Hcount; reflexivity].
Defined.

(** ** Table initialisation *)

(** X16.  [nilfs_ifile_read] hands out the ifile inode exactly when it
    returns 0.  An inode that is already set up is handed out without any
    initialisation call.  For a new inode exactly one of
    [unlock_new_inode] and [iget_failed] is called, as the last call:
    [unlock_new_inode] when the call returns 0, [iget_failed] when it does
    not, so a half set up inode is never unlocked or handed out. *)
Theorem ifile_read_protocol :
  forall (env : ifile_read_env) (inode_size ret : Z) (set : bool)
         (calls : list read_event),
    nilfs_ifile_read env inode_size = (ret, set, calls) ->
    (set = true <-> ret = 0) /\
    (iget_locked env = Iget_NULL -> ret = neg_errno ENOMEM /\ calls = [Rd_iget_locked]) /\
    (iget_locked env = Iget_inode false -> ret = 0 /\ calls = [Rd_iget_locked]) /\
    (iget_locked env = Iget_inode true ->
     (ret = 0 -> last calls Rd_iget_locked = Rd_unlock_new_inode /\
                 ~ In Rd_iget_failed calls) /\
     (ret <> 0 -> last calls Rd_iget_locked = Rd_iget_failed /\
                  ~ In Rd_unlock_new_inode calls)).
Proof.
  intros env inode_size ret set calls Hrun.
  unfold nilfs_ifile_read in Hrun.
  destruct (iget_locked env) as [|[|]];
    [|destruct (mdt_init_ret env =? 0) eqn:E1;
      [destruct (init_blockgroup_ret env inode_size =? 0) eqn:E2;
       [destruct (read_inode_common_ret env =? 0) eqn:E3|]|]|];
    cbn [negb] in Hrun; inversion Hrun; subst; clear Hrun;
    try apply Z.eqb_neq in E1; try apply Z.eqb_neq in E2; try apply Z.eqb_neq in E3;
    cbn; unfold neg_errno; cbn;
    intuition (try discriminate; try congruence; try lia).
Qed.

Lemma ifile_read_protocol_witness :
  nilfs_ifile_read (mk_read_env (Iget_inode true) 0 (fun _ => neg_errno EIO) 0) 128
    = (neg_errno EIO, false,
       [Rd_iget_locked; Rd_mdt_init; Rd_init_blockgroup 128; Rd_iget_failed]) /\
  ~ In Rd_unlock_new_inode
       [Rd_iget_locked; Rd_mdt_init; Rd_init_blockgroup 128; Rd_iget_failed].
Proof.
  split; [reflexivity|].
  destruct (ifile_read_protocol
              (mk_read_env (Iget_inode true) 0 (fun _ => neg_errno EIO) 0) 128
              _ _ _ eq_refl) as (_ & _ & _ & Hnew).
  destruct (Hnew eq_refl) as [_ Hfail].
  apply Hfail. discriminate.
Defined.

(** X17.  The steps that set up a new ifile inode run in order and stop at
    the first one that fails: the layout of the block groups is set up
    only after [nilfs_mdt_init] has returned 0, the allocator cache is
    attached and the on-disk inode read only after both have, and the
    return value of a failed call is the return value of its first failing
    step. *)
Theorem ifile_read_stops_at_first_failure :
  forall (env : ifile_read_env) (inode_size ret : Z) (set : bool)
         (calls : list read_event),
    iget_locked env = Iget_inode true ->
    nilfs_ifile_read env inode_size = (ret, set, calls) ->
    (In (Rd_init_blockgroup inode_size) calls <-> mdt_init_ret env = 0) /\
    (In Rd_setup_cache calls <->
     mdt_init_ret env = 0 /\ init_blockgroup_ret env inode_size = 0) /\
    (In Rd_read_inode_common calls <-> In Rd_setup_cache calls) /\
    (mdt_init_ret env <> 0 -> ret = mdt_init_ret env) /\
    (mdt_init_ret env = 0 -> init_blockgroup_ret env inode_size <> 0 ->
     ret = init_blockgroup_ret env inode_size) /\
    (mdt_init_ret env = 0 -> init_blockgroup_ret env inode_size = 0 ->
     ret = read_inode_common_ret env).
Proof.
  intros env inode_size ret set calls Hnew Hrun.
  unfold nilfs_ifile_read in Hrun. rewrite Hnew in Hrun.
  destruct (mdt_init_ret env =? 0) eqn:E1;
    [destruct (init_blockgroup_ret env inode_size =? 0) eqn:E2;
     [destruct (read_inode_common_ret env =? 0) eqn:E3|]|];
    cbn [negb] in Hrun; inversion Hrun; subst; clear Hrun;
    try apply Z.eqb_eq in E1; try apply Z.eqb_eq in E2; try apply Z.eqb_eq in E3;
    cbn;
    intuition (try discriminate; try congruence; try lia).
Qed.

Lemma ifile_read_stops_at_first_failure_witness :
  nilfs_ifile_read (mk_read_env (Iget_inode true) (neg_errno ENOMEM) (fun _ => 0) 0) 128
    = (neg_errno ENOMEM, false, [Rd_iget_locked; Rd_mdt_init; Rd_iget_failed]) /\
  ~ In (Rd_init_blockgroup 128) [Rd_iget_locked; Rd_mdt_init; Rd_iget_failed].
Proof.
  split; [reflexivity|].
  destruct (ifile_read_stops_at_first_failure
              (mk_read_env (Iget_inode true) (neg_errno ENOMEM) (fun _ => 0) 0) 128
              _ _ _ eq_refl eq_refl) as (Hinit & _).
  intros Hin. apply Hinit in Hin. vm_compute in Hin. discriminate.
Defined.
